(** * Cl2Larkinfo: the permission-request lifecycle, embedded and verified

    A shallow embedding of the TypeScript sources

      - [api/notify.ts]            (risk classifier, create endpoint)
      - [api/lark/callback.ts]     (card action callback)
      - [api/status/[id].ts]       (poll endpoint)
      - [src/store/memory-store.ts], [src/store/kv-store.ts], [src/store/index.ts]
      - [src/lark/types.ts]

    JavaScript strings are sequences of UTF-16 code units; they are modelled
    as [list N].  Instants and durations are integer milliseconds, [Z].
    Finite maps ([Map], the Redis-compatible KV) are stdpp's [gmap].  Effects
    (the clock behind [Date.now()], the two store backends, the chat gateway,
    [randomUUID], exceptions) are threaded through a small state-and-exception
    monad over a [World].

    Modelling choices:
      - an invocation of an endpoint runs from start to end without another
        one interleaving at its [await]s;
      - the KV server evicts a key [ex] seconds after the [set], by the clock
        the handlers read, and its calls do not fail;
      - the chat platform answers each call with a message id or a failure,
        as an oracle in the world decides;
      - objects held in the [Map] of the volatile store are mutated in place
        in the source; no handler keeps and reads a stale copy of a mutated
        field, so records are values here. *)

From Stdlib Require Import ZArith NArith List String Ascii Bool Lia.
From stdpp Require Import base option list gmap.

Local Open Scope Z_scope.

(** ** JavaScript strings *)

Module JS.

(** A string is the list of its UTF-16 code units. *)
Abbreviation jsstring := (list N).

(** Literals of the source are ASCII; [str] turns a literal into code units. *)
Definition str (s : string) : jsstring :=
List.map N_of_ascii (list_ascii_of_string s).

(** ECMAScript [WhiteSpace] and [LineTerminator] code points: what
  [String.prototype.trim] strips and what [\s] matches. *)
Definition is_line_terminator (c : N) : bool :=
(N.eqb c 10 || N.eqb c 13 || N.eqb c 8232 || N.eqb c 8233)%bool.

Definition is_white_space (c : N) : bool :=
(N.eqb c 9 || N.eqb c 11 || N.eqb c 12 || N.eqb c 32 || N.eqb c 160
 || N.eqb c 5760 || (N.leb 8192 c && N.leb c 8202) || N.eqb c 8239
 || N.eqb c 8287 || N.eqb c 12288 || N.eqb c 65279)%bool.

Definition is_space (c : N) : bool :=
(is_white_space c || is_line_terminator c)%bool.

Fixpoint trim_start (s : jsstring) : jsstring :=
match s with
| c :: s' => if is_space c then trim_start s' else s
| [] => []
end.

(** [s.trim()] *)
Definition trim (s : jsstring) : jsstring :=
rev (trim_start (rev (trim_start s))).

(** [s.startsWith(p)] *)
Fixpoint startsWith (p s : jsstring) : bool :=
match p, s with
| [], _ => true
| a :: p', b :: s' => (N.eqb a b && startsWith p' s')%bool
| _ :: _, [] => false
end.

(** [s === t] on strings *)
Definition streq (s t : jsstring) : bool := bool_decide (s = t).

(** Truthiness of a possibly absent string: [undefined] and [''] are falsy. *)
Definition truthy (o : option jsstring) : bool :=
match o with
| Some (_ :: _) => true
| _ => false
end.

(** [a || b] on possibly absent strings *)
Definition or_else (a b : option jsstring) : option jsstring :=
if truthy a then a else b.

(** [s.split('/').pop()]: the segment after the last ['/'] (the whole string
  when there is none). *)
Fixpoint last_segment_from (acc s : jsstring) : jsstring :=
match s with
| [] => rev acc
| c :: s' => if N.eqb c 47 then last_segment_from [] s'
             else last_segment_from (c :: acc) s'
end.

Definition split_slash_pop (s : jsstring) : jsstring := last_segment_from [] s.

End JS.

Import JS.

(** ** Regular expressions of the classifier

    The patterns of [determineRiskLevel] use literals, [\s], [.], [+], [*],
    [?], grouping and the [i] flag only.  For such patterns [RegExp.test]
    answers whether some substring of the input belongs to the regular
    language, which is what the derivative matcher below decides. *)

Module Regex.

(** Character matchers.  Under the [i] flag (without [u]) both sides are
  canonicalised by upper-casing, and a code unit of 128 or more never
  canonicalises to an ASCII one: an ASCII pattern character matches
  exactly its two ASCII cases. *)
Inductive cls : Type :=
| CLit (c : N)      (* a literal pattern character, case-insensitive *)
| CSpace            (* \s *)
| CDot.             (* .  : anything but a line terminator *)

Definition canonicalize (c : N) : N :=
if (N.leb 97 c && N.leb c 122)%bool then (c - 32)%N else c.

Definition cls_match (k : cls) (c : N) : bool :=
match k with
| CLit p => N.eqb (canonicalize p) (canonicalize c)
| CSpace => is_space c
| CDot => negb (is_line_terminator c)
end.

Inductive regex : Type :=
| RNone
| REps
| RChar (k : cls)
| RSeq (r1 r2 : regex)
| RAlt (r1 r2 : regex)
| RStar (r : regex).

Fixpoint nullable (r : regex) : bool :=
match r with
| RNone => false
| REps => true
| RChar _ => false
| RSeq r1 r2 => (nullable r1 && nullable r2)%bool
| RAlt r1 r2 => (nullable r1 || nullable r2)%bool
| RStar _ => true
end.

Fixpoint deriv (c : N) (r : regex) : regex :=
match r with
| RNone => RNone
| REps => RNone
| RChar k => if cls_match k c then REps else RNone
| RSeq r1 r2 =>
    if nullable r1 then RAlt (RSeq (deriv c r1) r2) (deriv c r2)
    else RSeq (deriv c r1) r2
| RAlt r1 r2 => RAlt (deriv c r1) (deriv c r2)
| RStar r1 => RSeq (deriv c r1) (RStar r1)
end.

(** [matches r s]: the whole of [s] is in the language of [r]. *)
Fixpoint matches (r : regex) (s : jsstring) : bool :=
match s with
| [] => nullable r
| c :: s' => matches (deriv c r) s'
end.

(** Some prefix of [s] is in the language of [r]. *)
Fixpoint match_here (r : regex) (s : jsstring) : bool :=
match s with
| [] => nullable r
| c :: s' => (nullable r || match_here (deriv c r) s')%bool
end.

(** [pattern.test(s)]: a match may start at any position. *)
Fixpoint test (r : regex) (s : jsstring) : bool :=
(match_here r s ||
 match s with
 | [] => false
 | _ :: s' => test r s'
 end)%bool.

(** Pattern syntax. *)
Fixpoint lit_chars (s : jsstring) : regex :=
match s with
| [] => REps
| [c] => RChar (CLit c)
| c :: s' => RSeq (RChar (CLit c)) (lit_chars s')
end.

Definition lit (s : string) : regex := lit_chars (str s).
Definition plus (r : regex) : regex := RSeq r (RStar r).
Definition opt (r : regex) : regex := RAlt r REps.
Definition ws : regex := RChar CSpace.
Definition dot : regex := RChar CDot.

Declare Scope regex_scope.
Delimit Scope regex_scope with re.
Infix "·" := RSeq (at level 41, right associativity) : regex_scope.

(** The language of a pattern, as a relation, for the soundness of the
  matcher. *)
Inductive lang : regex -> jsstring -> Prop :=
| L_eps : lang REps []
| L_char k c : cls_match k c = true -> lang (RChar k) [c]
| L_seq r1 r2 s1 s2 : lang r1 s1 -> lang r2 s2 -> lang (RSeq r1 r2) (s1 ++ s2)
| L_alt_l r1 r2 s : lang r1 s -> lang (RAlt r1 r2) s
| L_alt_r r1 r2 s : lang r2 s -> lang (RAlt r1 r2) s
| L_star_nil r : lang (RStar r) []
| L_star_cons r s1 s2 :
    lang r s1 -> lang (RStar r) s2 -> lang (RStar r) (s1 ++ s2).

End Regex.

Import Regex.

(** ** The risk classifier ([api/notify.ts], [determineRiskLevel]) *)

Inductive RiskLevel : Type := low | medium | high | critical.

Definition dangerousPatterns : list regex :=
  [ (lit "rm" · plus ws · lit "-rf")%re;
    (lit "rm" · plus ws · RStar dot · lit "-f")%re;
    lit "rmdir";
    lit "format";
    lit "mkfs";
    (lit "dd" · plus ws · lit "if=")%re;
    (lit ">" · RStar ws · lit "/dev")%re;
    (lit "chmod" · plus ws · lit "777")%re;
    (lit "curl" · RStar dot · lit "|" · RStar ws · opt (lit "ba") · lit "sh")%re;
    (lit "wget" · RStar dot · lit "|" · RStar ws · opt (lit "ba") · lit "sh")%re ].

Definition highRiskPatterns : list regex :=
  [ (lit "git" · plus ws · lit "push" · RStar dot · lit "-f")%re;
    (lit "git" · plus ws · lit "reset" · RStar dot · lit "--hard")%re;
    (lit "npm" · plus ws · lit "publish")%re;
    (lit "docker" · plus ws · lit "rm")%re;
    (lit "kubectl" · plus ws · lit "delete")%re;
    (lit "drop" · plus ws · lit "database")%re;
    (lit "truncate" · plus ws · lit "table")%re ].

Definition mediumRiskPatterns : list regex :=
  [ (lit "npm" · plus ws · lit "install")%re;
    (lit "pip" · plus ws · lit "install")%re;
    (lit "git" · plus ws · lit "checkout")%re;
    (lit "git" · plus ws · lit "merge")%re;
    (lit "docker" · plus ws · lit "run")%re;
    (lit "kubectl" · plus ws · lit "apply")%re ].

(** [for (const pattern of ps) if (pattern.test(cmdStr)) return ...] *)
Fixpoint any_match (ps : list regex) (s : jsstring) : bool :=
  match ps with
  | [] => false
  | p :: ps' => if test p s then true else any_match ps' s
  end.

(** [command || ''] *)
Definition cmdStr_of (command : option jsstring) : jsstring :=
  match or_else command (Some []) with
  | Some s => s
  | None => []
  end.

(** The cascade in the words of the specification: the patterns of the three
    tiers in their order, each with its tier; the first pattern that matches
    decides, and without a match the shell tool is [medium], any other [low]. *)
Definition cascade : list (regex * RiskLevel) :=
  List.map (fun p => (p, critical)) dangerousPatterns
  ++ List.map (fun p => (p, high)) highRiskPatterns
  ++ List.map (fun p => (p, medium)) mediumRiskPatterns.

Definition classify_first_match (tool : jsstring) (command : option jsstring)
  : RiskLevel :=
  match List.find (fun x => test (fst x) (cmdStr_of command)) cascade with
  | Some (_, lvl) => lvl
  | None => if streq tool (str "Bash") then medium else low
  end.

Definition determineRiskLevel (tool : jsstring) (command : option jsstring)
  : RiskLevel :=
  let cmdStr := cmdStr_of command in
  if any_match dangerousPatterns cmdStr then critical
  else if any_match highRiskPatterns cmdStr then high
  else if any_match mediumRiskPatterns cmdStr then medium
  else if streq tool (str "Bash") then medium
  else low.


(** ** Data model ([src/lark/types.ts]) *)

Module Decision.
Inductive t : Type := approve | deny | message.

(** The wire form of a decision, as carried by a card action value. *)
Definition to_string (d : t) : jsstring :=
  match d with
  | approve => str "approve"
  | deny => str "deny"
  | message => str "message"
  end.
End Decision.

Module Status.
Inductive t : Type := pending | approved | denied | expired | message.

Definition to_string (s : t) : jsstring :=
  match s with
  | pending => str "pending"
  | approved => str "approved"
  | denied => str "denied"
  | expired => str "expired"
  | message => str "message"
  end.

Definition eqb (a b : t) : bool :=
  match a, b with
  | pending, pending | approved, approved | denied, denied
  | expired, expired | message, message => true
  | _, _ => false
  end.

#[global] Instance eq_dec : EqDecision t.
Proof. solve_decision. Defined.

(** Terminal statuses of the glossary: everything but [pending]. *)
Definition terminal (s : t) : Prop := s <> pending.
End Status.

(** [args] is an opaque key-value payload. *)
Abbreviation Args := (gmap jsstring jsstring).

Record PermissionRequest : Type := {
  requestId : jsstring;
  tool : jsstring;
  command : option jsstring;
  description : option jsstring;
  args : option Args;
  workingDirectory : jsstring;
  project : jsstring;
  riskLevel : RiskLevel;
  timestamp : Z;
  expiresAt : Z
}.

(** The fields [requestId], [decision] and [message] of [DecisionResponse]
    carry the prefix [d_] here, the names being taken by other records. *)
Record DecisionResponse : Type := {
  d_requestId : jsstring;
  d_decision : Decision.t;
  d_message : option jsstring;
  respondedAt : Z;
  respondedBy : option jsstring
}.

Record StoredRequest : Type := {
  request : PermissionRequest;
  status : Status.t;
  decision : option DecisionResponse;
  larkMessageId : option jsstring;
  createdAt : Z
}.

(** [stored.status = s] and [{...stored, status: s}] *)
Definition with_status (r : StoredRequest) (s : Status.t) : StoredRequest :=
  {| request := request r; status := s; decision := decision r;
     larkMessageId := larkMessageId r; createdAt := createdAt r |}.

(** [stored.decision = d] and [{...stored, decision: d}] *)
Definition with_decision (r : StoredRequest) (d : DecisionResponse)
  : StoredRequest :=
  {| request := request r; status := status r; decision := Some d;
     larkMessageId := larkMessageId r; createdAt := createdAt r |}.

(** ** The world the handlers run in *)

(** [process.env].  [LARK_TIMEOUT] holds the value of
    [parseInt(process.env.LARK_TIMEOUT || '')], with [None] for [NaN];
    [kv_module_loads] says whether the dynamic import of [@vercel/kv]
    succeeds. *)
Record Env : Type := {
  LARK_API_KEY : option jsstring;
  LARK_VERIFICATION_TOKEN : option jsstring;
  LARK_TIMEOUT : option Z;
  KV_REST_API_URL : option jsstring;
  KV_REST_API_TOKEN : option jsstring;
  kv_module_loads : bool;
  LARK_APP_ID : option jsstring;
  LARK_APP_SECRET : option jsstring;
  LARK_CHAT_ID : option jsstring
}.

(** A [setTimeout] handle of the volatile store: when it fires, and whether
    [clearTimeout] was called on it. *)
Record Timer : Type := { fires_at : Z; cleared : bool }.

(** The state of a [MemoryStore] instance: its two [Map]s.  [store] gives
    each id the record it holds.  The source holds the records by reference
    and assigns to their fields in place; for the entry of the id an
    operation is called with, that is the update written here.  (The
    handlers store a freshly built object under a fresh id: no object is
    held under two ids.) *)
Record MemoryState : Type := {
  store : gmap jsstring StoredRequest;
  timers : gmap jsstring Timer
}.

(** What the card builder and the chat API are asked to do. *)
Inductive LarkCall : Type :=
  | SendPermissionRequest (r : PermissionRequest)
  | UpdateWithDecision (messageId : jsstring) (r : PermissionRequest)
      (d : Decision.t) (by_ : option jsstring)
  | UpdateAsExpired (messageId : jsstring) (r : PermissionRequest).

(** - [w_now], [w_ticks]: the clock.  Each reading of the clock first lets
      the next tick (a non-negative number of milliseconds) elapse, so
      successive readings never decrease.
    - [w_mem]: the singleton [MemoryStore] of the process.
    - [w_kv]: the Redis-compatible server: each key holds a value and the
      instant at which the key is evicted ([set] with [ex] seconds).
    - [w_lark]: the answers the chat platform will give to the next calls
      ([Some id] for a success carrying a message id, [None] for a failure);
      [w_cards]: the calls made so far, latest first.
    - [w_uuid], [w_uuid_next]: the values [randomUUID()] returns. *)
Record World : Type := {
  w_now : Z;
  w_ticks : list N;
  w_env : Env;
  w_mem : MemoryState;
  w_kv : gmap jsstring (StoredRequest * Z);
  w_lark : list (option jsstring);
  w_cards : list LarkCall;
  w_uuid : nat -> jsstring;
  w_uuid_next : nat
}.

Definition set_clock (t : Z) (ticks : list N) (w : World) : World :=
  {| w_now := t; w_ticks := ticks; w_env := w_env w; w_mem := w_mem w;
     w_kv := w_kv w; w_lark := w_lark w; w_cards := w_cards w;
     w_uuid := w_uuid w; w_uuid_next := w_uuid_next w |}.

Definition set_mem (m : MemoryState) (w : World) : World :=
  {| w_now := w_now w; w_ticks := w_ticks w; w_env := w_env w; w_mem := m;
     w_kv := w_kv w; w_lark := w_lark w; w_cards := w_cards w;
     w_uuid := w_uuid w; w_uuid_next := w_uuid_next w |}.

Definition set_kv (k : gmap jsstring (StoredRequest * Z)) (w : World) : World :=
  {| w_now := w_now w; w_ticks := w_ticks w; w_env := w_env w; w_mem := w_mem w;
     w_kv := k; w_lark := w_lark w; w_cards := w_cards w;
     w_uuid := w_uuid w; w_uuid_next := w_uuid_next w |}.

Definition set_lark (l : list (option jsstring)) (c : list LarkCall) (w : World)
  : World :=
  {| w_now := w_now w; w_ticks := w_ticks w; w_env := w_env w; w_mem := w_mem w;
     w_kv := w_kv w; w_lark := l; w_cards := c;
     w_uuid := w_uuid w; w_uuid_next := w_uuid_next w |}.

Definition set_uuid_next (n : nat) (w : World) : World :=
  {| w_now := w_now w; w_ticks := w_ticks w; w_env := w_env w; w_mem := w_mem w;
     w_kv := w_kv w; w_lark := w_lark w; w_cards := w_cards w;
     w_uuid := w_uuid w; w_uuid_next := n |}.

(** ** A state and exception monad *)

Inductive Result (A : Type) : Type :=
  | Ok (a : A)
  | Throw (e : jsstring).
Arguments Ok {A} a.
Arguments Throw {A} e.

Definition M (A : Type) : Type := World -> Result A * World.

Definition ret {A} (a : A) : M A := fun w => (Ok a, w).

Definition bind {A B} (m : M A) (k : A -> M B) : M B :=
  fun w => match m w with
           | (Ok a, w') => k a w'
           | (Throw e, w') => (Throw e, w')
           end.

Definition throw {A} (e : jsstring) : M A := fun w => (Throw e, w).

(** [try { m } catch (error) { h(error) }]: effects of [m] stay. *)
Definition try_catch {A} (m : M A) (h : jsstring -> M A) : M A :=
  fun w => match m w with
           | (Ok a, w') => (Ok a, w')
           | (Throw e, w') => h e w'
           end.

Notation "'let*' x ':=' m 'in' k" := (bind m (fun x => k))
  (at level 10, x name, m at level 100, k at level 200).

Definition get_env : M Env := fun w => (Ok (w_env w), w).

(** The reading the clock gives next: the pending tick has elapsed. *)
Definition next_now (w : World) : Z :=
  match w_ticks w with
  | [] => w_now w
  | d :: _ => w_now w + Z.of_N d
  end.

(** [Date.now()] *)
Definition Date_now : M Z := fun w =>
  let t := next_now w in (Ok t, set_clock t (tl (w_ticks w)) w).

(** [randomUUID()] *)
Definition randomUUID : M jsstring := fun w =>
  (Ok (w_uuid w (w_uuid_next w)), set_uuid_next (S (w_uuid_next w)) w).

(** ** The volatile backend ([src/store/memory-store.ts]) *)

Definition get_mem : M MemoryState := fun w => (Ok (w_mem w), w).
Definition put_mem (m : MemoryState) : M unit := fun w => (Ok tt, set_mem m w).

(** The status a decision leads to in [MemoryStore.setDecision]. *)
Definition decided_status (d : Decision.t) : Status.t :=
  match d with
  | Decision.approve => Status.approved
  | Decision.message => Status.message
  | Decision.deny => Status.denied
  end.

Module MemoryStore.

(** [const timer = this.timers.get(id);
     if (timer) { clearTimeout(timer); this.timers.delete(id); }] *)
Definition clear_timer (id : jsstring) (tm : gmap jsstring Timer)
  : gmap jsstring Timer :=
  match tm !! id with
  | Some _ => base.delete id tm
  | None => tm
  end.

(** [this.store.set(id, stored)] after an in-place mutation of [stored]. *)
Definition write (id : jsstring) (r : StoredRequest) (m : MemoryState)
  : MemoryState :=
  {| store := <[id := r]> (store m); timers := timers m |}.

(** The delay [setTimeout] of Node applies: one below 1 or above
    [TIMEOUT_MAX] (2^31 - 1 milliseconds, about 24.8 days) is set to 1. *)
Definition TIMEOUT_MAX : Z := 2147483647.

Definition timeout_delay (delay : Z) : Z :=
  if ((delay <? 1) || (TIMEOUT_MAX <? delay))%bool then 1 else delay.

Definition set (id : jsstring) (data : StoredRequest) : M unit :=
  let* m := get_mem in
  let tm1 := match timers m !! id with
             | Some t => <[id := {| fires_at := fires_at t; cleared := true |}]>
                           (timers m)
             | None => timers m
             end in
  let st1 := <[id := data]> (store m) in
  let* now := Date_now in
  let ttlMs := expiresAt (request data) - now in
  let tm2 := if 0 <? ttlMs
             then <[id := {| fires_at := now + timeout_delay ttlMs;
                             cleared := false |}]> tm1
             else tm1 in
  put_mem {| store := st1; timers := tm2 |}.

Definition get (id : jsstring) : M (option StoredRequest) :=
  let* m := get_mem in
  match store m !! id with
  | None => ret None
  | Some stored =>
      if Status.eqb (status stored) Status.pending then
        let* now := Date_now in
        if expiresAt (request stored) <=? now then
          let stored' := with_status stored Status.expired in
          let* _ := put_mem (write id stored' m) in
          ret (Some stored')
        else ret (Some stored)
      else ret (Some stored)
  end.

Definition setDecision (id : jsstring) (d : Decision.t)
    (by_ : option jsstring) (msg : option jsstring) : M bool :=
  let* m := get_mem in
  match store m !! id with
  | None => ret false
  | Some stored =>
      if negb (Status.eqb (status stored) Status.pending) then ret false
      else
        let* now := Date_now in
        if expiresAt (request stored) <=? now then
          let* _ := put_mem (write id (with_status stored Status.expired) m) in
          ret false
        else
          let* at_ := Date_now in
          let stored' :=
            with_decision (with_status stored (decided_status d))
              {| d_requestId := id; d_decision := d; d_message := msg;
                 respondedAt := at_; respondedBy := by_ |} in
          let* _ := put_mem {| store := <[id := stored']> (store m);
                               timers := clear_timer id (timers m) |} in
          ret true
  end.

Definition setExpired (id : jsstring) : M bool :=
  let* m := get_mem in
  match store m !! id with
  | None => ret false
  | Some stored =>
      if negb (Status.eqb (status stored) Status.pending) then ret false
      else
        let* _ := put_mem
          {| store := <[id := with_status stored Status.expired]> (store m);
             timers := clear_timer id (timers m) |} in
        ret true
  end.

(** The callback of the one-shot timer armed by [set]. *)
Definition handleExpiration (id : jsstring) : M unit :=
  let* m := get_mem in
  let st := match store m !! id with
            | Some stored =>
                if Status.eqb (status stored) Status.pending
                then <[id := with_status stored Status.expired]> (store m)
                else store m
            | None => store m
            end in
  put_mem {| store := st; timers := base.delete id (timers m) |}.

Definition delete (id : jsstring) : M unit :=
  let* m := get_mem in
  put_mem {| store := base.delete id (store m);
             timers := clear_timer id (timers m) |}.

End MemoryStore.

(** ** The durable backend ([src/store/kv-store.ts]) *)

(** The Redis-compatible client.  The server reads the same clock as the
    handlers; a call is a round trip, during which time may pass. *)
Module kv.

(** [kv.get(key)]: [null] once the key is evicted. *)
Definition get (key : jsstring) : M (option StoredRequest) :=
  let* t := Date_now in
  fun w => match w_kv w !! key with
           | Some (v, deadline) =>
               if deadline <=? t then (Ok None, w) else (Ok (Some v), w)
           | None => (Ok None, w)
           end.

(** [kv.set(key, value, { ex })]: the key lives [ex] seconds from now. *)
Definition set (key : jsstring) (v : StoredRequest) (ex : Z) : M unit :=
  let* t := Date_now in
  fun w => (Ok tt, set_kv (<[key := (v, t + ex * 1000)]> (w_kv w)) w).

(** [kv.del(key)] *)
Definition del (key : jsstring) : M unit :=
  fun w => (Ok tt, set_kv (base.delete key (w_kv w)) w).

End kv.

(** [Math.ceil(ms / 1000)] on integer milliseconds. *)
Definition ceil_seconds (ms : Z) : Z := - ((- ms) / 1000).

Module KVStore.

Definition KEY_PREFIX : jsstring := str "claude-permission:".

Definition getKey (id : jsstring) : jsstring := KEY_PREFIX ++ id.

Definition set (id : jsstring) (data : StoredRequest) : M unit :=
  let key := getKey id in
  let* now := Date_now in
  let ttlMs := expiresAt (request data) - now in
  let ttlSeconds := Z.max 1 (ceil_seconds ttlMs) in
  kv.set key data ttlSeconds.

Definition get (id : jsstring) : M (option StoredRequest) :=
  kv.get (getKey id).

(** The record written by a decision: [{...stored, status, decision}]. *)
Definition updated (id : jsstring) (stored : StoredRequest) (d : Decision.t)
    (by_ : option jsstring) (at_ : Z) : StoredRequest :=
  with_decision
    (with_status stored
       (match d with
        | Decision.approve => Status.approved
        | _ => Status.denied
        end))
    {| d_requestId := id; d_decision := d; d_message := None;
       respondedAt := at_; respondedBy := by_ |}.

(** The [ex] of the write a decision performs, [now] being the reading of
    the clock in [ttlMs]. *)
Definition decision_ttl (stored : StoredRequest) (now : Z) : Z :=
  let ttlMs := expiresAt (request stored) - now in
  Z.max 60 (ceil_seconds ttlMs).

Definition setDecision (id : jsstring) (d : Decision.t)
    (by_ : option jsstring) : M bool :=
  let* o := get id in
  match o with
  | None => ret false
  | Some stored =>
      if negb (Status.eqb (status stored) Status.pending) then ret false
      else
        let* at_ := Date_now in
        let upd := updated id stored d by_ at_ in
        let key := getKey id in
        let* now := Date_now in
        let ttlSeconds := decision_ttl stored now in
        let* _ := kv.set key upd ttlSeconds in
        ret true
  end.

Definition setExpired (id : jsstring) : M bool :=
  let* o := get id in
  match o with
  | None => ret false
  | Some stored =>
      if negb (Status.eqb (status stored) Status.pending) then ret false
      else
        let upd := with_status stored Status.expired in
        let* _ := kv.set (getKey id) upd 60 in
        ret true
  end.

Definition delete (id : jsstring) : M unit := kv.del (getKey id).

End KVStore.

(** ** The store interface and its selection
    ([src/store/types.ts], [src/store/index.ts]) *)

Module RequestStore.
Record t : Type := {
  set : jsstring -> StoredRequest -> M unit;
  get : jsstring -> M (option StoredRequest);
  (** The callback passes a fourth argument, the message text; an
      implementation declared with three parameters drops it. *)
  setDecision : jsstring -> Decision.t -> option jsstring ->
                option jsstring -> M bool;
  setExpired : jsstring -> M bool;
  delete : jsstring -> M unit
}.
End RequestStore.

Definition getMemoryStore : RequestStore.t :=
  {| RequestStore.set := MemoryStore.set;
     RequestStore.get := MemoryStore.get;
     RequestStore.setDecision := MemoryStore.setDecision;
     RequestStore.setExpired := MemoryStore.setExpired;
     RequestStore.delete := MemoryStore.delete |}.

Definition createKVStore : RequestStore.t :=
  {| RequestStore.set := KVStore.set;
     RequestStore.get := KVStore.get;
     RequestStore.setDecision := fun id d by_ _ => KVStore.setDecision id d by_;
     RequestStore.setExpired := KVStore.setExpired;
     RequestStore.delete := KVStore.delete |}.

Definition uses_kv (e : Env) : bool :=
  (truthy (KV_REST_API_URL e) && truthy (KV_REST_API_TOKEN e)
   && kv_module_loads e)%bool.

Definition getStore : M RequestStore.t :=
  let* e := get_env in
  if uses_kv e then ret createKVStore else ret getMemoryStore.

(** ** HTTP responses *)

Inductive ToastType : Type := toast_warning | toast_error | toast_info | toast_success.

Inductive StatusOrNotFound : Type :=
  | known (s : Status.t)
  | not_found.

Record StatusResponse : Type := {
  sr_status : StatusOrNotFound;
  sr_decision : option Decision.t;
  sr_message : option jsstring;
  sr_respondedAt : option Z
}.

Inductive ApiData : Type :=
  | NotifyResponse (requestId : jsstring) (expiresAt : Z)
  | StatusData (r : StatusResponse).

(** The JSON bodies the handlers send. *)
Inductive Body : Type :=
  | ApiResponse (success : bool) (data : option ApiData) (error : option jsstring)
  | Toast (type : ToastType) (content : jsstring)
  | EmptyObject
  | ErrorObject (error : jsstring)
  | Challenge (challenge : jsstring).

(** [res.status(code).json(body)] *)
Record Response : Type := { code : Z; json : Body }.

Definition respond (c : Z) (b : Body) : M Response :=
  ret {| code := c; json := b |}.

Definition api_error (c : Z) (e : string) : M Response :=
  respond c (ApiResponse false None (Some (str e))).

(** ** The chat gateway ([src/lark/lark-client.ts]) *)

(** [createLarkClient()] throws when the configuration is incomplete. *)
Definition createLarkClient : M unit :=
  let* e := get_env in
  if (negb (truthy (LARK_APP_ID e)) || negb (truthy (LARK_APP_SECRET e))
      || negb (truthy (LARK_CHAT_ID e)))%bool
  then throw (str "Missing Lark configuration. Required: LARK_APP_ID, LARK_APP_SECRET, LARK_CHAT_ID")
  else ret tt.

(** One call to the chat platform: it is recorded, and answered by the next
    answer of the platform. *)
Definition lark_call (c : LarkCall) : M jsstring := fun w =>
  match w_lark w with
  | Some mid :: l => (Ok mid, set_lark l (c :: w_cards w) w)
  | None :: l => (Throw (str "Failed to reach Lark"), set_lark l (c :: w_cards w) w)
  | [] => (Throw (str "Failed to reach Lark"), set_lark [] (c :: w_cards w) w)
  end.

Definition sendPermissionRequest (r : PermissionRequest) : M jsstring :=
  lark_call (SendPermissionRequest r).

Definition updateWithDecision (mid : jsstring) (r : PermissionRequest)
    (d : Decision.t) (by_ : option jsstring) : M unit :=
  let* _ := lark_call (UpdateWithDecision mid r d by_) in ret tt.

Definition updateAsExpired (mid : jsstring) (r : PermissionRequest) : M unit :=
  let* _ := lark_call (UpdateAsExpired mid r) in ret tt.

(** ** Authentication of the agent-facing endpoints *)

(** The test of [verifyApiKey(req)] against the environment, [auth] being
    [req.headers.authorization]. *)
Definition api_key_ok (e : Env) (auth : option jsstring) : bool :=
  match LARK_API_KEY e with
  | Some (c :: k) =>
      match auth with
      | Some h =>
          if startsWith (str "Bearer ") h
          then streq (drop 7 h) (c :: k)
          else false
      | None => false
      end
  | _ => true
  end.

Definition verifyApiKey (auth : option jsstring) : M bool :=
  let* e := get_env in
  ret (api_key_ok e auth).

(** ** The create endpoint ([api/notify.ts]) *)

Definition DEFAULT_TIMEOUT : Z := 5 * 60 * 1000.

(** The request body; at run time any field may be absent. *)
Record NotifyRequest : Type := {
  n_tool : option jsstring;
  n_command : option jsstring;
  n_description : option jsstring;
  n_args : option Args;
  n_workingDirectory : option jsstring;
  n_project : option jsstring;
  n_riskLevel : option RiskLevel
}.

Record Request (B : Type) : Type := {
  method : jsstring;
  authorization : option jsstring;
  body : B
}.
Arguments method {B} _.
Arguments authorization {B} _.
Arguments body {B} _.

(** [req.body]: [undefined] for a request that carries no body, [null] for
    the JSON text [null], and otherwise a value with properties, read as [B]
    (a property a value does not have reads as absent). *)
Inductive Payload (B : Type) : Type :=
  | body_undefined
  | body_null
  | body_of (b : B).
Arguments body_undefined {B}.
Arguments body_null {B}.
Arguments body_of {B} b.

(** The message of the [TypeError] that reading the property [prop] of
    [undefined] or [null] throws (in the words of Node's engine). *)
Definition cannot_read (of_null : bool) (prop : string) : jsstring :=
  str "Cannot read properties of "
  ++ (if of_null then str "null" else str "undefined")
  ++ str " (reading '" ++ str prop ++ str "')".

(** The first property access on the body, [body.prop]: it throws when
    there is no body. *)
Definition read_body {B} (p : Payload B) (prop : string) : M B :=
  match p with
  | body_of b => ret b
  | body_undefined => throw (cannot_read false prop)
  | body_null => throw (cannot_read true prop)
  end.

(** The fields of the body of a create request, all absent when there is no
    body. *)
Definition fields (req : Request (Payload NotifyRequest)) : NotifyRequest :=
  match body req with
  | body_of b => b
  | _ => {| n_tool := None; n_command := None; n_description := None;
            n_args := None; n_workingDirectory := None; n_project := None;
            n_riskLevel := None |}
  end.

Definition unwrap (o : option jsstring) : jsstring :=
  match o with
  | Some s => s
  | None => []
  end.

Module Notify.

Definition handler (req : Request (Payload NotifyRequest)) : M Response :=
  if negb (streq (method req) (str "POST")) then
    api_error 405 "Method not allowed"
  else
    let* authed := verifyApiKey (authorization req) in
    if negb authed then api_error 401 "Unauthorized"
    else
      try_catch
        (let* b := read_body (body req) "tool" in
         if (negb (truthy (n_tool b)) || negb (truthy (n_workingDirectory b)))%bool
         then api_error 400 "Missing required fields: tool, workingDirectory"
         else
           let* requestId := randomUUID in
           let* now := Date_now in
           let* e := get_env in
           let timeout := match LARK_TIMEOUT e with
                          | Some 0 | None => DEFAULT_TIMEOUT
                          | Some t => t
                          end in
           let expiresAt := now + timeout in
           let riskLevel :=
             match n_riskLevel b with
             | Some r => r
             | None => determineRiskLevel (unwrap (n_tool b)) (n_command b)
             end in
           let project :=
             unwrap (or_else (or_else (n_project b)
                                (Some (split_slash_pop (unwrap (n_workingDirectory b)))))
                       (Some (str "Unknown"))) in
           let permissionRequest :=
             {| requestId := requestId;
                tool := unwrap (n_tool b);
                command := n_command b;
                description := None;
                args := n_args b;
                workingDirectory := unwrap (n_workingDirectory b);
                project := project;
                riskLevel := riskLevel;
                timestamp := now;
                expiresAt := expiresAt |} in
           let* store := getStore in
           let* _ := createLarkClient in
           let* messageId := sendPermissionRequest permissionRequest in
           let storedRequest :=
             {| request := permissionRequest;
                status := Status.pending;
                decision := None;
                larkMessageId := Some messageId;
                createdAt := now |} in
           let* _ := RequestStore.set store requestId storedRequest in
           respond 200
             (ApiResponse true (Some (NotifyResponse requestId expiresAt)) None))
        (fun error => respond 500 (ApiResponse false None (Some error))).

End Notify.

(** ** The poll endpoint ([api/status/[id].ts]) *)

(** [req.query.id]: absent, a string, or an array of strings. *)
Inductive QueryParam : Type :=
  | q_absent
  | q_string (s : jsstring)
  | q_array (l : list jsstring).

Module StatusApi.

Definition handler (req : Request QueryParam) : M Response :=
  if negb (streq (method req) (str "GET")) then
    api_error 405 "Method not allowed"
  else
    let* authed := verifyApiKey (authorization req) in
    if negb authed then api_error 401 "Unauthorized"
    else
      try_catch
        (match body req with
         | q_string (c :: s) =>
             let id := c :: s in
             let* store := getStore in
             let* o := RequestStore.get store id in
             match o with
             | None =>
                 respond 200
                   (ApiResponse true
                      (Some (StatusData {| sr_status := not_found;
                                           sr_decision := None;
                                           sr_message := None;
                                           sr_respondedAt := None |})) None)
             | Some stored =>
                 let* due :=
                   (if Status.eqb (status stored) Status.pending then
                      let* now := Date_now in
                      ret (expiresAt (request stored) <=? now)
                    else ret false) in
                 if due then
                   let* _ := RequestStore.setExpired store id in
                   respond 200
                     (ApiResponse true
                        (Some (StatusData {| sr_status := known Status.expired;
                                             sr_decision := None;
                                             sr_message := None;
                                             sr_respondedAt := None |})) None)
                 else
                   let response :=
                     match decision stored with
                     | Some d =>
                         {| sr_status := known (status stored);
                            sr_decision := Some (d_decision d);
                            sr_message := if truthy (d_message d)
                                          then d_message d else None;
                            sr_respondedAt := Some (respondedAt d) |}
                     | None =>
                         {| sr_status := known (status stored);
                            sr_decision := None;
                            sr_message := None;
                            sr_respondedAt := None |}
                     end in
                   respond 200 (ApiResponse true (Some (StatusData response)) None)
             end
         | _ => api_error 400 "Missing request ID"
         end)
        (fun error => respond 500 (ApiResponse false None (Some error))).

End StatusApi.

(** ** The callback endpoint ([api/lark/callback.ts]) *)

(** A JSON value where the interface says [string]: nothing ([undefined],
    [null] or a property that is not there), a string, or a value of another
    type (a number, a boolean, an array, an object), of which the code only
    tests the truthiness. *)
Inductive JsText : Type :=
  | text_absent
  | text_string (s : jsstring)
  | text_other (is_truthy : bool).

Definition text_truthy (t : JsText) : bool :=
  match t with
  | text_string (_ :: _) => true
  | text_other b => b
  | _ => false
  end.

(** [a || b] *)
Definition text_or (a b : JsText) : JsText :=
  if text_truthy a then a else b.

Definition text_of (o : option jsstring) : JsText :=
  match o with
  | Some s => text_string s
  | None => text_absent
  end.

(** The body of a callback as far as the handler looks into it: every
    property may be missing, at every level. *)
Record ActionValue : Type := {
  av_requestId : option jsstring;
  av_decision : option jsstring
}.

Record CardAction : Type := {
  ca_value : option ActionValue;
  ca_input_value : JsText;
  ca_form_value : option (gmap jsstring JsText)
}.

Record CardOperator : Type := { op_open_id : option jsstring }.

Record CardEvent : Type := {
  ev_action : option CardAction;
  ev_operator : option CardOperator
}.

Record CardHeader : Type := {
  hd_event_type : option jsstring;
  hd_token : option jsstring
}.

Record CallbackObject : Type := {
  cb_type : option jsstring;
  cb_challenge : option jsstring;
  cb_token : option jsstring;
  cb_header : option CardHeader;
  cb_event : option CardEvent
}.

Definition CallbackBody : Type := Payload CallbackObject.

(** [o === s] for a possibly absent string [o] *)
Definition is_string (o : option jsstring) (s : jsstring) : bool :=
  match o with
  | Some t => streq t s
  | None => false
  end.

(** The value of a property that the code goes on to read a property of, or
    to destructure: a [TypeError] when it is missing. *)
Definition required {A} (o : option A) (error : jsstring) : M A :=
  match o with
  | Some a => ret a
  | None => throw error
  end.

Definition cannot_destructure (prop of_ : string) : jsstring :=
  str "Cannot destructure property '" ++ str prop ++ str "' of '" ++ str of_
  ++ str "' as it is undefined.".

(** *** Bodies of the shapes the platform sends *)

(** A handshake, [{ type: 'url_verification', challenge, token }]. *)
Record LarkUrlVerification : Type := {
  uv_challenge : jsstring;
  uv_token : jsstring
}.

(** A complete card event, by the fields of [LarkCardCallback] the handler
    reads: [header.event_type], [header.token], [event.operator.open_id],
    [event.action.value], [event.action.input_value] and
    [event.action.form_value]. *)
Record LarkCardCallback : Type := {
  event_type : jsstring;
  header_token : jsstring;
  operator_open_id : jsstring;
  value_requestId : option jsstring;
  value_decision : option jsstring;
  input_value : option jsstring;
  form_value : option (gmap jsstring jsstring)
}.

Definition url_verification (v : LarkUrlVerification) : CallbackBody :=
  body_of {| cb_type := Some (str "url_verification");
             cb_challenge := Some (uv_challenge v);
             cb_token := Some (uv_token v);
             cb_header := None; cb_event := None |}.

Definition operator_of (c : LarkCardCallback) : option CardOperator :=
  Some {| op_open_id := Some (operator_open_id c) |}.

Definition action_of (c : LarkCardCallback) : CardAction :=
  {| ca_value := Some {| av_requestId := value_requestId c;
                         av_decision := value_decision c |};
     ca_input_value := text_of (input_value c);
     ca_form_value := match form_value c with
                      | Some f => Some (text_string <$> f)
                      | None => None
                      end |}.

Definition card_object (c : LarkCardCallback) : CallbackObject :=
  {| cb_type := None; cb_challenge := None; cb_token := None;
     cb_header := Some {| hd_event_type := Some (event_type c);
                          hd_token := Some (header_token c) |};
     cb_event := Some {| ev_action := Some (action_of c);
                         ev_operator := operator_of c |} |}.

Definition with_header (c : LarkCardCallback) : CallbackBody :=
  body_of (card_object c).

(** An object that is neither. *)
Definition other_body : CallbackBody :=
  body_of {| cb_type := None; cb_challenge := None; cb_token := None;
             cb_header := None; cb_event := None |}.

Definition parse_decision (s : jsstring) : option Decision.t :=
  if streq s (str "approve") then Some Decision.approve
  else if streq s (str "deny") then Some Decision.deny
  else if streq s (str "message") then Some Decision.message
  else None.

(** [action.form_value?.user_message || action.input_value] *)
Definition user_message (a : CardAction) : JsText :=
  text_or (match ca_form_value a with
           | Some f => match f !! str "user_message" with
                       | Some t => t
                       | None => text_absent
                       end
           | None => text_absent
           end)
          (ca_input_value a).

(** The same, of a complete card event. *)
Definition submitted_text (c : LarkCardCallback) : option jsstring :=
  or_else (match form_value c with
           | Some f => f !! str "user_message"
           | None => None
           end)
          (input_value c).

(** [!userMessage || userMessage.trim() === ''] *)
Definition blank (o : option jsstring) : bool :=
  (negb (truthy o) || streq (trim (unwrap o)) [])%bool.

Module Callback.

Definition handleUrlVerification (b : CallbackObject) : M Response :=
  let* e := get_env in
  if (truthy (LARK_VERIFICATION_TOKEN e)
      && negb (is_string (cb_token b) (unwrap (LARK_VERIFICATION_TOKEN e))))%bool
  then respond 401 (ErrorObject (str "Invalid verification token"))
  else respond 200 (match cb_challenge b with
                    | Some c => Challenge c
                    | None => EmptyObject
                    end).

(** [verifyEventToken] of [src/lark/signature.ts] *)
Definition verifyEventToken (eventToken verificationToken : jsstring) : bool :=
  streq eventToken verificationToken.

(** The part of [handleCardAction] inside [try]; [operator.open_id] is read
    there, when the decision is handed to the store. *)
Definition process (requestId : jsstring) (d : Decision.t)
    (operator : option CardOperator) (userMessage : option jsstring)
  : M Response :=
  let* store := getStore in
  let* o := RequestStore.get store requestId in
  match o with
  | None =>
      respond 200 (Toast toast_error (str "Request not found or already processed"))
  | Some stored =>
      if negb (Status.eqb (status stored) Status.pending) then
        respond 200
          (Toast toast_info (str "Request already " ++ Status.to_string (status stored)))
      else
        let* now := Date_now in
        if expiresAt (request stored) <=? now then
          let* _ := RequestStore.setExpired store requestId in
          let* _ := (if truthy (larkMessageId stored) then
                       let* _ := createLarkClient in
                       updateAsExpired (unwrap (larkMessageId stored)) (request stored)
                     else ret tt) in
          respond 200 (Toast toast_error (str "Request has expired"))
        else
          let* op := required operator (cannot_read false "open_id") in
          let* success :=
            RequestStore.setDecision store requestId d (op_open_id op) userMessage in
          if negb success then
            respond 200 (Toast toast_error (str "Failed to process decision"))
          else
            let* _ := (if truthy (larkMessageId stored) then
                         let* _ := createLarkClient in
                         updateWithDecision (unwrap (larkMessageId stored))
                           (request stored) d (op_open_id op)
                       else ret tt) in
            match d with
            | Decision.approve =>
                respond 200 (Toast toast_success (str "Approved successfully"))
            | Decision.message =>
                respond 200 (Toast toast_success (str "Message sent successfully"))
            | Decision.deny =>
                respond 200 (Toast toast_info (str "Denied successfully"))
            end
  end.

Definition handleCardAction (b : CallbackObject) : M Response :=
  let* e := get_env in
  let* refused :=
    (if truthy (LARK_VERIFICATION_TOKEN e) then
       let* h := required (cb_header b) (cannot_read false "token") in
       ret (negb (match hd_token h with
                  | Some t => verifyEventToken t (unwrap (LARK_VERIFICATION_TOKEN e))
                  | None => false
                  end))
     else ret false) in
  if refused then respond 401 (ErrorObject (str "Invalid event token"))
  else
    let* ev := required (cb_event b) (cannot_destructure "action" "body.event") in
    let* action := required (ev_action ev) (cannot_read false "value") in
    let* v := required (ca_value action)
                (cannot_destructure "requestId" "action.value") in
    if (negb (truthy (av_requestId v)) || negb (truthy (av_decision v)))%bool
    then respond 200 EmptyObject
    else
      match parse_decision (unwrap (av_decision v)) with
      | None => respond 400 (ErrorObject (str "Invalid decision"))
      | Some d =>
          let requestId := unwrap (av_requestId v) in
          let run (userMessage : option jsstring) : M Response :=
            try_catch (process requestId d (ev_operator ev) userMessage)
              (fun _ => respond 200
                          (Toast toast_error (str "Failed to process action"))) in
          match d with
          | Decision.message =>
              match user_message action with
              | text_string s =>
                  if blank (Some s) then
                    respond 200 (Toast toast_warning (str "Please enter a message"))
                  else run (Some (trim s))
              | text_other true => throw (str "userMessage.trim is not a function")
              | _ => respond 200 (Toast toast_warning (str "Please enter a message"))
              end
          | _ => run None
          end
      end.

Definition handler (req : Request CallbackBody) : M Response :=
  if negb (streq (method req) (str "POST")) then
    respond 405 (ErrorObject (str "Method not allowed"))
  else
    try_catch
      (let* b := read_body (body req) "type" in
       if is_string (cb_type b) (str "url_verification")
       then handleUrlVerification b
       else if match cb_header b with
               | Some h => is_string (hd_event_type h) (str "card.action.trigger")
               | None => false
               end
       then handleCardAction b
       else respond 200 EmptyObject)
      (fun _ => respond 500 (ErrorObject (str "Internal server error"))).

End Callback.

(** What [handleCardAction] comes to on a complete card event, its property
    reads resolved (lemma [handleCardAction_complete]). *)
Definition complete_card_action (c : LarkCardCallback) : M Response :=
  let* e := get_env in
  if (truthy (LARK_VERIFICATION_TOKEN e)
      && negb (Callback.verifyEventToken (header_token c)
                 (unwrap (LARK_VERIFICATION_TOKEN e))))%bool
  then respond 401 (ErrorObject (str "Invalid event token"))
  else if (negb (truthy (value_requestId c)) || negb (truthy (value_decision c)))%bool
  then respond 200 EmptyObject
  else
    match parse_decision (unwrap (value_decision c)) with
    | None => respond 400 (ErrorObject (str "Invalid decision"))
    | Some d =>
        let requestId := unwrap (value_requestId c) in
        let run (userMessage : option jsstring) : M Response :=
          try_catch (Callback.process requestId d (operator_of c) userMessage)
            (fun _ => respond 200 (Toast toast_error (str "Failed to process action"))) in
        match d with
        | Decision.message =>
            let userMessage := submitted_text c in
            if blank userMessage then
              respond 200 (Toast toast_warning (str "Please enter a message"))
            else run (Some (trim (unwrap userMessage)))
        | _ => run None
        end
    end.

(** ** Sequences of store operations *)

(** The operations that change a status: [setDecision], [setExpired] and, in
    the volatile backend, the firing of the expiry timer. *)
Inductive StoreOp : Type :=
  | op_setDecision (id : jsstring) (d : Decision.t) (by_ msg : option jsstring)
  | op_setExpired (id : jsstring)
  | op_timer (id : jsstring).

Definition op_target (o : StoreOp) : jsstring :=
  match o with
  | op_setDecision id _ _ _ => id
  | op_setExpired id => id
  | op_timer id => id
  end.

(** What an operation returns: a boolean, or nothing for the timer. *)
Definition mem_op (o : StoreOp) : M (option bool) :=
  match o with
  | op_setDecision id d by_ msg =>
      let* b := MemoryStore.setDecision id d by_ msg in ret (Some b)
  | op_setExpired id =>
      let* b := MemoryStore.setExpired id in ret (Some b)
  | op_timer id =>
      let* _ := MemoryStore.handleExpiration id in ret None
  end.

(** The durable backend arms no timer: there the firing does nothing. *)
Definition kv_op (o : StoreOp) : M (option bool) :=
  match o with
  | op_setDecision id d by_ msg =>
      let* b := RequestStore.setDecision createKVStore id d by_ msg in ret (Some b)
  | op_setExpired id =>
      let* b := KVStore.setExpired id in ret (Some b)
  | op_timer _ => ret None
  end.

Fixpoint run {A B} (f : A -> M B) (l : list A) : M (list B) :=
  match l with
  | [] => ret []
  | a :: l' =>
      let* b := f a in
      let* bs := run f l' in
      ret (b :: bs)
  end.

(** An operation aimed at [id] was refused: [setDecision] and [setExpired]
    returned false (the timer callback returns nothing). *)
Definition refused (id : jsstring) (o : StoreOp) (res : option bool) : Prop :=
  op_target o = id ->
  res = match o with
        | op_timer _ => None
        | _ => Some false
        end.

(** ** Sample data *)

Definition env_memory : Env :=
  {| LARK_API_KEY := None; LARK_VERIFICATION_TOKEN := None; LARK_TIMEOUT := None;
     KV_REST_API_URL := None; KV_REST_API_TOKEN := None; kv_module_loads := false;
     LARK_APP_ID := Some (str "app"); LARK_APP_SECRET := Some (str "secret");
     LARK_CHAT_ID := Some (str "chat") |}.

Definition env_kv : Env :=
  {| LARK_API_KEY := None; LARK_VERIFICATION_TOKEN := None; LARK_TIMEOUT := None;
     KV_REST_API_URL := Some (str "https://kv.example");
     KV_REST_API_TOKEN := Some (str "token"); kv_module_loads := true;
     LARK_APP_ID := Some (str "app"); LARK_APP_SECRET := Some (str "secret");
     LARK_CHAT_ID := Some (str "chat") |}.

(** A fresh process at instant [t]: nothing stored, nothing sent. *)
Definition fresh_world (e : Env) (t : Z) (ticks : list N)
    (lark : list (option jsstring)) : World :=
  {| w_now := t; w_ticks := ticks; w_env := e;
     w_mem := {| store := ∅; timers := ∅ |}; w_kv := ∅;
     w_lark := lark; w_cards := [];
     w_uuid := fun n => repeat 120%N (S n); w_uuid_next := 0 |}.

Definition sample_request (id : jsstring) (exp : Z) : PermissionRequest :=
  {| requestId := id; tool := str "Bash"; command := Some (str "ls -la");
     description := None; args := None; workingDirectory := str "/home/dev/app";
     project := str "app"; riskLevel := medium; timestamp := 0; expiresAt := exp |}.

Definition sample_stored (id : jsstring) (exp : Z) : StoredRequest :=
  {| request := sample_request id exp; status := Status.pending; decision := None;
     larkMessageId := None; createdAt := 0 |}.

Definition id0 : jsstring := str "r1".

(** ** Repeated decisions *)

(** A later [setDecision] call on the same id: its decision, responder and
    message text. *)
Record DecisionCall : Type := {
  call_decision : Decision.t;
  call_by : option jsstring;
  call_message : option jsstring
}.

Definition mem_setDecision_call (id : jsstring) (c : DecisionCall) : M bool :=
  MemoryStore.setDecision id (call_decision c) (call_by c) (call_message c).

Definition kv_setDecision_call (id : jsstring) (c : DecisionCall) : M bool :=
  RequestStore.setDecision createKVStore id
    (call_decision c) (call_by c) (call_message c).

(** The world once the pending tick has elapsed. *)
Definition tick (w : World) : World :=
  set_clock (next_now w) (tl (w_ticks w)) w.

(** ** Scenarios in the durable backend *)

(** A request created at instant 500 that expires at instant 1000: the
    store keeps its key for one second, until 1500.  The next reading of the
    clock is 1000. *)
Definition kv_lapsed_world : World :=
  snd (KVStore.set id0 (sample_stored id0 1000)
         (fresh_world env_kv 0 [500; 0; 500; 0; 0; 0]%N [])).

(** The same history in the volatile backend. *)
Definition mem_lapsed_world : World :=
  snd (MemoryStore.set id0 (sample_stored id0 1000)
         (fresh_world env_memory 0 [500; 500; 0; 0]%N [])).

(** A request created at instant 0 with the default five minutes to live. *)
Definition kv_pending_world : World :=
  snd (KVStore.set id0 (sample_stored id0 300000) (fresh_world env_kv 0 [] [])).

Definition mem_pending_world : World :=
  snd (MemoryStore.set id0 (sample_stored id0 300000)
         (fresh_world env_memory 0 [] [])).

(** The card action of a user who typed "  retry with sudo  " in the form. *)
Definition message_action (text : option jsstring) : LarkCardCallback :=
  {| event_type := str "card.action.trigger";
     header_token := str "t";
     operator_open_id := str "ou_1";
     value_requestId := Some id0;
     value_decision := Some (str "message");
     input_value := text;
     form_value := None |}.

Definition callback_request (c : LarkCardCallback) : Request CallbackBody :=
  {| method := str "POST"; authorization := None; body := with_header c |}.

(** The record a store holds under [id], if any. *)
Definition kv_record (id : jsstring) (w : World) : option StoredRequest :=
  fst <$> w_kv w !! KVStore.getKey id.

Definition mem_record (id : jsstring) (w : World) : option StoredRequest :=
  store (w_mem w) !! id.

(** ** Validation, in the words of the specification *)

(** A text payload that is absent, empty or made of white space only. *)
Definition text_missing (o : option jsstring) : Prop :=
  o = None \/ exists s, o = Some s /\ Forall (fun c => is_space c = true) s.

(** The event passes the token gate of [handleCardAction]: no verification
    token is configured, or the event carries it. *)
Definition token_accepted (e : Env) (c : LarkCardCallback) : Prop :=
  truthy (LARK_VERIFICATION_TOKEN e) = false \/
  LARK_VERIFICATION_TOKEN e = Some (header_token c).

(** A required field of the create request is missing ([undefined] or ['']). *)
Definition required_missing (b : NotifyRequest) : Prop :=
  truthy (n_tool b) = false \/ truthy (n_workingDirectory b) = false.

(** ** Specifications of computations *)

(** [triple P m Q E]: run from a world satisfying [P], [m] either returns
    [a] in a world satisfying [Q a], or throws in a world satisfying [E]. *)
Definition triple {A} (P : World -> Prop) (m : M A)
    (Q : A -> World -> Prop) (E : World -> Prop) : Prop :=
  forall w, P w ->
    match m w with
    | (Ok a, w') => Q a w'
    | (Throw _, w') => E w'
    end.

(** [keeps I m R]: [m] maintains the invariant [I], whether it returns or
    throws, and what it returns satisfies [R]. *)
Definition keeps {A} (I : World -> Prop) (m : M A) (R : A -> Prop) : Prop :=
  triple I m (fun a w => I w /\ R a) I.

(** ** The description of stored requests *)

(** The request a call to the gateway carries. *)
Definition card_request (c : LarkCall) : PermissionRequest :=
  match c with
  | SendPermissionRequest r => r
  | UpdateWithDecision _ r _ _ => r
  | UpdateAsExpired _ r => r
  end.

Definition undescribed (r : StoredRequest) : Prop :=
  description (request r) = None.

(** No record of either backend and no card sent carries a description. *)
Definition no_description (w : World) : Prop :=
  (forall id r, store (w_mem w) !! id = Some r -> undescribed r) /\
  (forall key r dl, w_kv w !! key = Some (r, dl) -> undescribed r) /\
  (forall c, In c (w_cards w) -> description (card_request c) = None).

(** A record handed out by a store, if any, carries no description. *)
Definition undescribed_opt (o : option StoredRequest) : Prop :=
  forall r, o = Some r -> undescribed r.

(** The store [getStore] selects is one of the two backends. *)
Definition a_backend (s : RequestStore.t) : Prop :=
  s = createKVStore \/ s = getMemoryStore.

(** What happens to a deployment: requests to the three endpoints, and
    expiry timers of the volatile store that fire. *)
Inductive Invocation : Type :=
  | call_notify (req : Request (Payload NotifyRequest))
  | call_status (req : Request QueryParam)
  | call_callback (req : Request CallbackBody)
  | timer_fires (id : jsstring).

Definition invoke (i : Invocation) (w : World) : World :=
  match i with
  | call_notify req => snd (Notify.handler req w)
  | call_status req => snd (StatusApi.handler req w)
  | call_callback req => snd (Callback.handler req w)
  | timer_fires id => snd (MemoryStore.handleExpiration id w)
  end.

Definition invoke_all (l : list Invocation) (w : World) : World :=
  fold_left (fun w i => invoke i w) l w.

(** The record the selected backend holds under [id]. *)
Definition stored_record (id : jsstring) (w : World) : option StoredRequest :=
  if uses_kv (w_env w) then kv_record id w else mem_record id w.

(** ** Touching a request *)

(** The ways of touching a request: a [get] on the selected store, a poll,
    and a card action. *)
Inductive Touch : Type :=
  | touch_get
  | touch_poll (auth : option jsstring)
  | touch_callback (c : LarkCardCallback).

Definition poll_request (id : jsstring) (auth : option jsstring)
  : Request QueryParam :=
  {| method := str "GET"; authorization := auth; body := q_string id |}.

(** The status a poll response reports. *)
Definition reported_status (resp : Response) : option Status.t :=
  match json resp with
  | ApiResponse true (Some (StatusData sr)) _ =>
      match sr_status sr with
      | known s => Some s
      | not_found => None
      end
  | _ => None
  end.

(** The record a reader would find under [id] now: in the durable backend a
    key past its deadline is gone. *)
Definition held_record (id : jsstring) (w : World) : option StoredRequest :=
  if uses_kv (w_env w) then
    match w_kv w !! KVStore.getKey id with
    | Some (r, deadline) => if deadline <=? w_now w then None else Some r
    | None => None
    end
  else mem_record id w.

(** What a touch yields: the status of the record returned by [get], the
    status reported by the poll, the status the request is left in by the
    card action. *)
Definition touch (id : jsstring) (t : Touch) : M (option Status.t) :=
  match t with
  | touch_get =>
      let* s := getStore in
      let* o := RequestStore.get s id in
      ret (status <$> o)
  | touch_poll auth =>
      let* resp := StatusApi.handler (poll_request id auth) in
      ret (reported_status resp)
  | touch_callback c =>
      let* _ := Callback.handler (callback_request c) in
      fun w => (Ok (status <$> held_record id w), w)
  end.

(** A card action that gets as far as the store, for the request [id]. *)
Definition reaches_store (e : Env) (id : jsstring) (c : LarkCardCallback) : Prop :=
  event_type c = str "card.action.trigger" /\
  token_accepted e c /\
  value_requestId c = Some id /\
  exists d : Decision.t,
    value_decision c = Some (Decision.to_string d) /\
    (d = Decision.message -> blank (submitted_text c) = false).

(** A touch that gets as far as the store: the poll carries the API key, the
    card action passes the gates of the callback. *)
Definition valid_touch (e : Env) (id : jsstring) (t : Touch) : Prop :=
  match t with
  | touch_get => True
  | touch_poll auth => api_key_ok e auth = true
  | touch_callback c => reaches_store e id c
  end.

Definition is_touch_get (t : Touch) : Prop :=
  match t with
  | touch_get => True
  | _ => False
  end.

(** A request without a decision: still [pending], or already [expired]. *)
Definition undecided (r : StoredRequest) : Prop :=
  status r = Status.pending \/ status r = Status.expired.

(** The volatile store holds, under [id], an undecided request whose
    [expiresAt] has passed. *)
Definition mem_lapsed (e : Env) (id : jsstring) (w : World) : Prop :=
  w_env w = e /\
  exists r, store (w_mem w) !! id = Some r /\ undecided r /\
            expiresAt (request r) <= w_now w.

(** Whatever the durable store holds under [id] is an undecided request
    whose [expiresAt] has passed. *)
Definition kv_lapsed (e : Env) (id : jsstring) (w : World) : Prop :=
  w_env w = e /\
  forall r dl, w_kv w !! KVStore.getKey id = Some (r, dl) ->
               undecided r /\ expiresAt (request r) <= w_now w.

(** The volatile store holds the request under [id] as [expired]. *)
Definition mem_expired (e : Env) (id : jsstring) (w : World) : Prop :=
  w_env w = e /\
  exists r, store (w_mem w) !! id = Some r /\ status r = Status.expired /\
            expiresAt (request r) <= w_now w.

(** Whatever the durable store still holds under [id] is [expired]. *)
Definition kv_settled (id : jsstring) (w : World) : Prop :=
  forall r dl, w_kv w !! KVStore.getKey id = Some (r, dl) ->
               w_now w < dl -> status r = Status.expired.

(** Two worlds that differ at most in the exchange with the gateway. *)
Definition same_stores (w w' : World) : Prop :=
  w_env w' = w_env w /\ w_kv w' = w_kv w /\ w_mem w' = w_mem w /\
  w_now w' = w_now w.

(** ** Further sample data *)

(** The card action of a user who pressed the button of decision [d]. *)
Definition button_action (d : Decision.t) : LarkCardCallback :=
  {| event_type := str "card.action.trigger";
     header_token := str "t";
     operator_open_id := str "ou_1";
     value_requestId := Some id0;
     value_decision := Some (Decision.to_string d);
     input_value := None;
     form_value := None |}.

(** The volatile and the durable world of the lapsed request, at instant
    1000. *)
Definition mem_due_world : World := set_clock 1000 [] mem_lapsed_world.
Definition kv_due_world : World := set_clock 1000 [] kv_lapsed_world.

Definition sample_touches : list Touch :=
  [touch_get; touch_poll None; touch_callback (button_action Decision.approve);
   touch_poll None; touch_get].

(** The five-minute request once approved at instant 0. *)
Definition sample_decided : StoredRequest :=
  with_decision (with_status (sample_stored id0 300000) Status.approved)
    {| d_requestId := id0; d_decision := Decision.approve; d_message := None;
       respondedAt := 0; respondedBy := None |}.

Definition mem_decided_world : World :=
  snd (MemoryStore.setDecision id0 Decision.approve None None mem_pending_world).

Definition sample_ops : list StoreOp :=
  [op_setDecision id0 Decision.deny None None; op_setExpired id0; op_timer id0;
   op_setDecision id0 Decision.message None (Some (str "late"))].

Definition sample_calls : list DecisionCall :=
  [ {| call_decision := Decision.deny; call_by := None; call_message := None |};
    {| call_decision := Decision.message; call_by := None;
       call_message := Some (str "again") |} ].

(** A create request that carries a description, and one without a tool. *)
Definition sample_create : Request (Payload NotifyRequest) :=
  {| method := str "POST"; authorization := None;
     body := body_of
             {| n_tool := Some (str "Bash");
                n_command := Some (str "ls -la");
                n_description := Some (str "list the files");
                n_args := None;
                n_workingDirectory := Some (str "/home/dev/app");
                n_project := None;
                n_riskLevel := None |} |}.

Definition sample_create_no_tool : Request (Payload NotifyRequest) :=
  {| method := str "POST"; authorization := None;
     body := body_of
             {| n_tool := None;
                n_command := Some (str "ls -la");
                n_description := None;
                n_args := None;
                n_workingDirectory := Some (str "/home/dev/app");
                n_project := None;
                n_riskLevel := None |} |}.

Definition sample_history : list Invocation :=
  [call_notify sample_create;
   call_status (poll_request (str "x") None);
   call_callback (callback_request (button_action Decision.approve))].

(** ** Calls to the volatile store *)

(** The methods of [MemoryStore], and the firing of a timer it armed. *)
Inductive MemCall : Type :=
  | m_set (id : jsstring) (data : StoredRequest)
  | m_get (id : jsstring)
  | m_setDecision (id : jsstring) (d : Decision.t) (by_ msg : option jsstring)
  | m_setExpired (id : jsstring)
  | m_delete (id : jsstring)
  | m_timer (id : jsstring).

Definition mem_call (c : MemCall) : M unit :=
  match c with
  | m_set id data => MemoryStore.set id data
  | m_get id => let* _ := MemoryStore.get id in ret tt
  | m_setDecision id d by_ msg =>
      let* _ := MemoryStore.setDecision id d by_ msg in ret tt
  | m_setExpired id => let* _ := MemoryStore.setExpired id in ret tt
  | m_delete id => MemoryStore.delete id
  | m_timer id => MemoryStore.handleExpiration id
  end.

(** Every timer handle the store keeps belongs to a request it holds. *)
Definition timers_tracked (m : MemoryState) : Prop :=
  forall id t, timers m !! id = Some t -> is_Some (store m !! id).

Definition sample_mem_calls : list MemCall :=
  [m_set id0 (sample_stored id0 300000); m_get id0;
   m_set (str "r2") (sample_stored (str "r2") 1000);
   m_setDecision id0 Decision.approve None None;
   m_timer (str "r2"); m_delete id0; m_setExpired (str "r2")].

(** ** The lifecycle as a step relation *)

(** The ways the stores rewrite a pending record: [expired] by [get],
    [setDecision], [setExpired] and the timer; decided by
    [MemoryStore.setDecision]; decided by [KVStore.setDecision]. *)
Inductive transition (id : jsstring) (r : StoredRequest) : StoredRequest -> Prop :=
  | t_expire : transition id r (with_status r Status.expired)
  | t_decide (d : Decision.t) (by_ msg : option jsstring) (at_ : Z) :
      transition id r
        (with_decision (with_status r (decided_status d))
           {| d_requestId := id; d_decision := d; d_message := msg;
              respondedAt := at_; respondedBy := by_ |})
  | t_kv_decide (d : Decision.t) (by_ : option jsstring) (at_ : Z) :
      transition id r (KVStore.updated id r d by_ at_).

(** From [w] to [w'] the records of the two stores are the same, but for a
    pending record under [id] that was rewritten by a transition. *)
Definition record_step (id : jsstring) (w w' : World) : Prop :=
  (store (w_mem w') = store (w_mem w) \/
   exists r r', store (w_mem w) !! id = Some r /\ status r = Status.pending /\
                transition id r r' /\
                store (w_mem w') = <[id := r']> (store (w_mem w))) /\
  (w_kv w' = w_kv w \/
   exists r dl r' dl', w_kv w !! KVStore.getKey id = Some (r, dl) /\
                       status r = Status.pending /\ transition id r r' /\
                       w_kv w' = <[KVStore.getKey id := (r', dl')]> (w_kv w)).

Definition settles (w w' : World) : Prop := exists id, record_step id w w'.

(** From [w] to [w'] one store received a new pending record without
    decision. *)
Definition create_step (w w' : World) : Prop :=
  exists id data,
    status data = Status.pending /\ decision data = None /\
    ((store (w_mem w') = <[id := data]> (store (w_mem w)) /\ w_kv w' = w_kv w) \/
     (store (w_mem w') = store (w_mem w) /\
      exists dl, w_kv w' = <[KVStore.getKey id := (data, dl)]> (w_kv w))).

Definition lifecycle_step (w w' : World) : Prop := settles w w' \/ create_step w w'.

(** Invocations other than a create request. *)
Definition no_create (i : Invocation) : Prop :=
  match i with
  | call_notify _ => False
  | _ => True
  end.

(** [decision] is populated exactly in the statuses a decision leads to. *)
Definition consistent (r : StoredRequest) : Prop :=
  match decision r with
  | None => status r = Status.pending \/ status r = Status.expired
  | Some _ => status r = Status.approved \/ status r = Status.denied \/
              status r = Status.message
  end.

Definition all_consistent (w : World) : Prop :=
  (forall id r, store (w_mem w) !! id = Some r -> consistent r) /\
  (forall key r dl, w_kv w !! key = Some (r, dl) -> consistent r).

(** Two records with the same request, message handle and creation instant. *)
Definition same_metadata (r r' : StoredRequest) : Prop :=
  request r' = request r /\ larkMessageId r' = larkMessageId r /\
  createdAt r' = createdAt r.

Definition sample_settling : list Invocation :=
  [call_status (poll_request id0 None);
   call_callback (callback_request (button_action Decision.approve));
   timer_fires id0;
   call_callback (callback_request (button_action Decision.deny))].

(** ** Answers of the endpoints *)

(** [m] may throw, but when it returns, what it returns satisfies [S]. *)
Definition answers {A} (S : A -> Prop) (m : M A) : Prop :=
  forall w, match m w with
            | (Ok a, _) => S a
            | (Throw _, _) => True
            end.

Definition is_toast (resp : Response) : Prop :=
  code resp = 200 /\ exists t c, json resp = Toast t c.

(** The timeout the create endpoint applies: [LARK_TIMEOUT] when it parses to
    a number other than zero, five minutes otherwise. *)
Definition configured_timeout (e : Env) : Z :=
  match LARK_TIMEOUT e with
  | Some 0 | None => DEFAULT_TIMEOUT
  | Some t => t
  end.

(** A create request that passes the checks of the handler. *)
Definition well_formed_create (e : Env) (req : Request (Payload NotifyRequest)) : Prop :=
  method req = str "POST" /\ api_key_ok e (authorization req) = true /\
  truthy (n_tool (fields req)) = true /\
  truthy (n_workingDirectory (fields req)) = true.

Definition lark_configured (e : Env) : Prop :=
  truthy (LARK_APP_ID e) = true /\ truthy (LARK_APP_SECRET e) = true /\
  truthy (LARK_CHAT_ID e) = true.

Definition sample_create_trailing_slash : Request (Payload NotifyRequest) :=
  {| method := str "POST"; authorization := None;
     body := body_of
             {| n_tool := Some (str "Bash");
                n_command := Some (str "git push -f");
                n_description := None;
                n_args := None;
                n_workingDirectory := Some (str "/home/dev/app/");
                n_project := None;
                n_riskLevel := None |} |}.

(** ** What the selected store holds *)

(** The selected backend holds [r] under [id], readable at the next reading
    of the clock. *)
Definition holds (w : World) (id : jsstring) (r : StoredRequest) : Prop :=
  (uses_kv (w_env w) = false /\ store (w_mem w) !! id = Some r) \/
  (uses_kv (w_env w) = true /\
   exists dl, w_kv w !! KVStore.getKey id = Some (r, dl) /\ next_now w < dl).

(** The selected backend holds nothing readable under [id]. *)
Definition holds_nothing (w : World) (id : jsstring) : Prop :=
  (uses_kv (w_env w) = false /\ store (w_mem w) !! id = None) \/
  (uses_kv (w_env w) = true /\
   forall r dl, w_kv w !! KVStore.getKey id = Some (r, dl) -> dl <= next_now w).

(** The message a poll reports for a decision: its text, unless empty. *)
Definition reported_message (d : DecisionResponse) : option jsstring :=
  if truthy (d_message d) then d_message d else None.

(** ** Card actions that carry a decision *)

(** The text a card action hands to the store with decision [d]. *)
Definition decision_text (c : LarkCardCallback) (d : Decision.t) : option jsstring :=
  match d with
  | Decision.message => Some (trim (unwrap (submitted_text c)))
  | _ => None
  end.

(** A card action for request [id] with decision [d] that passes the gates
    of [handleCardAction]. *)
Definition decides (e : Env) (id : jsstring) (c : LarkCardCallback)
    (d : Decision.t) : Prop :=
  id <> [] /\
  event_type c = str "card.action.trigger" /\
  token_accepted e c /\
  value_requestId c = Some id /\
  value_decision c = Some (Decision.to_string d) /\
  (d = Decision.message -> blank (submitted_text c) = false).

(** The toast that acknowledges decision [d]. *)
Definition success_toast (d : Decision.t) : Body :=
  match d with
  | Decision.approve => Toast toast_success (str "Approved successfully")
  | Decision.message => Toast toast_success (str "Message sent successfully")
  | Decision.deny => Toast toast_info (str "Denied successfully")
  end.

Definition mem_pending_with_card : World :=
  snd (MemoryStore.set id0
         {| request := sample_request id0 300000; status := Status.pending;
            decision := None; larkMessageId := Some (str "om_1"); createdAt := 0 |}
         (fresh_world env_memory 0 [] [None])).

(** ** The order of the risk levels *)

Definition risk_rank (l : RiskLevel) : nat :=
  match l with
  | low => 0
  | medium => 1
  | high => 2
  | critical => 3
  end.

(** Two strings that differ at most in the case of their ASCII letters. *)
Definition same_up_to_case (s s' : jsstring) : Prop :=
  Forall2 (fun a b => canonicalize a = canonicalize b) s s'.

Definition url_verification_request (v : LarkUrlVerification) : Request CallbackBody :=
  {| method := str "POST"; authorization := None; body := url_verification v |}.

(** ** Signatures of the chat platform ([src/lark/signature.ts]) *)

Section Signature.

(** [createHmac('sha256', key).update(payload).digest('hex')] *)
Variable hmac_sha256_hex : jsstring -> jsstring -> jsstring.

Definition verifyLarkSignature
    (timestamp nonce body signature verificationToken : jsstring) : bool :=
  let payload := ((timestamp ++ nonce) ++ verificationToken) ++ body in
  let expectedSignature := hmac_sha256_hex [] payload in
  streq signature expectedSignature.

Definition calculateCardSignature
    (timestamp nonce encryptKey body : jsstring) : jsstring :=
  let payload := ((timestamp ++ nonce) ++ encryptKey) ++ body in
  hmac_sha256_hex [] payload.

End Signature.

(** [verifyTimestamp(timestamp, maxAge = 300)]: [timestamp] in seconds. *)
Definition verifyTimestamp (timestamp : Z) (maxAge : option Z) : M bool :=
  let maxAge := match maxAge with
                | Some a => a
                | None => 300
                end in
  let* ms := Date_now in
  let now := ms / 1000 in
  ret (Z.abs (now - timestamp) <=? maxAge).

(** ** The access token of the chat gateway ([LarkClient.getAccessToken]) *)

Record LarkTokenResponse : Type := {
  t_code : Z;
  t_msg : jsstring;
  tenant_access_token : option jsstring;
  expire : option Z
}.

(** The two private fields of a [LarkClient] that the method reads and
    assigns. *)
Record LarkClient : Type := {
  accessToken : option jsstring;
  tokenExpiresAt : Z
}.

Definition new_LarkClient : LarkClient :=
  {| accessToken := None; tokenExpiresAt := 0 |}.

(** [this.accessToken && Date.now() < this.tokenExpiresAt - 60000]: the
    clock is read only when a token is held. *)
Definition token_cached (c : LarkClient) : M bool :=
  if truthy (accessToken c) then
    let* now := Date_now in ret (now <? tokenExpiresAt c - 60000)
  else ret false.

(** [data.expire || 7200] *)
Definition token_lifetime (data : LarkTokenResponse) : Z :=
  match expire data with
  | Some 0 | None => 7200
  | Some e => e
  end.

(** The method, [fetch_token] being the request to the token endpoint and
    the reading of its JSON answer.  The client is an object the method
    assigns to: it is returned beside the outcome, also when the method
    throws. *)
Definition getAccessToken (fetch_token : M LarkTokenResponse) (c : LarkClient)
    (w : World) : Result jsstring * LarkClient * World :=
  match token_cached c w with
  | (Ok true, w1) => (Ok (unwrap (accessToken c)), c, w1)
  | (Ok false, w1) =>
      match fetch_token w1 with
      | (Ok data, w2) =>
          if (negb (t_code data =? 0)
              || negb (truthy (tenant_access_token data)))%bool
          then (Throw (str "Failed to get Lark access token: " ++ t_msg data),
                c, w2)
          else
            match Date_now w2 with
            | (Ok now, w3) =>
                (Ok (unwrap (tenant_access_token data)),
                 {| accessToken := tenant_access_token data;
                    tokenExpiresAt := now + token_lifetime data * 1000 |}, w3)
            | (Throw e, w3) => (Throw e, c, w3)
            end
      | (Throw e, w2) => (Throw e, c, w2)
      end
  | (Throw e, w1) => (Throw e, c, w1)
  end.

(** A token endpoint that answers with [data]. *)
Definition fetch_answers (data : LarkTokenResponse) : M LarkTokenResponse :=
  ret data.

Definition sample_token : LarkTokenResponse :=
  {| t_code := 0; t_msg := str "ok";
     tenant_access_token := Some (str "t-abc"); expire := None |}.


(** ** Bodies the callback endpoint cannot read *)

(** The card action events on which [handleCardAction] throws outside its
    [try]: [event], [event.action] or [event.action.value] is missing, or
    the text of the message is neither absent nor a string. *)
Definition card_incomplete (b : CallbackObject) : Prop :=
  match cb_event b with
  | None => True
  | Some ev =>
      match ev_action ev with
      | None => True
      | Some a => ca_value a = None \/ user_message a = text_other true
      end
  end.

(** The bodies on which the handler throws: no body at all, or a card
    action event as above. *)
Definition incomplete (p : CallbackBody) : Prop :=
  match p with
  | body_undefined | body_null => True
  | body_of b =>
      is_string (cb_type b) (str "url_verification") = false /\
      (exists h, cb_header b = Some h /\
                 is_string (hd_event_type h) (str "card.action.trigger") = true) /\
      card_incomplete b
  end.


(** ** The entry of a lapsed request in the durable store *)

(** What the durable store holds under the key of a request that was
    stored as [(r, dl)] and has lapsed, from the instant [t0] on: the entry
    as it was, or, when [r] was pending, [r] flipped to [expired] at some
    instant [t] since then and kept for 60 more seconds. *)
Definition kv_trail (r : StoredRequest) (dl t0 : Z) (w : World)
    (entry : StoredRequest * Z) : Prop :=
  entry = (r, dl) \/
  (status r = Status.pending /\
   exists t, t0 <= t <= w_now w /\
             entry = (with_status r Status.expired, t + 60 * 1000)).

(** What a poll or a card action yields for such a request, [entry] being
    what the store holds afterwards, in the world [w]: [expired], or nothing
    when the deadline of the entry has passed. *)
Definition kv_touch_result (w : World) (entry : StoredRequest * Z)
    (y : option Status.t) : Prop :=
  y = Some Status.expired \/ (y = None /\ snd entry <= w_now w).

(** Polls and card actions on the lapsed request of the durable world, two
    of them more than 60 seconds after the first. *)
Definition sample_kv_touches : list Touch :=
  [touch_poll None; touch_callback (button_action Decision.approve);
   touch_poll None; touch_poll None].

Definition kv_due_world_ticking : World :=
  set_clock 1000 [0; 0; 0; 0; 10; 70000; 0]%N kv_lapsed_world.

(** * Properties *)

(** ** The matcher decides the language *)

Ltac invert H := inversion H; subst; clear H.

Lemma nullable_lang (r : regex) : nullable r = true <-> lang r [].
Proof.
  induction r as [| |k|r1 IH1 r2 IH2|r1 IH1 r2 IH2|r IH]; simpl.
  - split; [discriminate|]. intros H. invert H.
  - split; [constructor|reflexivity].
  - split; [discriminate|]. intros H. invert H.
  - rewrite andb_true_iff, IH1, IH2. split.
    + intros [H1 H2]. apply (L_seq _ _ [] [] H1 H2).
    + intros H. invert H.
      match goal with E : _ ++ _ = [] |- _ =>
        apply app_eq_nil in E; destruct E; subst end. auto.
  - rewrite orb_true_iff, IH1, IH2. split.
    + intros [H|H]; [apply L_alt_l|apply L_alt_r]; exact H.
    + intros H. invert H; auto.
  - split; [constructor|reflexivity].
Qed.

Lemma star_cons_inv (r : regex) (c : N) (s : jsstring) :
  lang (RStar r) (c :: s) ->
  exists s1 s2, s = s1 ++ s2 /\ lang r (c :: s1) /\ lang (RStar r) s2.
Proof.
  intros H. remember (RStar r) as r' eqn:Er. remember (c :: s) as s' eqn:Es.
  revert s Es. induction H as [| | | | | |r0 s1 s2 H1 _ H2 IH2]; intros t Et;
    try discriminate.
  injection Er as ->. destruct s1 as [|c' s1].
  - simpl in Et. apply IH2; [reflexivity|exact Et].
  - simpl in Et. injection Et as -> <-. exists s1, s2. auto.
Qed.

Lemma seq_cons_inv (r1 r2 : regex) (c : N) (s : jsstring) :
  lang (RSeq r1 r2) (c :: s) ->
  (exists s1 s2, s = s1 ++ s2 /\ lang r1 (c :: s1) /\ lang r2 s2) \/
  (lang r1 [] /\ lang r2 (c :: s)).
Proof.
  intros H. invert H.
  match goal with E : ?a ++ _ = _ :: _ |- _ => destruct a as [|c' s1']; simpl in E end.
  - right. subst. auto.
  - left. match goal with E : _ :: _ = _ :: _ |- _ => injection E as -> <- end.
    eauto.
Qed.

Lemma deriv_lang (c : N) (r : regex) (s : jsstring) :
  lang (deriv c r) s <-> lang r (c :: s).
Proof.
  revert s. induction r as [| |k|r1 IH1 r2 IH2|r1 IH1 r2 IH2|r IH]; intros s; simpl.
  - split; intros H; invert H.
  - split; intros H; invert H.
  - destruct (cls_match k c) eqn:E.
    + split; intros H; invert H; [constructor; exact E|constructor].
    + split; intros H; invert H. congruence.
  - assert (lang (RSeq (deriv c r1) r2) s -> lang (RSeq r1 r2) (c :: s)) as Hl.
    { intros H. invert H.
      match goal with H1 : lang (deriv c r1) ?a, H2 : lang r2 ?b |- _ =>
        apply IH1 in H1; apply (L_seq _ _ (c :: a) b H1 H2) end. }
    assert (lang (RSeq r1 r2) (c :: s) ->
            lang (RSeq (deriv c r1) r2) s \/ (lang r1 [] /\ lang r2 (c :: s))) as Hr.
    { intros H. apply seq_cons_inv in H.
      destruct H as [(s1 & s2 & -> & H1 & H2)|H]; [left|right; exact H].
      apply L_seq; [apply IH1, H1|exact H2]. }
    destruct (nullable r1) eqn:En.
    + apply nullable_lang in En. split.
      * intros H. invert H; [auto|].
        apply (L_seq _ _ [] (c :: s) En). apply IH2. assumption.
      * intros H. destruct (Hr H) as [H'|[_ H']];
          [apply L_alt_l, H'|apply L_alt_r, IH2, H'].
    + split; [exact Hl|]. intros H. destruct (Hr H) as [H'|[H' _]]; [exact H'|].
      apply nullable_lang in H'. congruence.
  - split.
    + intros H. invert H; [apply L_alt_l, IH1|apply L_alt_r, IH2]; assumption.
    + intros H. invert H; [apply L_alt_l, IH1|apply L_alt_r, IH2]; assumption.
  - split.
    + intros H. invert H.
      match goal with H1 : lang (deriv c r) ?a, H2 : lang (RStar r) ?b |- _ =>
        apply IH in H1; apply (L_star_cons _ (c :: a) b H1 H2) end.
    + intros H. apply star_cons_inv in H. destruct H as (s1 & s2 & -> & H1 & H2).
      apply L_seq; [apply IH, H1|exact H2].
Qed.

Lemma matches_lang (r : regex) (s : jsstring) : matches r s = true <-> lang r s.
Proof.
  revert r. induction s as [|c s IH]; intros r; simpl.
  - apply nullable_lang.
  - rewrite IH. apply deriv_lang.
Qed.

Lemma match_here_lang (r : regex) (s : jsstring) :
  match_here r s = true <-> exists m rest, s = m ++ rest /\ lang r m.
Proof.
  revert r. induction s as [|c s IH]; intros r; simpl.
  - rewrite nullable_lang. split.
    + intros H. exists [], []. auto.
    + intros (m & rest & E & H). symmetry in E. apply app_eq_nil in E.
      destruct E; subst. exact H.
  - rewrite orb_true_iff, nullable_lang, IH. split.
    + intros [H|(m & rest & -> & H)].
      * exists [], (c :: s). auto.
      * exists (c :: m), rest. split; [reflexivity|]. apply deriv_lang, H.
    + intros (m & rest & E & H). destruct m as [|c' m]; [left; exact H|].
      simpl in E. injection E as <- ->. right. exists m, rest.
      split; [reflexivity|]. apply deriv_lang, H.
Qed.

(** [test] answers whether some substring is in the language. *)
Lemma test_lang (r : regex) (s : jsstring) :
  test r s = true <-> exists pre m post, s = pre ++ m ++ post /\ lang r m.
Proof.
  induction s as [|c s IH].
  - simpl. rewrite orb_false_r, nullable_lang. split.
    + intros H. exists [], [], []. auto.
    + intros (pre & m & post & E & H). symmetry in E.
      apply app_eq_nil in E. destruct E as [_ E].
      apply app_eq_nil in E. destruct E; subst. exact H.
  - change (test r (c :: s)) with (match_here r (c :: s) || test r s)%bool.
    rewrite orb_true_iff, match_here_lang, IH. split.
    + intros [(m & rest & E & H)|(pre & m & post & -> & H)].
      * exists [], m, rest. auto.
      * exists (c :: pre), m, post. auto.
    + intros (pre & m & post & E & H). destruct pre as [|c' pre].
      * left. exists m, post. auto.
      * simpl in E. injection E as <- ->. right. exists pre, m, post. auto.
Qed.

(** ** The classifier *)

Lemma find_tier (ps : list regex) (lvl : RiskLevel)
    (rest : list (regex * RiskLevel)) (s : jsstring) :
  option_map snd
    (List.find (fun x => test (fst x) s) (List.map (fun p => (p, lvl)) ps ++ rest))
  = if any_match ps s then Some lvl
    else option_map snd (List.find (fun x => test (fst x) s) rest).
Proof.
  induction ps as [|p ps IH]; [reflexivity|].
  cbn [List.map app List.find any_match fst].
  destruct (test p s); [reflexivity | exact IH].
Qed.

Lemma classify_first_match_tier (tool : jsstring) (command : option jsstring) :
  classify_first_match tool command =
  match option_map snd
          (List.find (fun x => test (fst x) (cmdStr_of command)) cascade) with
  | Some lvl => lvl
  | None => if streq tool (str "Bash") then medium else low
  end.
Proof.
  unfold classify_first_match.
  destruct (List.find _ cascade) as [[p lvl]|]; reflexivity.
Qed.

(** C8: the classifier gives [critical] for ('Bash', 'rm -rf /tmp/x'),
    [medium] for ('Bash', 'npm install left-pad'), [high] for
    ('Bash', 'git push -f origin main'), [medium] for ('Bash', 'ls -la') and
    [low] for ('ReadFile', undefined); and on every input it is the cascade
    critical, high, medium, shell-tool default in which the first matching
    pattern decides. *)
Theorem determineRiskLevel_cascade :
  determineRiskLevel (str "Bash") (Some (str "rm -rf /tmp/x")) = critical /\
  determineRiskLevel (str "Bash") (Some (str "npm install left-pad")) = medium /\
  determineRiskLevel (str "Bash") (Some (str "git push -f origin main")) = high /\
  determineRiskLevel (str "Bash") (Some (str "ls -la")) = medium /\
  determineRiskLevel (str "ReadFile") None = low /\
  forall (tool : jsstring) (command : option jsstring),
    determineRiskLevel tool command = classify_first_match tool command.
Proof.
  repeat split; try (vm_compute; reflexivity).
  intros tool command.
  rewrite classify_first_match_tier. unfold cascade, determineRiskLevel.
  rewrite find_tier.
  destruct (any_match dangerousPatterns _); [reflexivity|].
  rewrite find_tier.
  destruct (any_match highRiskPatterns _); [reflexivity|].
  rewrite <- (app_nil_r (List.map _ mediumRiskPatterns)), find_tier.
  destruct (any_match mediumRiskPatterns _); reflexivity.
Qed.

(** ** The clock *)

Lemma next_now_ge (w : World) : w_now w <= next_now w.
Proof. unfold next_now. destruct (w_ticks w); lia. Qed.

Lemma Status_eqb_eq (a b : Status.t) : Status.eqb a b = true <-> a = b.
Proof. destruct a, b; simpl; split; congruence. Qed.

Lemma Status_eqb_pending (a : Status.t) :
  a <> Status.pending -> Status.eqb a Status.pending = false.
Proof. destruct a; simpl; congruence. Qed.

Lemma getKey_inj (a b : jsstring) : KVStore.getKey a = KVStore.getKey b -> a = b.
Proof. unfold KVStore.getKey. apply app_inv_head. Qed.

(** ** Terminal records are never touched *)

Section Terminal.

Variable id : jsstring.
Variable r : StoredRequest.
Hypothesis Hterm : Status.terminal (status r).

Lemma mem_op_terminal (o : StoreOp) (w : World) :
  store (w_mem w) !! id = Some r ->
  exists res w',
    mem_op o w = (Ok res, w') /\ store (w_mem w') !! id = Some r /\
    refused id o res.
Proof using Hterm.
  intros Hr. unfold refused.
  destruct o as [i d b m | i | i]; simpl;
    unfold mem_op, MemoryStore.setDecision, MemoryStore.setExpired,
      MemoryStore.handleExpiration, bind, ret, get_mem, put_mem, Date_now;
    simpl.
  - destruct (decide (i = id)) as [->|Hne].
    + rewrite Hr, (Status_eqb_pending _ Hterm). simpl. eauto 6.
    + destruct (store (w_mem w) !! i) as [x|] eqn:Hx; [|eauto 6].
      destruct (Status.eqb (status x) Status.pending); simpl; [|eauto 6].
      destruct (expiresAt (request x) <=? next_now w); simpl;
        do 2 eexists; (split; [reflexivity|]); simpl;
        rewrite lookup_insert_ne by done; (split; [done|congruence]).
  - destruct (decide (i = id)) as [->|Hne].
    + rewrite Hr, (Status_eqb_pending _ Hterm). simpl. eauto 6.
    + destruct (store (w_mem w) !! i) as [x|] eqn:Hx; [|eauto 6].
      destruct (Status.eqb (status x) Status.pending); simpl; [|eauto 6].
      do 2 eexists; (split; [reflexivity|]); simpl.
      rewrite lookup_insert_ne by done. split; [done|congruence].
  - do 2 eexists; (split; [reflexivity|]); simpl. split; [|congruence].
    destruct (decide (i = id)) as [->|Hne].
    + rewrite Hr, (Status_eqb_pending _ Hterm). done.
    + destruct (store (w_mem w) !! i) as [x|] eqn:Hx; [|done].
      destruct (Status.eqb (status x) Status.pending); [|done].
      rewrite lookup_insert_ne by done. done.
Qed.

Lemma kv_op_terminal (o : StoreOp) (w : World) (deadline : Z) :
  w_kv w !! KVStore.getKey id = Some (r, deadline) ->
  exists res w',
    kv_op o w = (Ok res, w') /\
    w_kv w' !! KVStore.getKey id = Some (r, deadline) /\
    refused id o res.
Proof using Hterm.
  intros Hr. unfold refused.
  destruct o as [i d b m | i | i]; simpl;
    unfold kv_op, KVStore.setDecision, KVStore.setExpired, KVStore.get,
      kv.get, kv.set, bind, ret, Date_now; simpl.
  - destruct (decide (i = id)) as [->|Hne].
    + rewrite Hr. destruct (deadline <=? next_now w); simpl; [eauto 6|].
      rewrite (Status_eqb_pending _ Hterm). simpl. eauto 6.
    + assert (KVStore.getKey i <> KVStore.getKey id) as Hk
        by (intros E; apply Hne, getKey_inj, E).
      destruct (w_kv w !! KVStore.getKey i) as [[x dx]|] eqn:Hx; [|eauto 6].
      destruct (dx <=? next_now w); simpl; [eauto 6|].
      destruct (Status.eqb (status x) Status.pending); simpl; [|eauto 6].
      do 2 eexists; (split; [reflexivity|]); simpl.
      rewrite lookup_insert_ne by done. split; [done|congruence].
  - destruct (decide (i = id)) as [->|Hne].
    + rewrite Hr. destruct (deadline <=? next_now w); simpl; [eauto 6|].
      rewrite (Status_eqb_pending _ Hterm). simpl. eauto 6.
    + assert (KVStore.getKey i <> KVStore.getKey id) as Hk
        by (intros E; apply Hne, getKey_inj, E).
      destruct (w_kv w !! KVStore.getKey i) as [[x dx]|] eqn:Hx; [|eauto 6].
      destruct (dx <=? next_now w); simpl; [eauto 6|].
      destruct (Status.eqb (status x) Status.pending); simpl; [|eauto 6].
      do 2 eexists; (split; [reflexivity|]); simpl.
      rewrite lookup_insert_ne by done. split; [done|congruence].
  - eauto 6.
Qed.

(** Any sequence of operations, on any ids, leaves the record as it is and
    refuses every operation aimed at it. *)
Lemma run_mem_terminal (ops : list StoreOp) (w : World) :
  store (w_mem w) !! id = Some r ->
  exists results w',
    run mem_op ops w = (Ok results, w') /\
    store (w_mem w') !! id = Some r /\
    Forall2 (refused id) ops results.
Proof using Hterm.
  revert w. induction ops as [|o ops IH]; intros w Hr.
  - exists [], w. simpl. auto.
  - destruct (mem_op_terminal o w Hr) as (res & w1 & E1 & H1 & R1).
    destruct (IH w1 H1) as (results & w2 & E2 & H2 & R2).
    exists (res :: results), w2. simpl. unfold bind at 1. rewrite E1.
    unfold bind at 1. rewrite E2. simpl. auto.
Qed.

Lemma run_kv_terminal (ops : list StoreOp) (w : World) (deadline : Z) :
  w_kv w !! KVStore.getKey id = Some (r, deadline) ->
  exists results w',
    run kv_op ops w = (Ok results, w') /\
    w_kv w' !! KVStore.getKey id = Some (r, deadline) /\
    Forall2 (refused id) ops results.
Proof using Hterm.
  revert w. induction ops as [|o ops IH]; intros w Hr.
  - exists [], w. simpl. auto.
  - destruct (kv_op_terminal o w deadline Hr) as (res & w1 & E1 & H1 & R1).
    destruct (IH w1 H1) as (results & w2 & E2 & H2 & R2).
    exists (res :: results), w2. simpl. unfold bind at 1. rewrite E1.
    unfold bind at 1. rewrite E2. simpl. auto.
Qed.

End Terminal.

(** A single operation that changes the status of a record found it
    [pending]. *)
Lemma mem_op_changes_pending (id : jsstring) (o : StoreOp) (w : World)
    (r r' : StoredRequest) :
  store (w_mem w) !! id = Some r ->
  store (w_mem (snd (mem_op o w))) !! id = Some r' ->
  status r' <> status r -> status r = Status.pending.
Proof.
  intros Hr Hr' Hne.
  destruct (decide (status r = Status.pending)) as [|Hterm]; [done|].
  destruct (mem_op_terminal id r Hterm o w Hr) as (res & w1 & E & H1 & _).
  rewrite E in Hr'. simpl in Hr'. congruence.
Qed.

Lemma kv_op_changes_pending (id : jsstring) (o : StoreOp) (w : World)
    (r r' : StoredRequest) (dl dl' : Z) :
  w_kv w !! KVStore.getKey id = Some (r, dl) ->
  w_kv (snd (kv_op o w)) !! KVStore.getKey id = Some (r', dl') ->
  status r' <> status r -> status r = Status.pending.
Proof.
  intros Hr Hr' Hne.
  destruct (decide (status r = Status.pending)) as [|Hterm]; [done|].
  destruct (kv_op_terminal id r Hterm o w dl Hr) as (res & w1 & E & H1 & _).
  rewrite E in Hr'. simpl in Hr'. congruence.
Qed.

(** C3: transitions are monotonic.  In both backends [setDecision],
    [setExpired] and the timer expiry change a status only when it is
    [pending] and otherwise report no success; so a record in a terminal
    status ([approved], [denied], [expired], [message]) is left as it is by
    every sequence of these operations. *)
Theorem status_transitions_monotonic (id : jsstring) (r : StoredRequest) :
  (forall (o : StoreOp) (w : World) (r' : StoredRequest),
      store (w_mem w) !! id = Some r ->
      store (w_mem (snd (mem_op o w))) !! id = Some r' ->
      status r' <> status r -> status r = Status.pending) /\
  (forall (o : StoreOp) (w : World) (r' : StoredRequest) (dl dl' : Z),
      w_kv w !! KVStore.getKey id = Some (r, dl) ->
      w_kv (snd (kv_op o w)) !! KVStore.getKey id = Some (r', dl') ->
      status r' <> status r -> status r = Status.pending) /\
  (Status.terminal (status r) ->
   (forall (ops : list StoreOp) (w : World),
       store (w_mem w) !! id = Some r ->
       exists results w',
         run mem_op ops w = (Ok results, w') /\
         store (w_mem w') !! id = Some r /\
         Forall2 (refused id) ops results) /\
   (forall (ops : list StoreOp) (w : World) (deadline : Z),
       w_kv w !! KVStore.getKey id = Some (r, deadline) ->
       exists results w',
         run kv_op ops w = (Ok results, w') /\
         w_kv w' !! KVStore.getKey id = Some (r, deadline) /\
         Forall2 (refused id) ops results)).
Proof.
  split; [|split].
  - intros o w r'. apply mem_op_changes_pending.
  - intros o w r' dl dl'. apply kv_op_changes_pending.
  - intros Hterm. split.
    + intros ops w. apply run_mem_terminal, Hterm.
    + intros ops w dl. apply run_kv_terminal, Hterm.
Qed.

(** ** [setDecision], case by case *)

Lemma mem_setDecision_absent id d by_ msg (w : World) :
  store (w_mem w) !! id = None ->
  MemoryStore.setDecision id d by_ msg w = (Ok false, w).
Proof.
  intros H. unfold MemoryStore.setDecision, bind, get_mem. simpl.
  rewrite H. reflexivity.
Qed.

Lemma mem_setDecision_terminal id d by_ msg (w : World) (r : StoredRequest) :
  store (w_mem w) !! id = Some r -> status r <> Status.pending ->
  MemoryStore.setDecision id d by_ msg w = (Ok false, w).
Proof.
  intros H Hs. unfold MemoryStore.setDecision, bind, get_mem. simpl.
  rewrite H, (Status_eqb_pending _ Hs). reflexivity.
Qed.

(** Expire-on-touch: the record is due, the call flips it and fails. *)
Lemma mem_setDecision_lapsed id d by_ msg (w : World) (r : StoredRequest) :
  store (w_mem w) !! id = Some r -> status r = Status.pending ->
  expiresAt (request r) <= next_now w ->
  MemoryStore.setDecision id d by_ msg w =
    (Ok false,
     set_mem (MemoryStore.write id (with_status r Status.expired) (w_mem w))
       (tick w)).
Proof.
  intros H Hs Hexp.
  unfold MemoryStore.setDecision, bind, get_mem, Date_now, put_mem, ret.
  simpl. rewrite H, Hs. simpl.
  destruct (Z.leb_spec (expiresAt (request r)) (next_now w)); [reflexivity|lia].
Qed.

Lemma mem_setDecision_live id d by_ msg (w : World) (r : StoredRequest) :
  store (w_mem w) !! id = Some r -> status r = Status.pending ->
  next_now w < expiresAt (request r) ->
  MemoryStore.setDecision id d by_ msg w =
    (Ok true,
     set_mem
       {| store :=
            <[id := with_decision (with_status r (decided_status d))
                      {| d_requestId := id; d_decision := d; d_message := msg;
                         respondedAt := next_now (tick w); respondedBy := by_ |}]>
              (store (w_mem w));
          timers := MemoryStore.clear_timer id (timers (w_mem w)) |}
       (tick (tick w))).
Proof.
  intros H Hs Hexp.
  unfold MemoryStore.setDecision, bind, get_mem, Date_now, put_mem, ret.
  simpl. rewrite H, Hs. simpl.
  destruct (Z.leb_spec (expiresAt (request r)) (next_now w)); [lia|reflexivity].
Qed.

(** The volatile backend meets the contract of [applyDecision]: success
    exactly for an existing, pending, unexpired record. *)
Lemma mem_setDecision_true_iff id d by_ msg (w : World) :
  fst (MemoryStore.setDecision id d by_ msg w) = Ok true <->
  exists r, store (w_mem w) !! id = Some r /\ status r = Status.pending /\
            next_now w < expiresAt (request r).
Proof.
  destruct (store (w_mem w) !! id) as [r|] eqn:Hr.
  - destruct (decide (status r = Status.pending)) as [Hs|Hs].
    + destruct (Z.lt_ge_cases (next_now w) (expiresAt (request r))).
      * rewrite (mem_setDecision_live _ _ _ _ _ _ Hr Hs) by done. simpl.
        split; [eauto|done].
      * rewrite (mem_setDecision_lapsed _ _ _ _ _ _ Hr Hs) by done. simpl.
        split; [discriminate|]. intros (r' & E & _ & ?).
        assert (r' = r) by congruence. subst. lia.
    + rewrite (mem_setDecision_terminal _ _ _ _ _ _ Hr Hs). simpl.
      split; [discriminate|]. intros (r' & E & ? & _). congruence.
  - rewrite (mem_setDecision_absent _ _ _ _ _ Hr). simpl.
    split; [discriminate|]. intros (r' & E & _). congruence.
Qed.

(** The durable backend: the key is gone (never written, or evicted). *)
Lemma kv_setDecision_gone id d by_ (w : World) :
  (forall r dl, w_kv w !! KVStore.getKey id = Some (r, dl) -> dl <= next_now w) ->
  KVStore.setDecision id d by_ w = (Ok false, tick w).
Proof.
  intros H. unfold KVStore.setDecision, KVStore.get, kv.get, bind, Date_now.
  simpl. destruct (w_kv w !! KVStore.getKey id) as [[r dl]|] eqn:E; [|reflexivity].
  specialize (H r dl eq_refl).
  destruct (Z.leb_spec dl (next_now w)); [reflexivity|lia].
Qed.

Lemma kv_setDecision_terminal id d by_ (w : World) (r : StoredRequest) (dl : Z) :
  w_kv w !! KVStore.getKey id = Some (r, dl) -> status r <> Status.pending ->
  KVStore.setDecision id d by_ w = (Ok false, tick w).
Proof.
  intros H Hs. unfold KVStore.setDecision, KVStore.get, kv.get, bind, Date_now.
  simpl. rewrite H. destruct (dl <=? next_now w); [reflexivity|].
  simpl. rewrite (Status_eqb_pending _ Hs). reflexivity.
Qed.

(** The durable backend accepts a decision on every pending record it still
    holds, whatever the clock says about [expiresAt]. *)
Lemma kv_setDecision_pending id d by_ (w : World) (r : StoredRequest) (dl : Z) :
  w_kv w !! KVStore.getKey id = Some (r, dl) -> status r = Status.pending ->
  next_now w < dl ->
  KVStore.setDecision id d by_ w =
    (Ok true,
     let w3 := tick (tick (tick w)) in
     set_kv (<[KVStore.getKey id :=
                 (KVStore.updated id r d by_ (next_now (tick w)),
                  next_now w3 + KVStore.decision_ttl r (w_now w3) * 1000)]>
               (w_kv w))
       (tick w3)).
Proof.
  intros H Hs Hdl.
  unfold KVStore.setDecision, KVStore.get, kv.get, kv.set, bind, Date_now, ret.
  simpl. rewrite H.
  destruct (Z.leb_spec dl (next_now w)); [lia|]. simpl. rewrite Hs. reflexivity.
Qed.

(** ** Repetition *)

Lemma mem_repeated_calls id (r : StoredRequest) (calls : list DecisionCall)
    (w : World) :
  store (w_mem w) !! id = Some r -> status r <> Status.pending ->
  run (mem_setDecision_call id) calls w =
    (Ok (List.map (fun _ => false) calls), w).
Proof.
  intros Hr Hs. induction calls as [|c calls IH]; [reflexivity|].
  simpl. unfold bind at 1. unfold mem_setDecision_call at 1.
  rewrite (mem_setDecision_terminal _ _ _ _ _ _ Hr Hs).
  unfold bind at 1. rewrite IH. reflexivity.
Qed.

Lemma kv_repeated_calls id (r : StoredRequest) (dl : Z)
    (calls : list DecisionCall) (w : World) :
  w_kv w !! KVStore.getKey id = Some (r, dl) -> status r <> Status.pending ->
  exists w', run (kv_setDecision_call id) calls w =
               (Ok (List.map (fun _ => false) calls), w') /\
             w_kv w' = w_kv w.
Proof.
  intros Hr Hs. revert w Hr. induction calls as [|c calls IH]; intros w Hr.
  - exists w. split; reflexivity.
  - destruct (IH (tick w) Hr) as (w' & E & Hkv).
    exists w'. split; [|exact Hkv].
    simpl. unfold bind at 1. unfold kv_setDecision_call at 1. simpl.
    rewrite (kv_setDecision_terminal _ _ _ _ _ _ Hr Hs).
    unfold bind at 1. rewrite E. reflexivity.
Qed.

Lemma decided_status_terminal (d : Decision.t) :
  decided_status d <> Status.pending.
Proof. destruct d; discriminate. Qed.

(** C4: [setDecision] is idempotent under repetition.  In both backends the
    first call made while the record is pending and unexpired returns true
    and changes the record; every later call on the same id, whatever its
    decision, returns false and changes nothing in the store. *)
Theorem setDecision_idempotent (id : jsstring) (d : Decision.t)
    (by_ msg : option jsstring) (w : World) (r : StoredRequest)
    (Hpending : status r = Status.pending)
    (Hlive : next_now w < expiresAt (request r)) :
  (store (w_mem w) !! id = Some r ->
   exists w1 r1,
     MemoryStore.setDecision id d by_ msg w = (Ok true, w1) /\
     store (w_mem w1) !! id = Some r1 /\ status r1 <> status r /\
     forall calls : list DecisionCall,
       exists results w2,
         run (mem_setDecision_call id) calls w1 = (Ok results, w2) /\
         Forall (fun b => b = false) results /\
         length results = length calls /\
         w_mem w2 = w_mem w1) /\
  (forall dl : Z,
   w_kv w !! KVStore.getKey id = Some (r, dl) -> next_now w < dl ->
   exists w1 r1 dl1,
     RequestStore.setDecision createKVStore id d by_ msg w = (Ok true, w1) /\
     w_kv w1 !! KVStore.getKey id = Some (r1, dl1) /\ status r1 <> status r /\
     forall calls : list DecisionCall,
       exists results w2,
         run (kv_setDecision_call id) calls w1 = (Ok results, w2) /\
         Forall (fun b => b = false) results /\
         length results = length calls /\
         w_kv w2 = w_kv w1).
Proof.
  split.
  - intros Hr. rewrite (mem_setDecision_live _ _ _ _ _ _ Hr Hpending Hlive).
    eexists _, _. split; [reflexivity|]. simpl.
    rewrite lookup_insert_eq. split; [reflexivity|]. simpl.
    split; [rewrite Hpending; apply decided_status_terminal|].
    intros calls. eexists _, _. split.
    + eapply mem_repeated_calls; simpl.
      * apply lookup_insert_eq.
      * simpl. apply decided_status_terminal.
    + split; [|split; [apply length_map|reflexivity]].
      apply Forall_forall. intros b Hb.
      apply list_elem_of_In, in_map_iff in Hb. destruct Hb as (? & ? & _). done.
  - intros dl Hr Hdl. simpl.
    rewrite (kv_setDecision_pending _ _ _ _ _ _ Hr Hpending Hdl).
    eexists _, _, _. split; [reflexivity|]. simpl.
    rewrite lookup_insert_eq. split; [reflexivity|]. simpl.
    assert (forall x, match x with
                      | Decision.approve => Status.approved
                      | _ => Status.denied
                      end <> Status.pending) as Hd by (intros []; discriminate).
    split; [rewrite Hpending; apply Hd|].
    intros calls.
    edestruct (kv_repeated_calls id) as (w2 & E & Hkv);
      [| |exists (List.map (fun _ => false) calls), w2; split; [exact E|]].
    + simpl. apply lookup_insert_eq.
    + simpl. apply Hd.
    + split; [|split; [apply length_map|exact Hkv]].
      apply Forall_forall. intros b Hb.
      apply list_elem_of_In, in_map_iff in Hb. destruct Hb as (? & ? & _). done.
Qed.

(** ** Where the durable backend departs from the volatile one *)

(** C1: [setDecision] is to succeed only for an existing, pending record
    with [now < expiresAt], and to flip a pending record that is due to
    [expired].  The volatile backend does ([mem_setDecision_true_iff],
    [mem_setDecision_lapsed]); the durable one has no test of the clock: at
    instant 1000 it approves the request that expired at 1000 and that the
    store still holds. *)
Theorem kv_setDecision_accepts_lapsed :
  kv_record id0 kv_lapsed_world = Some (sample_stored id0 1000) /\
  expiresAt (request (sample_stored id0 1000)) <= next_now kv_lapsed_world /\
  fst (KVStore.setDecision id0 Decision.approve None kv_lapsed_world) = Ok true /\
  status <$> kv_record id0
               (snd (KVStore.setDecision id0 Decision.approve None kv_lapsed_world))
    = Some Status.approved /\
  mem_record id0 mem_lapsed_world = Some (sample_stored id0 1000) /\
  fst (MemoryStore.setDecision id0 Decision.approve None None mem_lapsed_world)
    = Ok false /\
  status <$> mem_record id0
               (snd (MemoryStore.setDecision id0 Decision.approve None None
                       mem_lapsed_world))
    = Some Status.expired.
Proof. vm_compute. repeat split; (reflexivity || discriminate). Qed.

(** C5: a message decision is to leave status [message] and the trimmed text
    in [decision.message].  Through the volatile backend the callback stores
    "retry with sudo" under status [message]; through the durable backend the
    same callback answers "Message sent successfully" and stores status
    [denied] with no message. *)
Theorem kv_message_decision_stored_as_denied :
  let action := callback_request
                  (message_action (Some (str "  retry with sudo  "))) in
  let decided (o : option StoredRequest) :=
    (fun r => (status r, d_message <$> decision r)) <$> o in
  fst (Callback.handler action kv_pending_world)
    = Ok {| code := 200;
            json := Toast toast_success (str "Message sent successfully") |} /\
  decided (kv_record id0 (snd (Callback.handler action kv_pending_world)))
    = Some (Status.denied, Some None) /\
  decided (mem_record id0 (snd (Callback.handler action mem_pending_world)))
    = Some (Status.message, Some (Some (str "retry with sudo"))).
Proof. vm_compute. repeat split; reflexivity. Qed.

(** ** Retention after a decision in the durable backend *)

Lemma ceil_seconds_ge (ms : Z) : ms <= ceil_seconds ms * 1000.
Proof.
  unfold ceil_seconds.
  pose proof (Z.mul_div_le (- ms) 1000 ltac:(lia)). lia.
Qed.

Lemma decision_ttl_bounds (r : StoredRequest) (now : Z) :
  60 <= KVStore.decision_ttl r now /\
  expiresAt (request r) - now <= KVStore.decision_ttl r now * 1000.
Proof.
  unfold KVStore.decision_ttl.
  pose proof (ceil_seconds_ge (expiresAt (request r) - now)). lia.
Qed.

Lemma kv_get_held id (w : World) (r : StoredRequest) (dl : Z) :
  w_kv w !! KVStore.getKey id = Some (r, dl) -> next_now w < dl ->
  KVStore.get id w = (Ok (Some r), tick w).
Proof.
  intros H Hdl. unfold KVStore.get, kv.get, bind, Date_now. simpl. rewrite H.
  destruct (Z.leb_spec dl (next_now w)); [lia|reflexivity].
Qed.

Lemma kv_get_gone id (w : World) :
  (forall r dl, w_kv w !! KVStore.getKey id = Some (r, dl) -> dl <= next_now w) ->
  KVStore.get id w = (Ok None, tick w).
Proof.
  intros H. unfold KVStore.get, kv.get, bind, Date_now. simpl.
  destruct (w_kv w !! KVStore.getKey id) as [[r dl]|] eqn:E; [|reflexivity].
  specialize (H r dl eq_refl).
  destruct (Z.leb_spec dl (next_now w)); [reflexivity|lia].
Qed.

(** The claim C6 as it is written fails: decided at instant 0 with five
    minutes left, the record is written with a TTL of 300 seconds, not 360,
    and is gone at instant 300000, the original expiry. *)
Lemma decision_ttl_not_60_past_expiry :
  let r := sample_stored id0 300000 in
  let w1 := snd (KVStore.setDecision id0 Decision.approve None kv_pending_world) in
  ~ (ceil_seconds (expiresAt (request r) - 0) + 60 <= KVStore.decision_ttl r 0) /\
  fst (KVStore.setDecision id0 Decision.approve None kv_pending_world) = Ok true /\
  fst (KVStore.get id0 (set_clock 300000 [] w1)) = Ok None.
Proof. vm_compute. repeat split; (reflexivity || (intros H; apply H; reflexivity)). Qed.

(** C6, amended: a successful [setDecision] of the durable backend writes the
    record with a TTL of [max(60, ceil((expiresAt - now) / 1000))] seconds.
    The final state stays readable for at least 60 seconds after the decision
    and at least until the original [expiresAt]. *)
Theorem kv_decision_retention (id : jsstring) (d : Decision.t)
    (by_ : option jsstring) (w : World) (r : StoredRequest) (dl : Z)
    (Hheld : w_kv w !! KVStore.getKey id = Some (r, dl))
    (Hpending : status r = Status.pending)
    (Halive : next_now w < dl) :
  exists (w1 : World) (r1 : StoredRequest) (dl1 now written : Z),
    KVStore.setDecision id d by_ w = (Ok true, w1) /\
    w_kv w1 !! KVStore.getKey id = Some (r1, dl1) /\
    next_now w <= now /\ now <= written /\ written = w_now w1 /\
    dl1 = written + KVStore.decision_ttl r now * 1000 /\
    KVStore.decision_ttl r now =
      Z.max 60 (ceil_seconds (expiresAt (request r) - now)) /\
    now + 60 * 1000 <= dl1 /\
    expiresAt (request r) <= dl1 /\
    forall w2 : World,
      w_kv w2 = w_kv w1 ->
      next_now w2 < Z.max (now + 60 * 1000) (expiresAt (request r)) ->
      fst (KVStore.get id w2) = Ok (Some r1).
Proof.
  rewrite (kv_setDecision_pending _ _ _ _ _ _ Hheld Hpending Halive).
  pose proof (decision_ttl_bounds r (next_now (tick (tick w)))) as [B60 Bexp].
  pose proof (next_now_ge (tick w)) as H1.
  pose proof (next_now_ge (tick (tick w))) as H2.
  pose proof (next_now_ge (tick (tick (tick w)))) as H3.
  simpl in H1, H2, H3.
  eexists _, _, _, (next_now (tick (tick w))), (next_now (tick (tick (tick w)))).
  split; [reflexivity|]. simpl. rewrite lookup_insert_eq.
  split; [reflexivity|].
  repeat (split; [first [reflexivity | lia]|]).
  intros w2 Hkv Hlt.
  erewrite kv_get_held; [reflexivity| |].
  - rewrite Hkv. simpl. apply lookup_insert_eq.
  - lia.
Qed.

(** ** Validation at the callback *)

Lemma trim_start_nil (s : jsstring) :
  trim_start s = [] <-> Forall (fun c => is_space c = true) s.
Proof.
  induction s as [|c s IH]; simpl.
  - split; [constructor|reflexivity].
  - destruct (is_space c) eqn:E.
    + rewrite IH. split; [intros H; constructor; assumption|].
      intros H. inversion H; assumption.
    + split; [discriminate|]. intros H. inversion H. congruence.
Qed.

Lemma trim_start_head (s : jsstring) :
  trim_start s = [] \/ exists c s', trim_start s = c :: s' /\ is_space c = false.
Proof.
  induction s as [|c s IH]; simpl; [left; reflexivity|].
  destruct (is_space c) eqn:E; [exact IH|]. right. eauto.
Qed.

Lemma trim_nil (s : jsstring) :
  trim s = [] <-> Forall (fun c => is_space c = true) s.
Proof.
  unfold trim. split.
  - intros H. apply (f_equal (@rev N)) in H. rewrite rev_involutive in H.
    simpl in H. apply trim_start_nil in H.
    destruct (trim_start_head s) as [E|(c & s' & E & Hc)].
    + apply trim_start_nil, E.
    + rewrite E in H. apply Forall_rev in H. rewrite rev_involutive in H.
      inversion H. congruence.
  - intros H. apply trim_start_nil in H. rewrite H. reflexivity.
Qed.

Lemma blank_missing (o : option jsstring) : text_missing o -> blank o = true.
Proof.
  unfold blank, text_missing, streq. intros [->|(s & -> & H)]; [reflexivity|].
  apply trim_nil in H. simpl. rewrite H. rewrite bool_decide_eq_true_2 by done.
  apply orb_true_r.
Qed.

Lemma missing_blank (o : option jsstring) : blank o = true -> text_missing o.
Proof.
  unfold blank, text_missing, streq. destruct o as [s|]; [|auto].
  intros H. right. exists s. split; [reflexivity|]. apply trim_nil.
  destruct s as [|c s]; [reflexivity|]. simpl in H.
  apply bool_decide_eq_true_1 in H. exact H.
Qed.

Lemma token_gate_open (e : Env) (c : LarkCardCallback) :
  token_accepted e c ->
  (truthy (LARK_VERIFICATION_TOKEN e)
   && negb (Callback.verifyEventToken (header_token c)
              (unwrap (LARK_VERIFICATION_TOKEN e))))%bool = false.
Proof.
  intros [H| ->]; [rewrite H; reflexivity|].
  simpl. unfold Callback.verifyEventToken, streq.
  rewrite bool_decide_eq_true_2 by done. apply andb_false_r.
Qed.

(** ** Complete card events *)

Lemma user_message_complete (c : LarkCardCallback) :
  user_message (action_of c) = text_of (submitted_text c).
Proof.
  unfold user_message, submitted_text, text_or, or_else, action_of.
  cbn [ca_form_value ca_input_value].
  destruct (form_value c) as [f|]; [|reflexivity].
  rewrite lookup_fmap.
  destruct (f !! str "user_message") as [[|ch s]|]; reflexivity.
Qed.

(** On a complete card event every property the handler reads is there. *)
Lemma handleCardAction_complete (c : LarkCardCallback) (w : World) :
  Callback.handleCardAction (card_object c) w = complete_card_action c w.
Proof.
  unfold Callback.handleCardAction, complete_card_action.
  cbv beta iota zeta delta [card_object cb_header cb_event ev_action ev_operator
                            hd_token bind get_env required ret].
  rewrite user_message_complete.
  cbv beta iota zeta delta [action_of ca_value av_requestId av_decision].
  destruct (truthy (LARK_VERIFICATION_TOKEN (w_env w))); cbn [andb negb].
  - destruct (Callback.verifyEventToken _ _); cbn [negb]; [|reflexivity].
    destruct (_ || _)%bool; [reflexivity|].
    destruct (parse_decision _) as [[| |]|]; try reflexivity.
    unfold blank. destruct (submitted_text c) as [s|]; reflexivity.
  - destruct (_ || _)%bool; [reflexivity|].
    destruct (parse_decision _) as [[| |]|]; try reflexivity.
    unfold blank. destruct (submitted_text c) as [s|]; reflexivity.
Qed.

Lemma handler_complete (req : Request CallbackBody) (c : LarkCardCallback)
    (w : World) :
  body req = with_header c ->
  Callback.handler req w =
    (if negb (streq (method req) (str "POST")) then
       respond 405 (ErrorObject (str "Method not allowed"))
     else
       try_catch
         (if streq (event_type c) (str "card.action.trigger")
          then complete_card_action c
          else respond 200 EmptyObject)
         (fun _ => respond 500 (ErrorObject (str "Internal server error")))) w.
Proof.
  intros Hbody. unfold Callback.handler. rewrite Hbody.
  destruct (negb (streq (method req) _)); [reflexivity|].
  unfold try_catch, with_header, read_body.
  unfold bind at 1. unfold ret at 1.
  cbn [card_object cb_type cb_header is_string hd_event_type].
  destruct (streq (event_type c) _); [|reflexivity].
  rewrite handleCardAction_complete. reflexivity.
Qed.

(** C7: a card action carrying a message decision whose text is absent,
    empty or white space only changes nothing (no store operation, no call
    to the gateway); once past the token gate and carrying a request id, it
    is answered over HTTP 200 by the warning toast. *)
Theorem blank_message_rejected_in_band (req : Request CallbackBody)
    (c : LarkCardCallback) (w : World)
    (Haction : body req = with_header c)
    (Hkind : value_decision c = Some (str "message"))
    (Htext : text_missing (submitted_text c)) :
  snd (Callback.handler req w) = w /\
  (method req = str "POST" ->
   event_type c = str "card.action.trigger" ->
   token_accepted (w_env w) c ->
   truthy (value_requestId c) = true ->
   fst (Callback.handler req w) =
     Ok {| code := 200;
           json := Toast toast_warning (str "Please enter a message") |}).
Proof.
  apply blank_missing in Htext.
  assert (forall w, complete_card_action c w =
            if (truthy (LARK_VERIFICATION_TOKEN (w_env w))
                && negb (Callback.verifyEventToken (header_token c)
                           (unwrap (LARK_VERIFICATION_TOKEN (w_env w)))))%bool
            then (Ok {| code := 401;
                        json := ErrorObject (str "Invalid event token") |}, w)
            else if negb (truthy (value_requestId c))
            then (Ok {| code := 200; json := EmptyObject |}, w)
            else (Ok {| code := 200;
                        json := Toast toast_warning (str "Please enter a message") |},
                  w)) as Hcard.
  { intros w0. unfold complete_card_action, bind, get_env, respond, ret.
    rewrite Hkind. simpl.
    destruct (_ && _)%bool; [reflexivity|].
    destruct (truthy (value_requestId c)); simpl; [|reflexivity].
    change (parse_decision (str "message")) with (Some Decision.message).
    simpl. rewrite Htext. reflexivity. }
  rewrite !(handler_complete req c w Haction).
  unfold try_catch, respond, ret.
  split.
  - destruct (negb (streq (method req) _)); [reflexivity|].
    destruct (streq (event_type c) _); [|reflexivity].
    rewrite Hcard. destruct (_ && _)%bool; [reflexivity|].
    destruct (negb _); reflexivity.
  - intros Hm He Htok Hid. unfold streq. rewrite Hm, He.
    rewrite !bool_decide_eq_true_2 by done. simpl.
    rewrite Hcard, (token_gate_open _ _ Htok), Hid. reflexivity.
Qed.

(** ** Validation at the create endpoint *)

Lemma verifyApiKey_pure (auth : option jsstring) (w : World) :
  exists b, verifyApiKey auth w = (Ok b, w).
Proof. eexists. reflexivity. Qed.

(** A create request without [tool] or without [workingDirectory] creates
    nothing: it is answered with [success: false] and the world is left as
    it was (no request id is drawn, no record is written, nothing is sent).
    When the request has a body the answer is a 4xx, and past the method and
    key checks the 400 validation error; when it has none, past those checks
    the answer is 500 with the message of the [TypeError]. *)
Lemma notify_missing_fields_create_nothing
    (req : Request (Payload NotifyRequest)) (w : World)
    (Hmissing : required_missing (fields req)) :
  exists (c : Z) (e : jsstring),
    Notify.handler req w =
      (Ok {| code := c; json := ApiResponse false None (Some e) |}, w) /\
    ((exists b, body req = body_of b) ->
     400 <= c < 500 /\
     (method req = str "POST" ->
      api_key_ok (w_env w) (authorization req) = true ->
      c = 400 /\ e = str "Missing required fields: tool, workingDirectory")) /\
    (forall of_null : bool,
     body req = (if of_null then body_null else body_undefined) ->
     method req = str "POST" ->
     api_key_ok (w_env w) (authorization req) = true ->
     c = 500 /\ e = cannot_read of_null "tool").
Proof.
  unfold Notify.handler, api_error, respond, ret, streq.
  destruct (decide (method req = str "POST")) as [Hm|Hm].
  - rewrite bool_decide_eq_true_2 by done. simpl.
    unfold bind at 1. unfold verifyApiKey, bind, get_env, ret.
    destruct (api_key_ok (w_env w) (authorization req)); simpl.
    + unfold try_catch, read_body, throw, ret.
      unfold fields in Hmissing.
      destruct (body req) as [| |b] eqn:Hb.
      * eexists _, _. split; [reflexivity|]. split.
        -- intros [b0 Hb0]. discriminate.
        -- intros [|] Hn _ _; [discriminate|]. split; reflexivity.
      * eexists _, _. split; [reflexivity|]. split.
        -- intros [b0 Hb0]. discriminate.
        -- intros [|] Hn _ _; [|discriminate]. split; reflexivity.
      * assert ((negb (truthy (n_tool b))
                 || negb (truthy (n_workingDirectory b)))%bool = true) as ->.
        { destruct Hmissing as [-> | ->]; [reflexivity|apply orb_true_r]. }
        eexists _, _. split; [reflexivity|]. split.
        -- intros _. split; [lia|]. auto.
        -- intros [|] H; discriminate.
    + eexists _, _. split; [reflexivity|]. split.
      * intros _. split; [lia|]. intros _ H. discriminate.
      * intros n0 _ _ H. discriminate.
  - rewrite bool_decide_eq_false_2 by done. simpl.
    eexists _, _. split; [reflexivity|]. split.
    + intros _. split; [lia|]. intros H. done.
    + intros n0 _ H. done.
Qed.

(** C9: a create request without [tool] or [workingDirectory] is to be
    answered by a validation error, a 4xx.  The handler tests the two fields
    and answers 400 when the body lacks one; but a request without any body
    lacks both and is answered 500, with the message of the [TypeError] that
    the test itself throws on [undefined]. *)
Theorem notify_without_body_answers_500 :
  let w := fresh_world env_memory 0 [] [] in
  let req := {| method := str "POST"; authorization := None;
                body := @body_undefined NotifyRequest |} in
  required_missing (fields req) /\
  Notify.handler req w =
    (Ok {| code := 500;
           json := ApiResponse false None
             (Some (str "Cannot read properties of undefined (reading 'tool')")) |},
     w) /\
  required_missing (fields sample_create_no_tool) /\
  Notify.handler sample_create_no_tool w =
    (Ok {| code := 400;
           json := ApiResponse false None
             (Some (str "Missing required fields: tool, workingDirectory")) |},
     w).
Proof.
  split; [left; reflexivity|]. split; [reflexivity|].
  split; [left; reflexivity|]. reflexivity.
Qed.

(** ** Rules for specifications *)

Lemma triple_ret {A} (P : World -> Prop) (a : A) (Q : A -> World -> Prop) E :
  (forall w, P w -> Q a w) -> triple P (ret a) Q E.
Proof. intros H w Hw. simpl. auto. Qed.

Lemma triple_bind {A B} (P : World -> Prop) (m : M A) (k : A -> M B)
    (Q1 : A -> World -> Prop) (Q2 : B -> World -> Prop) E :
  triple P m Q1 E -> (forall a, triple (Q1 a) (k a) Q2 E) ->
  triple P (bind m k) Q2 E.
Proof.
  intros Hm Hk w Hw. specialize (Hm w Hw). unfold bind.
  destruct (m w) as [[a|e] w']; [apply Hk, Hm|exact Hm].
Qed.

Lemma triple_try_catch {A} (P : World -> Prop) (m : M A) (h : jsstring -> M A)
    (Q : A -> World -> Prop) E1 E2 :
  triple P m Q E1 -> (forall e, triple E1 (h e) Q E2) ->
  triple P (try_catch m h) Q E2.
Proof.
  intros Hm Hh w Hw. specialize (Hm w Hw). unfold try_catch.
  destruct (m w) as [[a|e] w']; [exact Hm|apply Hh, Hm].
Qed.

Lemma triple_weaken {A} (P P' : World -> Prop) (m : M A)
    (Q Q' : A -> World -> Prop) (E E' : World -> Prop) :
  triple P m Q E -> (forall w, P' w -> P w) ->
  (forall a w, Q a w -> Q' a w) -> (forall w, E w -> E' w) ->
  triple P' m Q' E'.
Proof.
  intros Hm HP HQ HE w Hw. specialize (Hm w (HP w Hw)).
  destruct (m w) as [[a|e] w']; auto.
Qed.

Lemma keeps_ret {A} (I : World -> Prop) (a : A) (R : A -> Prop) :
  R a -> keeps I (ret a) R.
Proof. intros H. apply triple_ret. auto. Qed.

Lemma keeps_bind {A B} (I : World -> Prop) (m : M A) (k : A -> M B)
    (R1 : A -> Prop) (R2 : B -> Prop) :
  keeps I m R1 -> (forall a, R1 a -> keeps I (k a) R2) ->
  keeps I (bind m k) R2.
Proof.
  intros Hm Hk. eapply triple_bind; [exact Hm|].
  intros a w [Hw Ha]. apply (Hk a Ha w Hw).
Qed.

Lemma keeps_try_catch {A} (I : World -> Prop) (m : M A) (h : jsstring -> M A)
    (R : A -> Prop) :
  keeps I m R -> (forall e, keeps I (h e) R) -> keeps I (try_catch m h) R.
Proof. intros Hm Hh. eapply triple_try_catch; [exact Hm|exact Hh]. Qed.

Lemma keeps_weaken {A} (I : World -> Prop) (m : M A) (R R' : A -> Prop) :
  keeps I m R -> (forall a, R a -> R' a) -> keeps I m R'.
Proof.
  intros Hm H. eapply triple_weaken; [exact Hm|auto| |auto].
  intros a w [? ?]. auto.
Qed.

Lemma keeps_snd {A} (I : World -> Prop) (m : M A) (R : A -> Prop) (w : World) :
  keeps I m R -> I w -> I (snd (m w)).
Proof.
  intros Hm Hw. specialize (Hm w Hw).
  destruct (m w) as [[a|e] w']; simpl; tauto.
Qed.

(** A computation that leaves the world alone keeps every invariant. *)
Lemma keeps_pure {A} (I : World -> Prop) (m : M A) :
  (forall w, exists a, m w = (Ok a, w)) -> keeps I m (fun _ => True).
Proof. intros H w Hw. destruct (H w) as [a ->]. auto. Qed.

Lemma keeps_throw {A} (I : World -> Prop) (e : jsstring) (R : A -> Prop) :
  keeps I (throw e) R.
Proof. intros w Hw. exact Hw. Qed.

Lemma keeps_read_body {B} (I : World -> Prop) (p : Payload B) (prop : string) :
  keeps I (read_body p prop) (fun _ => True).
Proof.
  destruct p; [apply keeps_throw|apply keeps_throw|by apply keeps_ret].
Qed.

Lemma keeps_required {A} (I : World -> Prop) (o : option A) (e : jsstring) :
  keeps I (required o e) (fun _ => True).
Proof. destruct o; [by apply keeps_ret|apply keeps_throw]. Qed.

(** ** No operation adds a description *)

Lemma no_description_mem_insert (w w' : World) (id : jsstring) (r : StoredRequest)
    (tm : gmap jsstring Timer) :
  no_description w -> undescribed r ->
  w_kv w' = w_kv w -> w_cards w' = w_cards w ->
  w_mem w' = {| store := <[id := r]> (store (w_mem w)); timers := tm |} ->
  no_description w'.
Proof.
  intros (Hm & Hk & Hc) Hr Ekv Ecards Emem. unfold no_description.
  rewrite Ekv, Ecards, Emem. simpl. split; [|auto].
  intros i x Hx. apply lookup_insert_Some in Hx.
  destruct Hx as [[_ <-]|[_ Hx]]; eauto.
Qed.

Lemma no_description_kv_insert (w w' : World) (key : jsstring) (r : StoredRequest)
    (dl : Z) :
  no_description w -> undescribed r ->
  w_mem w' = w_mem w -> w_cards w' = w_cards w ->
  w_kv w' = <[key := (r, dl)]> (w_kv w) ->
  no_description w'.
Proof.
  intros (Hm & Hk & Hc) Hr Emem Ecards Ekv. unfold no_description.
  rewrite Ekv, Ecards, Emem. split; [auto|split; [|auto]].
  intros i x d Hx. apply lookup_insert_Some in Hx.
  destruct Hx as [[_ E]|[_ Hx]]; [congruence|eauto].
Qed.

Lemma no_description_frame (w w' : World) :
  no_description w ->
  w_mem w' = w_mem w -> w_kv w' = w_kv w -> w_cards w' = w_cards w ->
  no_description w'.
Proof. unfold no_description. intros H -> -> ->. exact H. Qed.

Ltac nd_frame := eapply no_description_frame; [eassumption|reflexivity..].
Ltac nd_mem := eapply no_description_mem_insert;
  [eassumption| |reflexivity|reflexivity|reflexivity].
Ltac nd_kv := eapply no_description_kv_insert;
  [eassumption| |reflexivity|reflexivity|reflexivity].

Section NoDescription.

Implicit Types (id : jsstring) (w : World).

Lemma nd_Date_now : keeps no_description Date_now (fun _ => True).
Proof. intros w H. simpl. split; [nd_frame|exact I]. Qed.

Lemma nd_randomUUID : keeps no_description randomUUID (fun _ => True).
Proof. intros w H. simpl. split; [nd_frame|exact I]. Qed.

Lemma nd_get_env : keeps no_description get_env (fun _ => True).
Proof. intros w H. simpl. auto. Qed.

Lemma nd_createLarkClient : keeps no_description createLarkClient (fun _ => True).
Proof.
  intros w H. unfold createLarkClient, bind, get_env, throw, ret.
  destruct (_ || _)%bool; auto.
Qed.

Lemma nd_lark_call (c : LarkCall) :
  description (card_request c) = None ->
  keeps no_description (lark_call c) (fun _ => True).
Proof.
  intros Hc w (Hm & Hk & Hcs). unfold lark_call.
  assert (no_description (set_lark (tl (w_lark w)) (c :: w_cards w) w)) as H.
  { unfold no_description. simpl. repeat split; auto.
    intros c' [<-|Hin]; auto. }
  destruct (w_lark w) as [|[mid|] l]; simpl in *; auto.
Qed.

Lemma nd_mem_get id :
  keeps no_description (MemoryStore.get id) undescribed_opt.
Proof.
  intros w H. pose proof H as (Hm & _).
  unfold MemoryStore.get, bind, get_mem, put_mem, Date_now, ret. simpl.
  destruct (store (w_mem w) !! id) as [r|] eqn:Hr; [|split; [done|by intros ?]].
  specialize (Hm _ _ Hr).
  destruct (Status.eqb (status r) Status.pending); simpl;
    [|split; [done|intros ? [= <-]; done]].
  destruct (expiresAt (request r) <=? next_now w); simpl.
  - split; [nd_mem; exact Hm|intros ? [= <-]; exact Hm].
  - split; [nd_frame|intros ? [= <-]; exact Hm].
Qed.

Lemma nd_mem_set id (data : StoredRequest) :
  undescribed data ->
  keeps no_description (MemoryStore.set id data) (fun _ => True).
Proof.
  intros Hd w H.
  unfold MemoryStore.set, bind, get_mem, put_mem, Date_now, ret. simpl.
  split; [nd_mem; exact Hd|exact I].
Qed.

Lemma nd_mem_setDecision id d by_ msg :
  keeps no_description (MemoryStore.setDecision id d by_ msg) (fun _ => True).
Proof.
  intros w H. pose proof H as (Hm & _).
  unfold MemoryStore.setDecision, bind, get_mem, put_mem, Date_now, ret. simpl.
  destruct (store (w_mem w) !! id) as [r|] eqn:Hr; [|done].
  specialize (Hm _ _ Hr).
  destruct (Status.eqb (status r) Status.pending); simpl; [|done].
  destruct (expiresAt (request r) <=? next_now w); simpl;
    (split; [nd_mem; exact Hm|exact I]).
Qed.

Lemma nd_mem_setExpired id :
  keeps no_description (MemoryStore.setExpired id) (fun _ => True).
Proof.
  intros w H. pose proof H as (Hm & _).
  unfold MemoryStore.setExpired, bind, get_mem, put_mem, ret. simpl.
  destruct (store (w_mem w) !! id) as [r|] eqn:Hr; [|done].
  specialize (Hm _ _ Hr).
  destruct (Status.eqb (status r) Status.pending); simpl; [|done].
  split; [nd_mem; exact Hm|exact I].
Qed.

Lemma nd_mem_handleExpiration id :
  keeps no_description (MemoryStore.handleExpiration id) (fun _ => True).
Proof.
  intros w H. pose proof H as (Hm & Hk & Hc).
  unfold MemoryStore.handleExpiration, bind, get_mem, put_mem, ret. simpl.
  split; [|exact I].
  destruct (store (w_mem w) !! id) as [r|] eqn:Hr.
  - specialize (Hm _ _ Hr).
    destruct (Status.eqb (status r) Status.pending).
    + nd_mem. exact Hm.
    + unfold no_description. simpl. auto.
  - unfold no_description. simpl. pose proof H as (? & _). auto.
Qed.

Lemma nd_kv_get id :
  keeps no_description (KVStore.get id) undescribed_opt.
Proof.
  intros w H. pose proof H as (_ & Hk & _).
  unfold KVStore.get, kv.get, bind, Date_now. simpl.
  destruct (w_kv w !! KVStore.getKey id) as [[r dl]|] eqn:Hr;
    [|split; [nd_frame|by intros ?]].
  specialize (Hk _ _ _ Hr).
  destruct (dl <=? next_now w);
    (split; [nd_frame|intros ? [= <-] || (by intros ?); exact Hk]).
Qed.

Lemma nd_kv_set id (data : StoredRequest) :
  undescribed data ->
  keeps no_description (KVStore.set id data) (fun _ => True).
Proof.
  intros Hd w H. unfold KVStore.set, kv.set, bind, Date_now. simpl.
  split; [nd_kv; exact Hd|exact I].
Qed.

Lemma nd_kv_setDecision id d by_ :
  keeps no_description (KVStore.setDecision id d by_) (fun _ => True).
Proof.
  eapply keeps_bind; [apply nd_kv_get|]. intros [r|] Hr; [|by apply keeps_ret].
  specialize (Hr r eq_refl).
  destruct (negb _); [by apply keeps_ret|].
  intros w H. unfold kv.set, bind, Date_now, ret. simpl.
  split; [nd_kv; exact Hr|exact I].
Qed.

Lemma nd_kv_setExpired id :
  keeps no_description (KVStore.setExpired id) (fun _ => True).
Proof.
  eapply keeps_bind; [apply nd_kv_get|]. intros [r|] Hr; [|by apply keeps_ret].
  specialize (Hr r eq_refl).
  destruct (negb _); [by apply keeps_ret|].
  intros w H. unfold kv.set, bind, Date_now, ret. simpl.
  split; [nd_kv; exact Hr|exact I].
Qed.

End NoDescription.

(** ** The endpoints add no description *)

Lemma nd_getStore : keeps no_description getStore a_backend.
Proof.
  intros w H. unfold getStore, bind, get_env, ret, a_backend. simpl.
  destruct (uses_kv (w_env w)); auto.
Qed.

Lemma nd_store_get (s : RequestStore.t) id :
  a_backend s -> keeps no_description (RequestStore.get s id) undescribed_opt.
Proof. intros [-> | ->]; [apply nd_kv_get|apply nd_mem_get]. Qed.

Lemma nd_store_set (s : RequestStore.t) id (data : StoredRequest) :
  a_backend s -> undescribed data ->
  keeps no_description (RequestStore.set s id data) (fun _ => True).
Proof. intros [-> | ->]; [apply nd_kv_set|apply nd_mem_set]. Qed.

Lemma nd_store_setDecision (s : RequestStore.t) id d by_ msg :
  a_backend s ->
  keeps no_description (RequestStore.setDecision s id d by_ msg) (fun _ => True).
Proof. intros [-> | ->]; [apply nd_kv_setDecision|apply nd_mem_setDecision]. Qed.

Lemma nd_store_setExpired (s : RequestStore.t) id :
  a_backend s -> keeps no_description (RequestStore.setExpired s id) (fun _ => True).
Proof. intros [-> | ->]; [apply nd_kv_setExpired|apply nd_mem_setExpired]. Qed.

Lemma nd_verifyApiKey auth : keeps no_description (verifyApiKey auth) (fun _ => True).
Proof. apply keeps_pure. intros w. apply verifyApiKey_pure. Qed.

Lemma nd_respond c b : keeps no_description (respond c b) (fun _ => True).
Proof. by apply keeps_ret. Qed.

Lemma nd_api_error c e : keeps no_description (api_error c e) (fun _ => True).
Proof. by apply keeps_ret. Qed.

Ltac nd_step :=
  first
    [ apply nd_respond
    | apply nd_api_error
    | apply keeps_ret; exact I
    | eapply keeps_bind;
      [ first [ apply nd_verifyApiKey | apply nd_randomUUID | apply nd_Date_now
              | apply nd_get_env | apply nd_getStore | apply nd_createLarkClient ]
      | intros ? ? ] ].

Lemma nd_notify_handler (req : Request (Payload NotifyRequest)) :
  keeps no_description (Notify.handler req) (fun _ => True).
Proof.
  unfold Notify.handler.
  destruct (negb (streq (method req) _)); [nd_step|].
  nd_step. destruct (negb a); [nd_step|].
  apply keeps_try_catch; [|intros e; nd_step].
  eapply keeps_bind; [apply keeps_read_body|]. intros b _.
  destruct (_ || _)%bool; [nd_step|].
  do 5 nd_step.
  eapply keeps_bind; [apply nd_lark_call; reflexivity|]. intros mid _.
  eapply keeps_bind; [apply nd_store_set; [assumption|reflexivity]|].
  intros _ _. nd_step.
Qed.

Lemma nd_status_handler (req : Request QueryParam) :
  keeps no_description (StatusApi.handler req) (fun _ => True).
Proof.
  unfold StatusApi.handler.
  destruct (negb (streq (method req) _)); [nd_step|].
  nd_step. destruct (negb a); [nd_step|].
  apply keeps_try_catch; [|intros e; nd_step].
  destruct (body req) as [|[|c s]|l]; try nd_step.
  eapply keeps_bind; [apply nd_store_get; assumption|]. intros [r|] Hr; [|nd_step].
  eapply keeps_bind with (R1 := fun _ => True).
  - destruct (Status.eqb _ _); [|nd_step]. nd_step. nd_step.
  - intros due _. destruct due; [|nd_step].
    eapply keeps_bind; [apply nd_store_setExpired; assumption|].
    intros _ _. nd_step.
Qed.

Lemma nd_callback_process id d open_id msg :
  keeps no_description (Callback.process id d open_id msg) (fun _ => True).
Proof.
  unfold Callback.process. nd_step.
  eapply keeps_bind; [apply nd_store_get; assumption|]. intros [r|] Hr; [|nd_step].
  specialize (Hr r eq_refl).
  destruct (negb _); [nd_step|]. nd_step.
  destruct (_ <=? _).
  - eapply keeps_bind; [apply nd_store_setExpired; assumption|]. intros _ _.
    eapply keeps_bind with (R1 := fun _ => True); [|intros _ _; nd_step].
    destruct (truthy _); [|nd_step]. nd_step.
    unfold updateAsExpired.
    eapply keeps_bind; [apply nd_lark_call; exact Hr|]. intros _ _. nd_step.
  - eapply keeps_bind; [apply keeps_required|]. intros op _.
    eapply keeps_bind; [apply nd_store_setDecision; assumption|].
    intros ok _. destruct (negb ok); [nd_step|].
    eapply keeps_bind with (R1 := fun _ => True);
      [|intros _ _; destruct d; nd_step].
    destruct (truthy _); [|nd_step]. nd_step.
    unfold updateWithDecision.
    eapply keeps_bind; [apply nd_lark_call; exact Hr|]. intros _ _. nd_step.
Qed.

Lemma nd_callback_handler (req : Request CallbackBody) :
  keeps no_description (Callback.handler req) (fun _ => True).
Proof.
  unfold Callback.handler.
  destruct (negb (streq (method req) _)); [nd_step|].
  apply keeps_try_catch; [|intros e; nd_step].
  eapply keeps_bind; [apply keeps_read_body|]. intros b _.
  destruct (is_string (cb_type b) _).
  - unfold Callback.handleUrlVerification. nd_step.
    destruct (_ && _)%bool; nd_step.
  - destruct (match cb_header b with Some _ => _ | None => _ end); [|nd_step].
    unfold Callback.handleCardAction. nd_step.
    eapply keeps_bind with (R1 := fun _ => True).
    { destruct (truthy _); [|nd_step].
      eapply keeps_bind; [apply keeps_required|]. intros h _. nd_step. }
    intros refused _. destruct refused; [nd_step|].
    eapply keeps_bind; [apply keeps_required|]. intros ev _.
    eapply keeps_bind; [apply keeps_required|]. intros action _.
    eapply keeps_bind; [apply keeps_required|]. intros v _.
    destruct (_ || _)%bool; [nd_step|].
    destruct (parse_decision _) as [d|]; [|nd_step].
    destruct d.
    + apply keeps_try_catch; [apply nd_callback_process|intros e; nd_step].
    + apply keeps_try_catch; [apply nd_callback_process|intros e; nd_step].
    + destruct (user_message action) as [|s|[|]];
        [nd_step| |apply keeps_throw|nd_step].
      destruct (blank _); [nd_step|].
      apply keeps_try_catch; [apply nd_callback_process|intros e; nd_step].
Qed.

Lemma nd_invoke (i : Invocation) (w : World) :
  no_description w -> no_description (invoke i w).
Proof.
  intros H. destruct i; unfold invoke.
  - exact (keeps_snd _ _ _ _ (nd_notify_handler req) H).
  - exact (keeps_snd _ _ _ _ (nd_status_handler req) H).
  - exact (keeps_snd _ _ _ _ (nd_callback_handler req) H).
  - exact (keeps_snd _ _ _ _ (nd_mem_handleExpiration id) H).
Qed.

Lemma nd_invoke_all (l : list Invocation) (w : World) :
  no_description w -> no_description (invoke_all l w).
Proof.
  revert w. induction l as [|i l IH]; intros w H; [exact H|].
  simpl. apply IH, nd_invoke, H.
Qed.

(** What a successful create request leaves behind. *)
Lemma notify_created (req : Request (Payload NotifyRequest)) (w w' : World)
    (resp : Response) :
  Notify.handler req w = (Ok resp, w') -> code resp = 200 ->
  exists (pr : PermissionRequest) (mid : jsstring),
    description pr = None /\
    tool pr = unwrap (n_tool (fields req)) /\
    command pr = n_command (fields req) /\
    json resp =
      ApiResponse true (Some (NotifyResponse (requestId pr) (expiresAt pr))) None /\
    w_cards w' = SendPermissionRequest pr :: w_cards w /\
    stored_record (requestId pr) w' =
      Some {| request := pr; status := Status.pending; decision := None;
              larkMessageId := Some mid; createdAt := timestamp pr |}.
Proof.
  unfold Notify.handler, api_error, respond, ret.
  destruct (negb (streq (method req) _)); [intros [= <- <-]; discriminate|].
  destruct (verifyApiKey_pure (authorization req) w) as [b Hv].
  unfold bind at 1. rewrite Hv.
  destruct b; simpl; [|intros [= <- <-]; discriminate].
  unfold try_catch, fields.
  unfold bind at 1. unfold read_body, throw.
  destruct (body req) as [| |b0]; [intros [= <- <-]; discriminate..|].
  unfold ret. cbv beta iota.
  destruct (_ || _)%bool; [intros [= <- <-]; discriminate|].
  unfold bind at 1. unfold randomUUID at 1.
  unfold bind at 1. unfold Date_now at 1.
  unfold bind at 1. unfold get_env at 1.
  unfold bind at 1. unfold getStore, bind, get_env, ret.
  cbn [w_env set_clock set_uuid_next w_ticks w_now w_uuid w_uuid_next].
  unfold createLarkClient, bind, get_env, throw, ret.
  cbn [w_env set_clock set_uuid_next].
  destruct (uses_kv (w_env w)) eqn:Hkv;
    (destruct (_ || _)%bool; [intros [= <- <-]; discriminate|]);
    unfold sendPermissionRequest, lark_call;
    cbn [w_lark set_clock set_uuid_next w_cards];
    (destruct (w_lark w) as [|[mid|] l]; try (intros [= <- <-]; discriminate)).
  - cbn [RequestStore.set createKVStore].
    unfold KVStore.set, kv.set, bind, Date_now. cbn.
    intros [= <- <-] _. eexists _, mid.
    repeat match goal with |- _ /\ _ => split end.
    5: reflexivity. 1-4: reflexivity.
    unfold stored_record, kv_record. cbn [w_env set_kv set_lark set_clock set_uuid_next w_kv requestId].
    rewrite Hkv, lookup_insert_eq. reflexivity.
  - cbn [RequestStore.set getMemoryStore].
    unfold MemoryStore.set, bind, get_mem, put_mem, Date_now. cbn.
    intros [= <- <-] _. eexists _, mid.
    repeat match goal with |- _ /\ _ => split end.
    5: reflexivity. 1-4: reflexivity.
    unfold stored_record, mem_record. cbn [w_env set_mem set_lark set_clock set_uuid_next w_mem store requestId].
    rewrite Hkv, lookup_insert_eq. reflexivity.
Qed.

(** C10: the stored request has no description.  Whatever the body of a
    create request holds, the request that is put on the card and stored has
    no description; and in a deployment whose stores hold no description to
    begin with (a fresh one, for instance) no later invocation brings one
    in: every record a store returns, and every card sent, is without. *)
Theorem stored_request_has_no_description (w0 : World)
    (history : list Invocation) (Hinit : no_description w0) :
  let w := invoke_all history w0 in
  (forall (req : Request (Payload NotifyRequest)) (resp : Response) (w' : World),
      Notify.handler req w = (Ok resp, w') -> code resp = 200 ->
      exists (pr : PermissionRequest) (mid : jsstring),
        description pr = None /\
        tool pr = unwrap (n_tool (fields req)) /\
        command pr = n_command (fields req) /\
        json resp =
          ApiResponse true
            (Some (NotifyResponse (requestId pr) (expiresAt pr))) None /\
        w_cards w' = SendPermissionRequest pr :: w_cards w /\
        stored_record (requestId pr) w' =
          Some {| request := pr; status := Status.pending; decision := None;
                  larkMessageId := Some mid; createdAt := timestamp pr |}) /\
  no_description w /\
  (forall (id : jsstring) (s : RequestStore.t) (r : StoredRequest) (w' : World),
      fst (getStore w) = Ok s ->
      RequestStore.get s id w = (Ok (Some r), w') ->
      description (request r) = None).
Proof.
  intros w. split; [|split].
  - intros req resp w'. apply notify_created.
  - apply nd_invoke_all, Hinit.
  - intros id s r w' Hs Hget.
    pose proof (nd_invoke_all history w0 Hinit) as Hw. fold w in Hw.
    pose proof (nd_getStore w Hw) as Hb.
    destruct (getStore w) as [[s'|e] w1] eqn:E; simpl in Hs; [|discriminate].
    injection Hs as ->. destruct Hb as [_ Hb].
    pose proof (nd_store_get s id Hb w Hw) as Hg. rewrite Hget in Hg.
    destruct Hg as [_ Hg]. apply (Hg r eq_refl).
Qed.

(** ** Running computations step by step *)

Lemma bind_ok {A B} (m : M A) (k : A -> M B) (w w' : World) (a : A) :
  m w = (Ok a, w') -> bind m k w = k a w'.
Proof. intros H. unfold bind. rewrite H. reflexivity. Qed.

Lemma try_catch_ok {A} (m : M A) (h : jsstring -> M A) (w w' : World) (a : A) :
  m w = (Ok a, w') -> try_catch m h w = (Ok a, w').
Proof. intros H. unfold try_catch. rewrite H. reflexivity. Qed.

Lemma getStore_eq (w : World) :
  getStore w =
    (Ok (if uses_kv (w_env w) then createKVStore else getMemoryStore), w).
Proof. unfold getStore, bind, get_env, ret. destruct (uses_kv _); reflexivity. Qed.

Lemma streq_refl (s : jsstring) : streq s s = true.
Proof. unfold streq. apply bool_decide_eq_true_2. reflexivity. Qed.

Lemma parse_to_string (d : Decision.t) :
  parse_decision (Decision.to_string d) = Some d.
Proof. destruct d; reflexivity. Qed.

Lemma truthy_to_string (d : Decision.t) :
  truthy (Some (Decision.to_string d)) = true.
Proof. destruct d; reflexivity. Qed.

(** A card action that reaches the store runs [process] under its [try]. *)
Lemma handler_reaches_store (id : jsstring) (c : LarkCardCallback) (w : World) :
  id <> [] -> reaches_store (w_env w) id c ->
  exists (d : Decision.t) (msg : option jsstring),
    Callback.handler (callback_request c) w =
      try_catch
        (try_catch (Callback.process id d (operator_of c) msg)
           (fun _ => respond 200
                       (Toast toast_error (str "Failed to process action"))))
        (fun _ => respond 500 (ErrorObject (str "Internal server error"))) w.
Proof.
  intros Hid (Hev & Htok & Hreq & d & Hdec & Hmsg).
  exists d, (match d with
             | Decision.message => Some (trim (unwrap (submitted_text c)))
             | _ => None
             end).
  rewrite (handler_complete (callback_request c) c w eq_refl).
  unfold callback_request.
  cbn [method]. rewrite streq_refl. cbn [negb]. rewrite Hev, streq_refl.
  unfold try_catch at 1 3. f_equal.
  unfold complete_card_action.
  erewrite bind_ok by reflexivity. cbn [w_env].
  rewrite (token_gate_open _ _ Htok), Hreq, Hdec, truthy_to_string.
  destruct id as [|ch id]; [done|]. cbn [truthy negb orb unwrap].
  rewrite parse_to_string.
  destruct d; try reflexivity.
  rewrite (Hmsg eq_refl). reflexivity.
Qed.

(** ** Touching a lapsed request in the volatile backend *)

Lemma mem_expired_lapsed e id w : mem_expired e id w -> mem_lapsed e id w.
Proof.
  intros (He & r & Hr & Hs & Hexp). split; [exact He|].
  exists r. unfold undecided. auto.
Qed.

Lemma mem_get_lapsed e id (w : World) :
  mem_lapsed e id w ->
  exists r' w',
    MemoryStore.get id w = (Ok (Some r'), w') /\
    store (w_mem w') !! id = Some r' /\ status r' = Status.expired /\
    mem_expired e id w'.
Proof.
  intros (He & r & Hr & Hs & Hexp).
  pose proof (next_now_ge w) as Hge.
  unfold MemoryStore.get, bind, get_mem, put_mem, Date_now, ret. simpl.
  rewrite Hr. destruct Hs as [Hs|Hs]; rewrite Hs; simpl.
  - destruct (Z.leb_spec (expiresAt (request r)) (next_now w)); [|lia].
    eexists _, _. split; [reflexivity|]. simpl. rewrite lookup_insert_eq.
    split; [reflexivity|]. split; [reflexivity|].
    split; [exact He|]. eexists. simpl. rewrite lookup_insert_eq.
    split; [reflexivity|]. simpl. split; [reflexivity|lia].
  - eexists _, _. split; [reflexivity|]. split; [exact Hr|]. split; [exact Hs|].
    split; [exact He|]. eauto.
Qed.

Lemma mem_touch_expired e id (t : Touch) (w : World) :
  uses_kv e = false -> id <> [] -> valid_touch e id t -> mem_lapsed e id w ->
  exists w', touch id t w = (Ok (Some Status.expired), w') /\ mem_expired e id w'.
Proof.
  intros Hkv Hid Hvalid Hw. pose proof Hw as (He & _).
  destruct (mem_get_lapsed e id w Hw) as (r' & w' & Hget & Hr' & Hs' & Hw').
  pose proof Hw' as (He' & _).
  exists w'. split; [|exact Hw'].
  destruct t as [|auth|c]; unfold touch.
  - erewrite bind_ok by apply getStore_eq; cbv beta iota. rewrite He, Hkv.
    erewrite bind_ok by exact Hget; cbv beta iota. simpl. rewrite Hs'. reflexivity.
  - simpl in Hvalid.
    assert (StatusApi.handler (poll_request id auth) w =
            (Ok {| code := 200;
                   json := ApiResponse true
                     (Some (StatusData
                        match decision r' with
                        | Some d =>
                            {| sr_status := known (status r');
                               sr_decision := Some (d_decision d);
                               sr_message := if truthy (d_message d)
                                             then d_message d else None;
                               sr_respondedAt := Some (respondedAt d) |}
                        | None =>
                            {| sr_status := known (status r');
                               sr_decision := None;
                               sr_message := None;
                               sr_respondedAt := None |}
                        end)) None |}, w')) as Hpoll.
    { unfold StatusApi.handler, poll_request. cbn [method authorization body].
      rewrite streq_refl. cbn [negb].
      erewrite bind_ok by reflexivity; cbv beta iota. rewrite He, Hvalid. cbn [negb].
      apply try_catch_ok. destruct id as [|ch id]; [done|].
      erewrite bind_ok by apply getStore_eq; cbv beta iota. rewrite He, Hkv.
      erewrite bind_ok by exact Hget; cbv beta iota.
      rewrite Hs'. cbn [Status.eqb].
      erewrite bind_ok by reflexivity; cbv beta iota. reflexivity. }
    erewrite bind_ok by exact Hpoll.
    unfold ret, reported_status. cbn [json].
    destruct (decision r'); cbn [sr_status]; rewrite Hs'; reflexivity.
  - simpl in Hvalid. rewrite <- He in Hvalid.
    destruct (handler_reaches_store id c w Hid Hvalid) as (d & msg & Hh).
    assert (Callback.process id d (operator_of c) msg w =
            (Ok {| code := 200;
                   json := Toast toast_info
                     (str "Request already " ++ Status.to_string (status r')) |},
             w')) as Hp.
    { unfold Callback.process.
      erewrite bind_ok by apply getStore_eq; cbv beta iota. rewrite He, Hkv.
      erewrite bind_ok by exact Hget; cbv beta iota.
      rewrite Hs'. reflexivity. }
    erewrite bind_ok;
      [|rewrite Hh; apply try_catch_ok, try_catch_ok; exact Hp].
    unfold held_record, mem_record. rewrite He', Hkv, Hr'. simpl.
    rewrite Hs'. reflexivity.
Qed.

(** ** Touching a lapsed request in the durable backend *)

Lemma kv_lapsed_tick e id (w : World) : kv_lapsed e id w -> kv_lapsed e id (tick w).
Proof.
  intros (He & H). split; [exact He|]. simpl. intros r dl Hr.
  destruct (H r dl Hr) as [Hu Hexp]. pose proof (next_now_ge w). split; [done|lia].
Qed.

Lemma kv_settled_same id (w w' : World) :
  same_stores w w' -> kv_settled id w -> kv_settled id w'.
Proof.
  intros (_ & Hkv & _ & Hnow) H r dl. rewrite Hkv, Hnow. apply H.
Qed.

Lemma kv_lapsed_same e id (w w' : World) :
  same_stores w w' -> kv_lapsed e id w -> kv_lapsed e id w'.
Proof.
  intros (He & Hkv & _ & Hnow) (He' & H). split; [congruence|].
  rewrite Hkv, Hnow. exact H.
Qed.

(** [setExpired] on a lapsed request: afterwards what the store still holds
    is [expired]. *)
Lemma kv_setExpired_settles e id (w : World) :
  kv_lapsed e id w ->
  exists b w',
    KVStore.setExpired id w = (Ok b, w') /\
    kv_lapsed e id w' /\ kv_settled id w'.
Proof.
  intros Hw. pose proof Hw as (He & H). pose proof (next_now_ge w) as Hge.
  pose proof (next_now_ge (tick w)) as Hge'. unfold tick in Hge'. simpl in Hge'.
  unfold KVStore.setExpired, KVStore.get, kv.get, kv.set, bind, Date_now, ret.
  simpl.
  destruct (w_kv w !! KVStore.getKey id) as [[r dl]|] eqn:Hr.
  - destruct (H r dl eq_refl) as [Hu Hexp].
    destruct (Z.leb_spec dl (next_now w)).
    + eexists _, _. split; [reflexivity|]. split.
      * apply kv_lapsed_tick, Hw.
      * intros r' dl'. simpl. rewrite Hr. intros [= <- <-]. lia.
    + simpl. destruct Hu as [Hs|Hs]; rewrite Hs; simpl.
      * eexists _, _. split; [reflexivity|]. split.
        -- split; [exact He|]. simpl. intros r' dl'.
           rewrite lookup_insert_eq. intros [= <- <-]. simpl.
           unfold undecided. simpl. split; [auto|lia].
        -- intros r' dl'. simpl. rewrite lookup_insert_eq.
           intros [= <- <-]. reflexivity.
      * eexists _, _. split; [reflexivity|]. split.
        -- apply kv_lapsed_tick, Hw.
        -- intros r' dl'. simpl. rewrite Hr. intros [= <- <-]. done.
  - eexists _, _. split; [reflexivity|]. split.
    + apply kv_lapsed_tick, Hw.
    + intros r' dl'. simpl. rewrite Hr. discriminate.
Qed.

(** The update of the card leaves the stores and the clock alone. *)
Lemma lark_call_same (c : LarkCall) (w : World) :
  exists res w', lark_call c w = (res, w') /\ same_stores w w'.
Proof.
  unfold lark_call, same_stores.
  destruct (w_lark w) as [|[mid|] l]; eexists _, _; (split; [reflexivity|]);
    simpl; auto.
Qed.

Lemma update_card_same (mid : option jsstring) (call : jsstring -> LarkCall)
    (w : World) :
  exists res w',
    (if truthy mid then
       let* _ := createLarkClient in
       let* _ := lark_call (call (unwrap mid)) in ret tt
     else ret tt) w = (res, w') /\ same_stores w w'.
Proof.
  destruct (truthy mid).
  - unfold createLarkClient, bind, get_env, throw, ret.
    destruct (_ || _)%bool.
    + eexists _, _. split; [reflexivity|]. unfold same_stores. auto.
    + destruct (lark_call_same (call (unwrap mid)) w) as (res & w' & E & Hs).
      rewrite E. destruct res; eexists _, _; (split; [reflexivity|exact Hs]).
  - eexists _, _. split; [reflexivity|]. unfold same_stores. auto.
Qed.

Lemma kv_get_cases e id (w : World) :
  kv_lapsed e id w ->
  (KVStore.get id w = (Ok None, tick w) /\ kv_settled id (tick w)) \/
  (exists r dl,
     w_kv w !! KVStore.getKey id = Some (r, dl) /\ next_now w < dl /\
     undecided r /\ expiresAt (request r) <= w_now w /\
     KVStore.get id w = (Ok (Some r), tick w)).
Proof.
  intros (He & H).
  destruct (w_kv w !! KVStore.getKey id) as [[r dl]|] eqn:Hr.
  - destruct (Z.lt_ge_cases (next_now w) dl) as [Hlt|Hge].
    + right. exists r, dl. destruct (H r dl eq_refl) as [Hu Hexp].
      repeat (split; [done|]). apply (kv_get_held _ _ _ _ Hr Hlt).
    + left. split.
      * apply kv_get_gone. intros r' dl'. rewrite Hr. intros [= <- <-]. exact Hge.
      * intros r' dl'. simpl. rewrite Hr. intros [= <- <-]. lia.
  - left. split.
    + apply kv_get_gone. intros r' dl'. rewrite Hr. discriminate.
    + intros r' dl'. simpl. rewrite Hr. discriminate.
Qed.

Lemma kv_poll e id (auth : option jsstring) (w : World) :
  uses_kv e = true -> id <> [] -> api_key_ok e auth = true -> kv_lapsed e id w ->
  exists resp w',
    StatusApi.handler (poll_request id auth) w = (Ok resp, w') /\
    kv_lapsed e id w' /\
    (reported_status resp = Some Status.expired \/ reported_status resp = None) /\
    (forall r dl, w_kv w !! KVStore.getKey id = Some (r, dl) -> next_now w < dl ->
                  reported_status resp = Some Status.expired).
Proof.
  intros Hkv Hid Hauth Hw. pose proof Hw as (He & _).
  unfold StatusApi.handler, poll_request. cbn [method authorization body].
  rewrite streq_refl. cbn [negb].
  erewrite bind_ok by reflexivity; cbv beta iota. rewrite He, Hauth. cbn [negb].
  destruct id as [|ch id]; [done|]. set (i := ch :: id) in *.
  pose proof (kv_lapsed_tick e i w Hw) as Hw1.
  destruct (kv_get_cases e i w Hw) as [[Hget _]|(r & dl & Hr & Hlt & Hu & Hexp & Hget)].
  - eexists _, _. split.
    + apply try_catch_ok.
      erewrite bind_ok by apply getStore_eq; cbv beta iota. rewrite He, Hkv.
      erewrite bind_ok by exact Hget; cbv beta iota. reflexivity.
    + split; [exact Hw1|]. split; [right; reflexivity|].
      intros r dl Hr Hlt.
      rewrite (kv_get_held _ _ _ _ Hr Hlt) in Hget. discriminate.
  - destruct Hu as [Hs|Hs].
    + destruct (kv_setExpired_settles e i (tick (tick w)))
        as (b & w' & Hset & Hw' & _); [apply kv_lapsed_tick, Hw1|].
      eexists _, w'. split.
      * apply try_catch_ok.
        erewrite bind_ok by apply getStore_eq; cbv beta iota. rewrite He, Hkv.
        erewrite bind_ok by exact Hget; cbv beta iota.
        rewrite Hs. cbn [Status.eqb].
        erewrite bind_ok by (erewrite bind_ok by reflexivity; reflexivity).
        cbv beta iota.
        pose proof (next_now_ge w). pose proof (next_now_ge (tick w)) as Hge.
        simpl in Hge.
        destruct (Z.leb_spec (expiresAt (request r)) (next_now (tick w))); [|lia].
        erewrite bind_ok by exact Hset; cbv beta iota. reflexivity.
      * split; [exact Hw'|]. split; [left; reflexivity|]. reflexivity.
    + eexists _, _. split.
      * apply try_catch_ok.
        erewrite bind_ok by apply getStore_eq; cbv beta iota. rewrite He, Hkv.
        erewrite bind_ok by exact Hget; cbv beta iota.
        rewrite Hs. cbn [Status.eqb].
        erewrite bind_ok by reflexivity; cbv beta iota. reflexivity.
      * split; [exact Hw1|].
        split; [left|intros ? ? _ _]; unfold reported_status; cbn [json];
          destruct (decision r); reflexivity.
Qed.

Lemma kv_process e id (d : Decision.t) (open_id : option CardOperator)
    (msg : option jsstring) (w : World) :
  uses_kv e = true -> kv_lapsed e id w ->
  exists res w',
    Callback.process id d open_id msg w = (res, w') /\
    kv_lapsed e id w' /\ kv_settled id w'.
Proof.
  intros Hkv Hw. pose proof Hw as (He & _).
  pose proof (kv_lapsed_tick e id w Hw) as Hw1.
  unfold Callback.process.
  erewrite bind_ok by apply getStore_eq; cbv beta iota. rewrite He, Hkv.
  destruct (kv_get_cases e id w Hw)
    as [[Hget Hset]|(r & dl & Hr & Hlt & Hu & Hexp & Hget)];
    (erewrite bind_ok by exact Hget; cbv beta iota).
  - eexists _, _. split; [reflexivity|]. auto.
  - destruct Hu as [Hs|Hs]; rewrite Hs; cbn [Status.eqb negb].
    2: { eexists _, _. split; [reflexivity|]. split; [exact Hw1|].
         intros r' dl'. simpl. rewrite Hr. intros [= <- <-] _. exact Hs. }
    erewrite bind_ok by reflexivity; cbv beta iota.
    pose proof (next_now_ge w). pose proof (next_now_ge (tick w)) as Hge.
    simpl in Hge.
    destruct (Z.leb_spec (expiresAt (request r)) (next_now (tick w))); [|lia].
    destruct (kv_setExpired_settles e id (tick (tick w)))
      as (b & w2 & Hexp2 & Hw2 & Hset2); [apply kv_lapsed_tick, Hw1|].
    erewrite bind_ok by exact Hexp2; cbv beta iota.
    destruct (update_card_same (larkMessageId r)
                (fun mid => UpdateAsExpired mid (request r)) w2)
      as (res & w3 & Hup & Hsame).
    unfold updateAsExpired. unfold bind at 1. rewrite Hup.
    destruct res; eexists _, _; (split; [reflexivity|]);
      eauto using kv_lapsed_same, kv_settled_same.
Qed.

Lemma kv_touch e id (t : Touch) (w : World) :
  uses_kv e = true -> id <> [] -> valid_touch e id t -> ~ is_touch_get t ->
  kv_lapsed e id w ->
  exists y w',
    touch id t w = (Ok y, w') /\
    (y = Some Status.expired \/ y = None) /\ kv_lapsed e id w'.
Proof.
  intros Hkv Hid Hvalid Hnot Hw. pose proof Hw as (He & _).
  destruct t as [|auth|c]; [destruct Hnot; exact I| |]; unfold touch.
  - destruct (kv_poll e id auth w Hkv Hid Hvalid Hw) as (resp & w' & E & Hw' & Hy & _).
    erewrite bind_ok by exact E. eexists _, _. split; [reflexivity|]. auto.
  - simpl in Hvalid. rewrite <- He in Hvalid.
    destruct (handler_reaches_store id c w Hid Hvalid) as (d & msg & Hh).
    destruct (kv_process e id d (operator_of c) msg w Hkv Hw)
      as (res & w' & Hp & Hw' & Hset).
    pose proof Hw' as (He' & _).
    assert (exists resp, Callback.handler (callback_request c) w = (Ok resp, w'))
      as [resp Hresp].
    { rewrite Hh. unfold try_catch. rewrite Hp. destruct res; eexists; reflexivity. }
    erewrite bind_ok by exact Hresp. eexists _, _. split; [reflexivity|].
    split; [|exact Hw'].
    unfold held_record. rewrite He', Hkv.
    destruct (w_kv w' !! KVStore.getKey id) as [[r dl]|] eqn:Hr; [|right; reflexivity].
    destruct (Z.leb_spec dl (w_now w')); [right; reflexivity|].
    left. simpl. rewrite (Hset r dl Hr) by assumption. reflexivity.
Qed.

Lemma run_invariant {A B} (Inv : World -> Prop) (V : A -> Prop) (R : B -> Prop)
    (f : A -> M B) :
  (forall a w, V a -> Inv w ->
     exists b w', f a w = (Ok b, w') /\ R b /\ Inv w') ->
  forall (l : list A) (w : World), Forall V l -> Inv w ->
    exists bs w',
      run f l w = (Ok bs, w') /\ length bs = length l /\ Forall R bs /\ Inv w'.
Proof.
  intros Hf l. induction l as [|a l IH]; intros w Hl Hw.
  - exists [], w. simpl. auto.
  - inversion Hl as [|? ? Ha Hl']; subst.
    destruct (Hf a w Ha Hw) as (b & w1 & E1 & Hb & Hw1).
    destruct (IH w1 Hl' Hw1) as (bs & w2 & E2 & Hlen & Hbs & Hw2).
    exists (b :: bs), w2. simpl. erewrite bind_ok by exact E1.
    erewrite bind_ok by exact E2. simpl. auto.
Qed.

(** ** The entry of a lapsed request, touch by touch *)

Lemma kv_trail_later (r : StoredRequest) (dl t0 : Z) (w w' : World) entry :
  w_now w <= w_now w' -> kv_trail r dl t0 w entry -> kv_trail r dl t0 w' entry.
Proof.
  intros Hle [H|(Hs & t & Ht & H)]; [left; exact H|right].
  split; [exact Hs|]. exists t. split; [lia|exact H].
Qed.

(** [setExpired] on a pending entry: it is rewritten as [expired] with 60
    seconds to live, unless its deadline has passed. *)
Lemma kv_setExpired_entry id (w : World) (r0 : StoredRequest) (dl0 : Z) :
  w_kv w !! KVStore.getKey id = Some (r0, dl0) -> status r0 = Status.pending ->
  exists b w',
    KVStore.setExpired id w = (Ok b, w') /\
    w_env w' = w_env w /\ next_now w <= w_now w' /\
    ((dl0 <= w_now w' /\ w_kv w' = w_kv w) \/
     w_kv w' = <[KVStore.getKey id :=
                   (with_status r0 Status.expired, w_now w' + 60 * 1000)]> (w_kv w)).
Proof.
  intros Hr Hs. pose proof (next_now_ge (tick w)) as Hge. simpl in Hge.
  unfold KVStore.setExpired, KVStore.get, kv.get, kv.set, bind, Date_now, ret.
  simpl. rewrite Hr.
  destruct (Z.leb_spec dl0 (next_now w)).
  - eexists _, _. split; [reflexivity|]. simpl. split; [reflexivity|].
    split; [lia|]. left. auto.
  - cbv beta iota. rewrite (proj2 (Status_eqb_eq _ _) Hs). cbn [negb].
    eexists _, _. split; [reflexivity|]. simpl. split; [reflexivity|].
    split; [exact Hge|]. right. reflexivity.
Qed.

Lemma kv_poll_entry e id (auth : option jsstring) (w : World)
    (r0 : StoredRequest) (dl0 : Z) :
  uses_kv e = true -> id <> [] -> api_key_ok e auth = true -> w_env w = e ->
  w_kv w !! KVStore.getKey id = Some (r0, dl0) -> undecided r0 ->
  expiresAt (request r0) <= w_now w ->
  exists resp w',
    StatusApi.handler (poll_request id auth) w = (Ok resp, w') /\
    w_env w' = e /\ next_now w <= w_now w' /\
    ((w_kv w' = w_kv w /\
      (reported_status resp = Some Status.expired \/
       (reported_status resp = None /\ dl0 <= w_now w'))) \/
     (status r0 = Status.pending /\
      reported_status resp = Some Status.expired /\
      w_kv w' = <[KVStore.getKey id :=
                    (with_status r0 Status.expired, w_now w' + 60 * 1000)]>
                  (w_kv w))).
Proof.
  intros Hkv Hid Hauth He Hr Hu Hexp.
  pose proof (next_now_ge w) as Hge0.
  pose proof (next_now_ge (tick w)) as Hge1. simpl in Hge1.
  pose proof (next_now_ge (tick (tick w))) as Hge2. simpl in Hge2.
  unfold StatusApi.handler, poll_request. cbn [method authorization body].
  rewrite streq_refl. cbn [negb].
  erewrite bind_ok by reflexivity; cbv beta iota. rewrite He, Hauth. cbn [negb].
  destruct id as [|ch id]; [done|]. set (i := ch :: id) in *.
  destruct (Z.lt_ge_cases (next_now w) dl0) as [Hlt|Hgone].
  - pose proof (kv_get_held i w r0 dl0 Hr Hlt) as Hget.
    destruct Hu as [Hs|Hs].
    + destruct (kv_setExpired_entry i (tick (tick w)) r0 dl0 Hr Hs)
        as (b & w' & Hset & He' & Hnow' & Hout).
      simpl in He', Hnow'.
      eexists _, w'. split.
      * apply try_catch_ok.
        erewrite bind_ok by apply getStore_eq; cbv beta iota. rewrite He, Hkv.
        erewrite bind_ok by exact Hget; cbv beta iota.
        rewrite Hs. cbn [Status.eqb].
        erewrite bind_ok by (erewrite bind_ok by reflexivity; reflexivity).
        cbv beta iota.
        destruct (Z.leb_spec (expiresAt (request r0)) (next_now (tick w))); [|lia].
        erewrite bind_ok by exact Hset; cbv beta iota. reflexivity.
      * split; [congruence|]. split; [lia|].
        destruct Hout as [[Hdl Hsame]|Hwritten].
        -- left. split; [exact Hsame|]. left. reflexivity.
        -- right. split; [exact Hs|]. split; [reflexivity|exact Hwritten].
    + eexists _, _. split.
      * apply try_catch_ok.
        erewrite bind_ok by apply getStore_eq; cbv beta iota. rewrite He, Hkv.
        erewrite bind_ok by exact Hget; cbv beta iota.
        rewrite Hs. cbn [Status.eqb].
        erewrite bind_ok by reflexivity; cbv beta iota. reflexivity.
      * simpl. split; [exact He|]. split; [lia|]. left. split; [reflexivity|].
        left. unfold reported_status; cbn [json].
        destruct (decision r0); reflexivity.
  - assert (KVStore.get i w = (Ok None, tick w)) as Hget.
    { apply kv_get_gone. intros r' dl'. rewrite Hr. intros [= <- <-]. exact Hgone. }
    eexists _, _. split.
    + apply try_catch_ok.
      erewrite bind_ok by apply getStore_eq; cbv beta iota. rewrite He, Hkv.
      erewrite bind_ok by exact Hget; cbv beta iota. reflexivity.
    + simpl. split; [exact He|]. split; [lia|]. left. split; [reflexivity|].
      right. split; [reflexivity|exact Hgone].
Qed.

Lemma kv_callback_entry e id (c : LarkCardCallback) (w : World)
    (r0 : StoredRequest) (dl0 : Z) :
  uses_kv e = true -> id <> [] -> reaches_store e id c -> w_env w = e ->
  w_kv w !! KVStore.getKey id = Some (r0, dl0) -> undecided r0 ->
  expiresAt (request r0) <= w_now w ->
  exists y w',
    touch id (touch_callback c) w = (Ok y, w') /\
    w_env w' = e /\ next_now w <= w_now w' /\
    ((w_kv w' = w_kv w /\
      (y = Some Status.expired \/ (y = None /\ dl0 <= w_now w'))) \/
     (status r0 = Status.pending /\ y = Some Status.expired /\
      w_kv w' = <[KVStore.getKey id :=
                    (with_status r0 Status.expired, w_now w' + 60 * 1000)]>
                  (w_kv w))).
Proof.
  intros Hkv Hid Hvalid He Hr Hu Hexp.
  pose proof (next_now_ge w) as Hge0.
  pose proof (next_now_ge (tick w)) as Hge1. simpl in Hge1.
  pose proof (next_now_ge (tick (tick w))) as Hge2. simpl in Hge2.
  rewrite <- He in Hvalid.
  destruct (handler_reaches_store id c w Hid Hvalid) as (d & msg & Hh).
  assert (exists res w',
            Callback.process id d (operator_of c) msg w = (res, w') /\
            w_env w' = e /\ next_now w <= w_now w' /\
            ((w_kv w' = w_kv w /\
              (dl0 <= w_now w' \/ status r0 = Status.expired)) \/
             (status r0 = Status.pending /\
              w_kv w' = <[KVStore.getKey id :=
                            (with_status r0 Status.expired, w_now w' + 60 * 1000)]>
                          (w_kv w))))
    as (res & w' & Hp & He' & Hnow' & Hout).
  { unfold Callback.process.
    erewrite bind_ok by apply getStore_eq; cbv beta iota. rewrite He, Hkv.
    destruct (Z.lt_ge_cases (next_now w) dl0) as [Hlt|Hgone].
    - erewrite bind_ok by apply (kv_get_held id w r0 dl0 Hr Hlt); cbv beta iota.
      destruct Hu as [Hs|Hs]; rewrite Hs; cbn [Status.eqb negb].
      2: { eexists _, _. split; [reflexivity|]. simpl. split; [exact He|].
           split; [lia|]. left. auto. }
      erewrite bind_ok by reflexivity; cbv beta iota.
      destruct (Z.leb_spec (expiresAt (request r0)) (next_now (tick w))); [|lia].
      destruct (kv_setExpired_entry id (tick (tick w)) r0 dl0 Hr Hs)
        as (b & w2 & Hset & He2 & Hnow2 & Hout2).
      simpl in He2, Hnow2.
      cbn [RequestStore.setExpired createKVStore].
      erewrite bind_ok by exact Hset; cbv beta iota.
      destruct (update_card_same (larkMessageId r0)
                  (fun mid => UpdateAsExpired mid (request r0)) w2)
        as (res & w3 & Hup & (He3 & Hkv3 & _ & Hnow3)).
      unfold updateAsExpired. unfold bind at 1. rewrite Hup.
      destruct res; eexists _, _; (split; [reflexivity|]);
        (split; [congruence|]); (split; [lia|]);
        rewrite Hkv3, Hnow3;
        (destruct Hout2 as [[Hdl Hsame]|Hwritten];
         [left; split; [exact Hsame|left; exact Hdl]
         |right; split; [reflexivity|exact Hwritten]]).
    - erewrite bind_ok; cbv beta iota.
      2: { apply kv_get_gone. intros r' dl'. rewrite Hr. intros [= <- <-].
           exact Hgone. }
      eexists _, _. split; [reflexivity|]. simpl. split; [exact He|].
      split; [lia|]. left. split; [reflexivity|]. left. exact Hgone. }
  assert (exists resp, Callback.handler (callback_request c) w = (Ok resp, w'))
    as [resp Hresp].
  { rewrite Hh. unfold try_catch. rewrite Hp. destruct res; eexists; reflexivity. }
  unfold touch. erewrite bind_ok by exact Hresp.
  eexists _, w'. split; [reflexivity|]. split; [exact He'|]. split; [exact Hnow'|].
  unfold held_record. rewrite He', Hkv.
  destruct Hout as [(Hsame & Hcase)|(Hs & Hwritten)].
  - left. split; [exact Hsame|]. rewrite Hsame, Hr.
    destruct (Z.leb_spec dl0 (w_now w')); [right; auto|].
    left. destruct Hcase as [?|Hs]; [lia|]. simpl. rewrite Hs. reflexivity.
  - right. split; [exact Hs|]. split; [|exact Hwritten].
    rewrite Hwritten, lookup_insert_eq.
    destruct (Z.leb_spec (w_now w' + 60 * 1000) (w_now w')); [lia|reflexivity].
Qed.

(** One poll or card action on the lapsed request: the entry stays on the
    trail, and the touch yields [expired], or nothing when the deadline of
    the entry has passed. *)
Lemma kv_touch_entry e id (r : StoredRequest) (dl t0 : Z) (t : Touch)
    (w : World) (entry : StoredRequest * Z) :
  uses_kv e = true -> id <> [] -> undecided r ->
  valid_touch e id t -> ~ is_touch_get t ->
  w_env w = e -> expiresAt (request r) <= w_now w -> t0 <= next_now w ->
  w_kv w !! KVStore.getKey id = Some entry -> kv_trail r dl t0 w entry ->
  exists y w' entry',
    touch id t w = (Ok y, w') /\
    w_env w' = e /\ expiresAt (request r) <= w_now w' /\ t0 <= next_now w' /\
    w_kv w' !! KVStore.getKey id = Some entry' /\
    kv_trail r dl t0 w' entry' /\ kv_touch_result w' entry' y.
Proof.
  intros Hkv Hid Hu Hvalid Hnot He Hexp Ht0 Hentry Htrail.
  pose proof (next_now_ge w) as Hge0.
  destruct entry as [r0 dl0].
  assert (undecided r0 /\ expiresAt (request r0) = expiresAt (request r)) as [Hu0 Hx0].
  { destruct Htrail as [[= -> ->]|(_ & t1 & _ & [= -> ->])]; [auto|].
    split; [right; reflexivity|reflexivity]. }
  assert (exists y w',
            touch id t w = (Ok y, w') /\
            w_env w' = e /\ next_now w <= w_now w' /\
            ((w_kv w' = w_kv w /\
              (y = Some Status.expired \/ (y = None /\ dl0 <= w_now w'))) \/
             (status r0 = Status.pending /\ y = Some Status.expired /\
              w_kv w' = <[KVStore.getKey id :=
                            (with_status r0 Status.expired, w_now w' + 60 * 1000)]>
                          (w_kv w))))
    as (y & w' & E & He' & Hnow' & Hout).
  { destruct t as [|auth|c]; [destruct Hnot; exact I| |].
    - destruct (kv_poll_entry e id auth w r0 dl0 Hkv Hid Hvalid He Hentry Hu0)
        as (resp & w' & E & He' & Hnow' & Hout); [lia|].
      unfold touch. erewrite bind_ok by exact E.
      eexists _, w'. split; [reflexivity|]. split; [exact He'|].
      split; [exact Hnow'|]. exact Hout.
    - apply (kv_callback_entry e id c w r0 dl0); try assumption. lia. }
  pose proof (next_now_ge w') as Hge'.
  destruct Hout as [(Hsame & Hy)|(Hs & Hy & Hwritten)].
  - exists y, w', (r0, dl0). split; [exact E|]. split; [exact He'|].
    split; [lia|]. split; [lia|]. split; [rewrite Hsame; exact Hentry|].
    split; [apply (kv_trail_later r dl t0 w w'); [lia|exact Htrail]|].
    exact Hy.
  - exists y, w', (with_status r0 Status.expired, w_now w' + 60 * 1000).
    split; [exact E|]. split; [exact He'|]. split; [lia|]. split; [lia|].
    split; [rewrite Hwritten; apply lookup_insert_eq|].
    split; [|left; exact Hy].
    destruct Htrail as [[= -> ->]|(_ & t1 & _ & [= -> ->])]; [|discriminate].
    right. split; [exact Hs|]. exists (w_now w'). split; [lia|reflexivity].
Qed.

Lemma run_cons_snd {A B} (f : A -> M B) (a : A) (l : list A) (w w1 : World)
    (b : B) :
  f a w = (Ok b, w1) -> snd (run f (a :: l) w) = snd (run f l w1).
Proof.
  intros E. simpl. erewrite bind_ok by exact E. unfold bind, ret.
  destruct (run f l w1) as [[bs|e] w2]; reflexivity.
Qed.

(** Any sequence of polls and card actions on the lapsed request: after
    each of them the entry is on the trail, and what the touch yielded is
    [expired], or nothing when the deadline of the entry had passed. *)
Lemma kv_run_entries e id (r : StoredRequest) (dl t0 : Z) :
  uses_kv e = true -> id <> [] -> undecided r ->
  forall (touches : list Touch) (w : World) (entry : StoredRequest * Z),
    Forall (valid_touch e id) touches ->
    Forall (fun t => ~ is_touch_get t) touches ->
    w_env w = e -> expiresAt (request r) <= w_now w -> t0 <= next_now w ->
    w_kv w !! KVStore.getKey id = Some entry -> kv_trail r dl t0 w entry ->
    exists ys w',
      run (touch id) touches w = (Ok ys, w') /\ length ys = length touches /\
      forall n y, ys !! n = Some y ->
        let wn := snd (run (touch id) (take (S n) touches) w) in
        exists entry',
          w_kv wn !! KVStore.getKey id = Some entry' /\
          kv_trail r dl t0 wn entry' /\ kv_touch_result wn entry' y.
Proof.
  intros Hkv Hid Hu touches.
  induction touches as [|t l IH]; intros w entry Hvalid Hnot He Hexp Ht0 Hentry Htrail.
  - exists [], w. split; [reflexivity|]. split; [reflexivity|].
    intros n y Hn. rewrite lookup_nil in Hn. discriminate.
  - inversion Hvalid as [|? ? Hv Hvl]; subst.
    inversion Hnot as [|? ? Hn Hnl]; subst.
    destruct (kv_touch_entry (w_env w) id r dl t0 t w entry Hkv Hid Hu Hv Hn
                eq_refl Hexp Ht0 Hentry Htrail)
      as (y & w1 & entry1 & E1 & He1 & Hexp1 & Ht1 & Hentry1 & Htrail1 & Hres1).
    destruct (IH w1 entry1 Hvl Hnl He1 Hexp1 Ht1 Hentry1 Htrail1)
      as (ys & w2 & E2 & Hlen & Hall).
    exists (y :: ys), w2. split.
    { simpl. erewrite bind_ok by exact E1. erewrite bind_ok by exact E2.
      reflexivity. }
    split; [simpl; congruence|].
    intros [|n] y' Hy'.
    + simpl in Hy'. injection Hy' as <-.
      change (take 1 (t :: l)) with [t].
      rewrite (run_cons_snd (touch id) t [] w w1 y E1). simpl.
      exists entry1. auto.
    + simpl in Hy'.
      change (take (S (S n)) (t :: l)) with (t :: take (S n) l).
      rewrite (run_cons_snd (touch id) t (take (S n) l) w w1 y E1).
      apply (Hall n y' Hy').
Qed.

(** The claim C2 as it is written fails in the durable backend: its [get]
    hands out the lapsed request as it is stored, [pending]; and once the
    poll has flipped the request to [expired], the store drops it 60 seconds
    later, after which a poll reports [not_found]. *)
Lemma kv_get_returns_pending_after_expiry :
  let r := sample_stored id0 1000 in
  let w := set_clock 1000 [] kv_lapsed_world in
  let polled := snd (touch id0 (touch_poll None) w) in
  kv_record id0 w = Some r /\ decision r = None /\
  expiresAt (request r) <= w_now w /\
  fst (touch id0 touch_get w) = Ok (Some Status.pending) /\
  fst (touch id0 (touch_poll None) w) = Ok (Some Status.expired) /\
  fst (touch id0 (touch_poll None) (set_clock 70000 [] polled)) = Ok None.
Proof. vm_compute. repeat split; (reflexivity || discriminate). Qed.

(** C2, amended: for a request whose [expiresAt] has passed and that has no
    decision, in the volatile backend every touch (store [get], poll, card
    action) yields [expired], and keeps doing so however often it is
    repeated.  In the durable backend a poll answers [expired] whenever the
    store still holds the request, and polls and card actions, repeated in
    any order, only ever yield [expired], or nothing once the store has
    dropped the request: after each of them the store holds, under the key,
    the entry it held at first or the request flipped to [expired] with 60
    seconds to live from the flip, and the touch yielded nothing only if
    the deadline of that entry had passed.  [get] itself returns a pending
    request as stored. *)
Theorem lapsed_request_reads_expired (id : jsstring) (w : World)
    (r : StoredRequest) (touches : list Touch)
    (Hid : id <> [])
    (Hundecided : undecided r)
    (Hlapsed : expiresAt (request r) <= w_now w)
    (Hvalid : Forall (valid_touch (w_env w) id) touches) :
  (uses_kv (w_env w) = false -> store (w_mem w) !! id = Some r ->
   exists ys w',
     run (touch id) touches w = (Ok ys, w') /\ length ys = length touches /\
     Forall (fun y => y = Some Status.expired) ys) /\
  (forall dl : Z,
   uses_kv (w_env w) = true -> w_kv w !! KVStore.getKey id = Some (r, dl) ->
   (Forall (fun t => ~ is_touch_get t) touches ->
    exists ys w',
      run (touch id) touches w = (Ok ys, w') /\ length ys = length touches /\
      Forall (fun y => y = Some Status.expired \/ y = None) ys /\
      forall n y, ys !! n = Some y ->
        let wn := snd (run (touch id) (take (S n) touches) w) in
        exists entry,
          w_kv wn !! KVStore.getKey id = Some entry /\
          kv_trail r dl (next_now w) wn entry /\
          kv_touch_result wn entry y) /\
   (forall auth, api_key_ok (w_env w) auth = true -> next_now w < dl ->
      fst (touch id (touch_poll auth) w) = Ok (Some Status.expired)) /\
   (next_now w < dl ->
      fst (touch id touch_get w) = Ok (Some (status r)))).
Proof.
  split.
  - intros Hkv Hr.
    destruct (run_invariant (mem_lapsed (w_env w) id)
                (valid_touch (w_env w) id)
                (fun y => y = Some Status.expired) (touch id)) with
      (l := touches) (w := w) as (ys & w' & E & Hlen & Hys & _).
    + intros t w0 Ht Hw0.
      destruct (mem_touch_expired (w_env w) id t w0 Hkv Hid Ht Hw0) as (w1 & E & H1).
      exists (Some Status.expired), w1. split; [exact E|].
      split; [reflexivity|]. apply mem_expired_lapsed, H1.
    + exact Hvalid.
    + split; [reflexivity|]. exists r. auto.
    + eauto.
  - intros dl Hkv Hr.
    assert (kv_lapsed (w_env w) id w) as Hw.
    { split; [reflexivity|]. intros r' dl'. rewrite Hr. intros [= <- <-]. auto. }
    split; [|split].
    + intros Hnot.
      destruct (kv_run_entries (w_env w) id r dl (next_now w) Hkv Hid Hundecided
                  touches w (r, dl) Hvalid Hnot eq_refl Hlapsed (Z.le_refl _) Hr)
        as (ys & w' & E & Hlen & Hall); [left; reflexivity|].
      exists ys, w'. split; [exact E|]. split; [exact Hlen|].
      split; [|exact Hall].
      apply Forall_lookup. intros n y Hy.
      destruct (Hall n y Hy) as (entry & _ & _ & [H|[H _]]); auto.
    + intros auth Hauth Hlt.
      destruct (kv_poll (w_env w) id auth w Hkv Hid Hauth Hw)
        as (resp & w' & E & _ & _ & Hy).
      unfold touch. erewrite bind_ok by exact E. simpl.
      rewrite (Hy r dl Hr Hlt). reflexivity.
    + intros Hlt. unfold touch.
      erewrite bind_ok by apply getStore_eq. rewrite Hkv.
      erewrite bind_ok by apply (kv_get_held _ _ _ _ Hr Hlt). reflexivity.
Qed.

(** ** The theorems at work on the sample data *)

Lemma lapsed_request_reads_expired_witness :
  id0 <> [] /\ undecided (sample_stored id0 1000) /\
  expiresAt (request (sample_stored id0 1000)) <= w_now mem_due_world /\
  Forall (valid_touch (w_env mem_due_world) id0) sample_touches /\
  (exists ys w',
     run (touch id0) sample_touches mem_due_world = (Ok ys, w') /\
     length ys = length sample_touches /\
     Forall (fun y => y = Some Status.expired) ys) /\
  expiresAt (request (sample_stored id0 1000)) <= w_now kv_due_world_ticking /\
  Forall (valid_touch (w_env kv_due_world_ticking) id0) sample_kv_touches /\
  fst (run (touch id0) sample_kv_touches kv_due_world_ticking) =
    Ok [Some Status.expired; Some Status.expired; None; None] /\
  (exists ys w',
     run (touch id0) sample_kv_touches kv_due_world_ticking = (Ok ys, w') /\
     length ys = length sample_kv_touches /\
     Forall (fun y => y = Some Status.expired \/ y = None) ys /\
     forall n y, ys !! n = Some y ->
       let wn := snd (run (touch id0) (take (S n) sample_kv_touches)
                        kv_due_world_ticking) in
       exists entry,
         w_kv wn !! KVStore.getKey id0 = Some entry /\
         kv_trail (sample_stored id0 1000) 1500 1000 wn entry /\
         kv_touch_result wn entry y).
Proof.
  assert (id0 <> []) as Hid by discriminate.
  assert (undecided (sample_stored id0 1000)) as Hu by (left; reflexivity).
  assert (expiresAt (request (sample_stored id0 1000)) <= w_now mem_due_world)
    as Hexp by (vm_compute; discriminate).
  assert (Forall (valid_touch (w_env mem_due_world) id0) sample_touches) as Hv.
  { repeat constructor. exists Decision.approve. split; [reflexivity|discriminate]. }
  assert (expiresAt (request (sample_stored id0 1000))
          <= w_now kv_due_world_ticking) as Hexp' by (vm_compute; discriminate).
  assert (Forall (valid_touch (w_env kv_due_world_ticking) id0) sample_kv_touches)
    as Hv'.
  { repeat constructor. exists Decision.approve. split; [reflexivity|discriminate]. }
  repeat (split; [assumption|]).
  split.
  { apply (proj1 (lapsed_request_reads_expired id0 mem_due_world
                    (sample_stored id0 1000) sample_touches Hid Hu Hexp Hv));
      reflexivity. }
  repeat (split; [assumption|]).
  split; [vm_compute; reflexivity|].
  apply (proj2 (lapsed_request_reads_expired id0 kv_due_world_ticking
                  (sample_stored id0 1000) sample_kv_touches Hid Hu Hexp' Hv')
           1500).
  - reflexivity.
  - vm_compute. reflexivity.
  - repeat constructor; intros H; exact H.
Defined.

Lemma status_transitions_monotonic_witness :
  Status.terminal (status sample_decided) /\
  store (w_mem mem_decided_world) !! id0 = Some sample_decided /\
  exists results w',
    run mem_op sample_ops mem_decided_world = (Ok results, w') /\
    store (w_mem w') !! id0 = Some sample_decided /\
    Forall2 (refused id0) sample_ops results.
Proof.
  assert (Status.terminal (status sample_decided)) as Hterm by discriminate.
  assert (store (w_mem mem_decided_world) !! id0 = Some sample_decided) as Hr
    by reflexivity.
  repeat (split; [assumption|]).
  exact (proj1 (proj2 (proj2 (status_transitions_monotonic id0 sample_decided))
                  Hterm) sample_ops mem_decided_world Hr).
Defined.

Lemma setDecision_idempotent_witness :
  status (sample_stored id0 300000) = Status.pending /\
  next_now mem_pending_world < expiresAt (request (sample_stored id0 300000)) /\
  store (w_mem mem_pending_world) !! id0 = Some (sample_stored id0 300000) /\
  exists w1 r1,
    MemoryStore.setDecision id0 Decision.approve None None mem_pending_world
      = (Ok true, w1) /\
    store (w_mem w1) !! id0 = Some r1 /\
    status r1 <> status (sample_stored id0 300000) /\
    forall calls : list DecisionCall,
      exists results w2,
        run (mem_setDecision_call id0) calls w1 = (Ok results, w2) /\
        Forall (fun b => b = false) results /\
        length results = length calls /\
        w_mem w2 = w_mem w1.
Proof.
  assert (status (sample_stored id0 300000) = Status.pending) as Hp by reflexivity.
  assert (next_now mem_pending_world
          < expiresAt (request (sample_stored id0 300000))) as Hl by reflexivity.
  assert (store (w_mem mem_pending_world) !! id0
          = Some (sample_stored id0 300000)) as Hr by reflexivity.
  repeat (split; [assumption|]).
  exact (proj1 (setDecision_idempotent id0 Decision.approve None None
                  mem_pending_world (sample_stored id0 300000) Hp Hl) Hr).
Defined.

Lemma kv_decision_retention_witness :
  w_kv kv_pending_world !! KVStore.getKey id0
    = Some (sample_stored id0 300000, 300000) /\
  status (sample_stored id0 300000) = Status.pending /\
  next_now kv_pending_world < 300000 /\
  exists (w1 : World) (r1 : StoredRequest) (dl1 now written : Z),
    KVStore.setDecision id0 Decision.approve None kv_pending_world = (Ok true, w1) /\
    w_kv w1 !! KVStore.getKey id0 = Some (r1, dl1) /\
    next_now kv_pending_world <= now /\ now <= written /\ written = w_now w1 /\
    dl1 = written + KVStore.decision_ttl (sample_stored id0 300000) now * 1000 /\
    KVStore.decision_ttl (sample_stored id0 300000) now =
      Z.max 60 (ceil_seconds
                  (expiresAt (request (sample_stored id0 300000)) - now)) /\
    now + 60 * 1000 <= dl1 /\
    expiresAt (request (sample_stored id0 300000)) <= dl1 /\
    forall w2 : World,
      w_kv w2 = w_kv w1 ->
      next_now w2 < Z.max (now + 60 * 1000)
                      (expiresAt (request (sample_stored id0 300000))) ->
      fst (KVStore.get id0 w2) = Ok (Some r1).
Proof.
  assert (w_kv kv_pending_world !! KVStore.getKey id0
          = Some (sample_stored id0 300000, 300000)) as Hr by reflexivity.
  assert (status (sample_stored id0 300000) = Status.pending) as Hp by reflexivity.
  assert (next_now kv_pending_world < 300000) as Hl by reflexivity.
  repeat (split; [assumption|]).
  exact (kv_decision_retention id0 Decision.approve None kv_pending_world
           (sample_stored id0 300000) 300000 Hr Hp Hl).
Defined.

Lemma blank_message_rejected_in_band_witness :
  let c := message_action (Some (str "   ")) in
  body (callback_request c) = with_header c /\
  value_decision c = Some (str "message") /\
  text_missing (submitted_text c) /\
  snd (Callback.handler (callback_request c) mem_pending_world)
    = mem_pending_world /\
  fst (Callback.handler (callback_request c) mem_pending_world) =
    Ok {| code := 200;
          json := Toast toast_warning (str "Please enter a message") |}.
Proof.
  intros c.
  assert (text_missing (submitted_text c)) as Ht.
  { right. exists (str "   "). split; [reflexivity|]. repeat constructor. }
  split; [reflexivity|]. split; [reflexivity|]. split; [exact Ht|].
  destruct (blank_message_rejected_in_band (callback_request c) c
              mem_pending_world eq_refl eq_refl Ht) as [Hsame Hresp].
  split; [exact Hsame|].
  apply Hresp; [reflexivity|reflexivity|left; reflexivity|reflexivity].
Defined.

Lemma notify_missing_fields_create_nothing_witness :
  required_missing (fields sample_create_no_tool) /\
  exists (c : Z) (e : jsstring),
    Notify.handler sample_create_no_tool (fresh_world env_memory 0 [] []) =
      (Ok {| code := c; json := ApiResponse false None (Some e) |},
       fresh_world env_memory 0 [] []) /\
    c = 400 /\ e = str "Missing required fields: tool, workingDirectory".
Proof.
  assert (required_missing (fields sample_create_no_tool)) as Hm
    by (left; reflexivity).
  split; [exact Hm|].
  destruct (notify_missing_fields_create_nothing sample_create_no_tool
              (fresh_world env_memory 0 [] []) Hm)
    as (c & e & Hrun & Hpresent & _).
  exists c, e. split; [exact Hrun|].
  destruct Hpresent as [_ H]; [eexists; reflexivity|].
  apply H; reflexivity.
Defined.

Lemma fresh_world_no_description e t ticks lark :
  no_description (fresh_world e t ticks lark).
Proof.
  unfold no_description. simpl. split; [|split].
  - intros id r H. rewrite lookup_empty in H. discriminate.
  - intros key r dl H. rewrite lookup_empty in H. discriminate.
  - intros c [].
Defined.

Lemma stored_request_has_no_description_witness :
  let w0 := fresh_world env_memory 0 [] [Some (str "om_1")] in
  no_description w0 /\
  no_description (invoke_all sample_history w0) /\
  description <$> (request <$> mem_record (str "x") (invoke_all sample_history w0))
    = Some None.
Proof.
  intros w0.
  split; [apply fresh_world_no_description|].
  split; [|reflexivity].
  exact (proj1 (proj2 (stored_request_has_no_description w0 sample_history
                         (fresh_world_no_description _ _ _ _)))).
Defined.

(** * Further properties of the stores *)

(** ** The volatile store: [set], [get], [delete] *)

Lemma clear_timer_lookup (id : jsstring) (tm : gmap jsstring Timer) :
  MemoryStore.clear_timer id tm !! id = None.
Proof.
  unfold MemoryStore.clear_timer. destruct (tm !! id) eqn:E; [|exact E].
  apply lookup_delete_eq.
Qed.

Lemma clear_timer_lookup_ne (id id' : jsstring) (tm : gmap jsstring Timer) :
  id <> id' -> MemoryStore.clear_timer id tm !! id' = tm !! id'.
Proof.
  intros Hne. unfold MemoryStore.clear_timer. destruct (tm !! id); [|reflexivity].
  apply lookup_delete_ne. exact Hne.
Qed.

(** X1: what [set] stores under an id is what the next [get] of that id
    returns (flipped to [expired] when it is pending and due by then), and
    [set] leaves the records of all other ids alone. *)
Theorem mem_set_then_get (id : jsstring) (data : StoredRequest) (w : World) :
  let w1 := snd (MemoryStore.set id data w) in
  fst (MemoryStore.set id data w) = Ok tt /\
  fst (MemoryStore.get id w1) =
    Ok (Some (if (Status.eqb (status data) Status.pending
                  && (expiresAt (request data) <=? next_now w1))%bool
              then with_status data Status.expired else data)) /\
  forall id', id' <> id ->
    store (w_mem w1) !! id' = store (w_mem w) !! id' /\
    timers (w_mem w1) !! id' = timers (w_mem w) !! id'.
Proof.
  unfold MemoryStore.set, MemoryStore.get, bind, get_mem, put_mem, Date_now, ret.
  simpl. split; [reflexivity|]. split.
  - rewrite lookup_insert_eq.
    destruct (Status.eqb (status data) Status.pending); simpl; [|reflexivity].
    match goal with |- context [?a <=? ?b] => destruct (a <=? b) end; reflexivity.
  - intros id' Hne. rewrite lookup_insert_ne by done. split; [reflexivity|].
    destruct (timers (w_mem w) !! id) as [t|];
      destruct (0 <? _); rewrite ?lookup_insert_ne by done; reflexivity.
Qed.

(** X2: after [delete] the id is unknown: [get] returns null, a decision or
    an expiry is refused, no timer is left for it; other ids keep their
    record and timer. *)
Theorem mem_delete_forgets (id : jsstring) (w : World) :
  let w1 := snd (MemoryStore.delete id w) in
  fst (MemoryStore.get id w1) = Ok None /\
  (forall d by_ msg, MemoryStore.setDecision id d by_ msg w1 = (Ok false, w1)) /\
  MemoryStore.setExpired id w1 = (Ok false, w1) /\
  timers (w_mem w1) !! id = None /\
  forall id', id' <> id ->
    store (w_mem w1) !! id' = store (w_mem w) !! id' /\
    timers (w_mem w1) !! id' = timers (w_mem w) !! id'.
Proof.
  assert (store (w_mem (snd (MemoryStore.delete id w))) !! id = None) as Hgone.
  { unfold MemoryStore.delete, bind, get_mem, put_mem. simpl.
    apply lookup_delete_eq. }
  intros w1. split; [|split; [|split; [|split]]].
  - unfold MemoryStore.get, bind, get_mem. simpl. fold w1 in Hgone.
    change (store (w_mem w1) !! id) with (store (w_mem w1) !! id).
    unfold w1 in *. simpl in *. rewrite lookup_delete_eq. reflexivity.
  - intros d by_ msg. apply mem_setDecision_absent, Hgone.
  - unfold MemoryStore.setExpired, bind, get_mem. simpl.
    unfold w1 in *. simpl in *. rewrite lookup_delete_eq. reflexivity.
  - unfold w1, MemoryStore.delete, bind, get_mem, put_mem. simpl.
    apply clear_timer_lookup.
  - intros id' Hne. unfold w1, MemoryStore.delete, bind, get_mem, put_mem. simpl.
    split; [apply lookup_delete_ne; done|apply clear_timer_lookup_ne; done].
Qed.

(** ** The timers of the volatile store *)

Lemma mem_call_tracked (c : MemCall) (w : World) :
  timers_tracked (w_mem w) ->
  exists w', mem_call c w = (Ok tt, w') /\ timers_tracked (w_mem w').
Proof.
  intros H. unfold timers_tracked in *.
  assert (forall i r (tm : gmap jsstring Timer),
            (forall id t, tm !! id = Some t -> id = i \/ is_Some (timers (w_mem w) !! id)) ->
            forall id t, tm !! id = Some t ->
                         is_Some (<[i := r]> (store (w_mem w)) !! id)) as Hins.
  { intros i r tm Htm id t Hid. destruct (decide (id = i)) as [->|Hne].
    - rewrite lookup_insert_eq. eauto.
    - rewrite lookup_insert_ne by done.
      destruct (Htm id t Hid) as [?|[t' Ht']]; [done|]. eapply H, Ht'. }
  destruct c as [i data|i|i d b m|i|i|i]; unfold mem_call.
  - unfold MemoryStore.set, bind, get_mem, put_mem, Date_now, ret. simpl.
    eexists. split; [reflexivity|]. simpl. apply Hins. intros id t.
    destruct (timers (w_mem w) !! i) as [t0|] eqn:Ei;
      destruct (0 <? _); intros Hid;
      repeat (apply lookup_insert_Some in Hid; destruct Hid as [[-> _]|[_ Hid]];
              [left; reflexivity|]);
      eauto.
  - unfold MemoryStore.get, bind, get_mem, put_mem, Date_now, ret. simpl.
    destruct (store (w_mem w) !! i) as [r|] eqn:Hr; [|eauto].
    destruct (Status.eqb (status r) Status.pending); simpl; [|eauto].
    destruct (_ <=? _); simpl; [|eauto].
    eexists. split; [reflexivity|]. simpl. apply Hins. eauto.
  - unfold MemoryStore.setDecision, bind, get_mem, put_mem, Date_now, ret. simpl.
    destruct (store (w_mem w) !! i) as [r|] eqn:Hr; [|eauto].
    destruct (Status.eqb (status r) Status.pending); simpl; [|eauto].
    destruct (_ <=? _); simpl; eexists; (split; [reflexivity|]); simpl;
      apply Hins; [eauto|].
    intros id t Hid. destruct (decide (id = i)) as [->|Hne]; [auto|].
    rewrite clear_timer_lookup_ne in Hid by done. eauto.
  - unfold MemoryStore.setExpired, bind, get_mem, put_mem, ret. simpl.
    destruct (store (w_mem w) !! i) as [r|] eqn:Hr; [|eauto].
    destruct (Status.eqb (status r) Status.pending); simpl; [|eauto].
    eexists. split; [reflexivity|]. simpl. apply Hins.
    intros id t Hid. destruct (decide (id = i)) as [->|Hne]; [auto|].
    rewrite clear_timer_lookup_ne in Hid by done. eauto.
  - unfold MemoryStore.delete, bind, get_mem, put_mem. simpl.
    eexists. split; [reflexivity|]. simpl. intros id t Hid.
    destruct (decide (id = i)) as [->|Hne].
    + rewrite clear_timer_lookup in Hid. discriminate.
    + rewrite clear_timer_lookup_ne in Hid by done.
      rewrite lookup_delete_ne by done. eauto.
  - unfold MemoryStore.handleExpiration, bind, get_mem, put_mem. simpl.
    eexists. split; [reflexivity|]. simpl. intros id t Hid.
    destruct (decide (id = i)) as [->|Hne].
    + rewrite lookup_delete_eq in Hid. discriminate.
    + rewrite lookup_delete_ne in Hid by done.
      destruct (store (w_mem w) !! i) as [r|] eqn:Hr; [|eauto].
      destruct (Status.eqb (status r) Status.pending); [|eauto].
      rewrite lookup_insert_ne by done. eauto.
Qed.

(** X3: the volatile store never keeps a timer for a request it does not
    hold: whatever methods are called, in whatever order, and whichever
    timers fire, every handle in [timers] belongs to an id in [store]. *)
Theorem mem_timers_tracked (calls : list MemCall) (w : World)
    (Hinit : timers_tracked (w_mem w)) :
  exists results w',
    run mem_call calls w = (Ok results, w') /\ timers_tracked (w_mem w').
Proof.
  revert w Hinit. induction calls as [|c calls IH]; intros w Hinit.
  - exists [], w. auto.
  - destruct (mem_call_tracked c w Hinit) as (w1 & E1 & H1).
    destruct (IH w1 H1) as (results & w2 & E2 & H2).
    exists (tt :: results), w2. simpl.
    erewrite bind_ok by exact E1. erewrite bind_ok by exact E2. auto.
Qed.

Lemma mem_timers_tracked_witness :
  timers_tracked (w_mem (fresh_world env_memory 0 [] [])) /\
  exists results w',
    run mem_call sample_mem_calls (fresh_world env_memory 0 [] [])
      = (Ok results, w') /\
    timers_tracked (w_mem w').
Proof.
  assert (timers_tracked (w_mem (fresh_world env_memory 0 [] []))) as H.
  { intros id t Ht. simpl in Ht. rewrite lookup_empty in Ht. discriminate. }
  split; [exact H|].
  exact (mem_timers_tracked sample_mem_calls (fresh_world env_memory 0 [] []) H).
Defined.

(** X4: [setExpired] of the volatile store succeeds exactly when the id is
    held and pending; the clock is not consulted, so a request can be
    expired before its [expiresAt].  On success the record of the id is the
    one it was, with the status [expired]; the timer of the id is dropped,
    and the timers of the other ids, the clock, the durable store and the
    exchange with the gateway are as before.  Without success nothing
    changes. *)
Theorem mem_setExpired_spec (id : jsstring) (w : World) :
  (fst (MemoryStore.setExpired id w) = Ok true <->
   exists r, store (w_mem w) !! id = Some r /\ status r = Status.pending) /\
  (forall r, store (w_mem w) !! id = Some r -> status r = Status.pending ->
     let w1 := snd (MemoryStore.setExpired id w) in
     store (w_mem w1) !! id = Some (with_status r Status.expired) /\
     timers (w_mem w1) !! id = None /\
     (forall id', id' <> id ->
        timers (w_mem w1) !! id' = timers (w_mem w) !! id') /\
     w_now w1 = w_now w /\ w_ticks w1 = w_ticks w /\ w_env w1 = w_env w /\
     w_kv w1 = w_kv w /\ w_lark w1 = w_lark w /\ w_cards w1 = w_cards w) /\
  (fst (MemoryStore.setExpired id w) <> Ok true ->
   MemoryStore.setExpired id w = (Ok false, w)).
Proof.
  unfold MemoryStore.setExpired, bind, get_mem, put_mem, ret. simpl.
  destruct (store (w_mem w) !! id) as [r|] eqn:Hr.
  - destruct (decide (status r = Status.pending)) as [Hs|Hs].
    + rewrite Hs. simpl. split; [split; eauto|]. split; [|done].
      intros r' [= <-] _. split; [apply lookup_insert_eq|].
      split; [apply clear_timer_lookup|].
      split; [|done].
      intros id' Hne. apply clear_timer_lookup_ne. congruence.
    + rewrite (Status_eqb_pending _ Hs). simpl.
      split; [split; [discriminate|intros (r' & [= <-] & ?); done]|].
      split; [intros r' [= <-] ?; done|reflexivity].
  - split; [split; [discriminate|intros (r' & ? & _); discriminate]|].
    split; [discriminate|reflexivity].
Qed.

(** X5: [set] arms the expiry timer exactly when [expiresAt] lies after the
    reading of the clock: for the instant [expiresAt] when that is at most
    2^31 - 1 milliseconds ahead, and otherwise, the delay being beyond what
    [setTimeout] takes, for one millisecond later.  When the timer fires, a
    request that is still pending becomes [expired] (in the second case long
    before its [expiresAt]), any other is left as it is, and the handle is
    removed. *)
Theorem mem_timer_lifecycle (id : jsstring) (data : StoredRequest) (w : World) :
  let w1 := snd (MemoryStore.set id data w) in
  let ttl := expiresAt (request data) - next_now w in
  (0 < ttl <= MemoryStore.TIMEOUT_MAX ->
   timers (w_mem w1) !! id
     = Some {| fires_at := expiresAt (request data); cleared := false |}) /\
  (MemoryStore.TIMEOUT_MAX < ttl ->
   timers (w_mem w1) !! id
     = Some {| fires_at := next_now w + 1; cleared := false |}) /\
  (ttl <= 0 ->
   timers (w_mem w1) !! id =
     (fun t => {| fires_at := fires_at t; cleared := true |})
       <$> timers (w_mem w) !! id) /\
  forall w2 : World,
    w_mem w2 = w_mem w1 ->
    let w3 := snd (MemoryStore.handleExpiration id w2) in
    store (w_mem w3) !! id =
      Some (if Status.eqb (status data) Status.pending
            then with_status data Status.expired else data) /\
    timers (w_mem w3) !! id = None.
Proof.
  unfold MemoryStore.set, MemoryStore.handleExpiration, MemoryStore.timeout_delay,
    MemoryStore.TIMEOUT_MAX, bind, get_mem, put_mem, Date_now, ret.
  simpl. split; [|split; [|split]].
  - intros Hlt. destruct (Z.ltb_spec 0 (expiresAt (request data) - next_now w)); [|lia].
    destruct (Z.ltb_spec (expiresAt (request data) - next_now w) 1); [lia|].
    destruct (Z.ltb_spec 2147483647 (expiresAt (request data) - next_now w)); [lia|].
    destruct (timers (w_mem w) !! id); rewrite lookup_insert_eq;
      simpl; f_equal; f_equal; lia.
  - intros Hlt. destruct (Z.ltb_spec 0 (expiresAt (request data) - next_now w)); [|lia].
    destruct (Z.ltb_spec (expiresAt (request data) - next_now w) 1); [lia|].
    destruct (Z.ltb_spec 2147483647 (expiresAt (request data) - next_now w)); [|lia].
    destruct (timers (w_mem w) !! id); rewrite lookup_insert_eq; reflexivity.
  - intros Hge. destruct (Z.ltb_spec 0 (expiresAt (request data) - next_now w)); [lia|].
    destruct (timers (w_mem w) !! id) as [t|] eqn:Ht; simpl.
    + rewrite lookup_insert_eq. reflexivity.
    + exact Ht.
  - intros w2 ->. simpl. rewrite lookup_insert_eq. split; [|apply lookup_delete_eq].
    destruct (Status.eqb (status data) Status.pending);
      [apply lookup_insert_eq|apply lookup_insert_eq].
Qed.

(** ** The durable store: [set], [get], [setExpired], [delete] *)

(** X6: what [set] writes under an id is what [get] returns for as long as
    the key lives, and the key lives at least one second and at least until
    the [expiresAt] of the request; the keys of other ids are not touched. *)
Theorem kv_set_then_get (id : jsstring) (data : StoredRequest) (w : World) :
  let w1 := snd (KVStore.set id data w) in
  exists deadline : Z,
    w_kv w1 !! KVStore.getKey id = Some (data, deadline) /\
    w_now w1 + 1000 <= deadline /\
    expiresAt (request data) <= deadline /\
    (forall w2 : World,
       w_kv w2 = w_kv w1 -> next_now w2 < deadline ->
       fst (KVStore.get id w2) = Ok (Some data)) /\
    (forall w2 : World,
       w_kv w2 = w_kv w1 -> deadline <= next_now w2 ->
       fst (KVStore.get id w2) = Ok None) /\
    forall id', id' <> id ->
      w_kv w1 !! KVStore.getKey id' = w_kv w !! KVStore.getKey id'.
Proof.
  intros w1.
  pose proof (next_now_ge (tick w)) as Hge. unfold tick in Hge. simpl in Hge.
  pose proof (ceil_seconds_ge (expiresAt (request data) - next_now w)) as Hc.
  assert (w_kv w1 = <[KVStore.getKey id :=
                        (data, w_now w1
                               + Z.max 1 (ceil_seconds
                                            (expiresAt (request data) - next_now w))
                                 * 1000)]> (w_kv w)) as Hkv1 by reflexivity.
  assert (w_now w1 = next_now (tick w)) as Hnow by reflexivity.
  unfold tick in Hnow. clearbody w1.
  eexists. split; [rewrite Hkv1; apply lookup_insert_eq|].
  split; [lia|]. split; [lia|]. split; [|split].
  - intros w2 Hkv Hlt. erewrite kv_get_held; [reflexivity| |exact Hlt].
    rewrite Hkv, Hkv1. apply lookup_insert_eq.
  - intros w2 Hkv Hle. rewrite kv_get_gone; [reflexivity|].
    intros r dl. rewrite Hkv, Hkv1. rewrite lookup_insert_eq.
    intros [= <- <-]. exact Hle.
  - intros id' Hne. rewrite Hkv1. apply lookup_insert_ne. intros E. apply Hne.
    symmetry. apply getKey_inj, E.
Qed.

(** X7: [setExpired] of the durable store succeeds exactly when the key is
    still held and its record pending; it then writes the record back as
    [expired], everything else in it unchanged, for 60 more seconds. *)
Theorem kv_setExpired_spec (id : jsstring) (w : World) :
  (fst (KVStore.setExpired id w) = Ok true <->
   exists r dl, w_kv w !! KVStore.getKey id = Some (r, dl) /\
                next_now w < dl /\ status r = Status.pending) /\
  (forall r dl,
     w_kv w !! KVStore.getKey id = Some (r, dl) -> next_now w < dl ->
     status r = Status.pending ->
     exists w1,
       KVStore.setExpired id w = (Ok true, w1) /\
       w_kv w1 = <[KVStore.getKey id :=
                     (with_status r Status.expired, w_now w1 + 60 * 1000)]> (w_kv w) /\
       forall w2 : World,
         w_kv w2 = w_kv w1 -> next_now w2 < w_now w1 + 60 * 1000 ->
         fst (KVStore.get id w2) = Ok (Some (with_status r Status.expired))) /\
  (fst (KVStore.setExpired id w) <> Ok true ->
   KVStore.setExpired id w = (Ok false, tick w)).
Proof.
  assert (forall r dl,
            w_kv w !! KVStore.getKey id = Some (r, dl) -> next_now w < dl ->
            status r = Status.pending ->
            KVStore.setExpired id w =
              (Ok true,
               set_kv (<[KVStore.getKey id :=
                           (with_status r Status.expired,
                            next_now (tick w) + 60 * 1000)]> (w_kv w))
                 (tick (tick w)))) as Hyes.
  { intros r dl Hr Hlt Hs. unfold KVStore.setExpired.
    erewrite bind_ok by apply (kv_get_held _ _ _ _ Hr Hlt). cbv beta iota.
    rewrite Hs. reflexivity. }
  assert ((forall r dl, w_kv w !! KVStore.getKey id = Some (r, dl) ->
                        next_now w < dl -> status r <> Status.pending) ->
          KVStore.setExpired id w = (Ok false, tick w)) as Hno.
  { intros H. unfold KVStore.setExpired.
    destruct (w_kv w !! KVStore.getKey id) as [[r dl]|] eqn:Hr.
    - destruct (Z.lt_ge_cases (next_now w) dl) as [Hlt|Hge].
      + erewrite bind_ok by apply (kv_get_held _ _ _ _ Hr Hlt). cbv beta iota.
        rewrite (Status_eqb_pending _ (H r dl eq_refl Hlt)). reflexivity.
      + assert (KVStore.get id w = (Ok None, tick w)) as Hg.
        { apply kv_get_gone. intros r' dl'. rewrite Hr. intros [= <- <-]. exact Hge. }
        erewrite bind_ok by exact Hg. reflexivity.
    - assert (KVStore.get id w = (Ok None, tick w)) as Hg.
      { apply kv_get_gone. intros r' dl'. rewrite Hr. discriminate. }
      erewrite bind_ok by exact Hg. reflexivity. }
  assert ((exists r dl, w_kv w !! KVStore.getKey id = Some (r, dl) /\
                        next_now w < dl /\ status r = Status.pending) \/
          (forall r dl, w_kv w !! KVStore.getKey id = Some (r, dl) ->
                        next_now w < dl -> status r <> Status.pending)) as Hcase.
  { destruct (w_kv w !! KVStore.getKey id) as [[r dl]|] eqn:Hr; [|right; discriminate].
    destruct (Z.lt_ge_cases (next_now w) dl) as [Hlt|Hge];
      [|right; intros r' dl' [= <- <-] ?; lia].
    destruct (decide (status r = Status.pending)) as [Hs|Hs];
      [left; eauto|right; intros r' dl' [= <- <-] _; exact Hs]. }
  split; [|split].
  - destruct Hcase as [(r & dl & Hr & Hlt & Hs)|H].
    + rewrite (Hyes r dl Hr Hlt Hs). split; eauto.
    + rewrite (Hno H). split; [discriminate|].
      intros (r & dl & Hr & Hlt & Hs). destruct (H r dl Hr Hlt Hs).
  - intros r dl Hr Hlt Hs. rewrite (Hyes r dl Hr Hlt Hs).
    eexists. split; [reflexivity|]. split; [reflexivity|].
    intros w2 Hkv Hlt2. erewrite kv_get_held; [reflexivity| |exact Hlt2].
    rewrite Hkv. apply lookup_insert_eq.
  - destruct Hcase as [(r & dl & Hr & Hlt & Hs)|H].
    + rewrite (Hyes r dl Hr Hlt Hs). intros Hn. destruct Hn. reflexivity.
    + intros _. apply Hno, H.
Qed.

(** X8: after [delete] of the durable store the id is unknown: [get] returns
    null and a decision or an expiry is refused; the keys of other ids are
    not touched. *)
Theorem kv_delete_forgets (id : jsstring) (w : World) :
  let w1 := snd (KVStore.delete id w) in
  fst (KVStore.delete id w) = Ok tt /\
  fst (KVStore.get id w1) = Ok None /\
  (forall d by_, fst (KVStore.setDecision id d by_ w1) = Ok false) /\
  fst (KVStore.setExpired id w1) = Ok false /\
  forall id', id' <> id ->
    w_kv w1 !! KVStore.getKey id' = w_kv w !! KVStore.getKey id'.
Proof.
  assert (forall r dl,
            w_kv (snd (KVStore.delete id w)) !! KVStore.getKey id = Some (r, dl) ->
            dl <= next_now (snd (KVStore.delete id w))) as Hgone.
  { intros r dl. unfold KVStore.delete, kv.del. simpl.
    rewrite lookup_delete_eq. discriminate. }
  intros w1. split; [reflexivity|]. split; [|split; [|split]].
  - unfold w1. rewrite (kv_get_gone _ _ Hgone). reflexivity.
  - intros d by_. unfold w1. rewrite (kv_setDecision_gone _ _ _ _ Hgone).
    reflexivity.
  - unfold KVStore.setExpired. unfold bind. unfold w1.
    rewrite (kv_get_gone _ _ Hgone). reflexivity.
  - intros id' Hne. unfold w1, KVStore.delete, kv.del. simpl.
    apply lookup_delete_ne. intros E. apply Hne. symmetry. apply getKey_inj, E.
Qed.

(** * The lifecycle kept by the endpoints *)

(** ** The store operations are steps *)

Lemma record_step_refl (id : jsstring) (w w' : World) :
  store (w_mem w') = store (w_mem w) -> w_kv w' = w_kv w -> record_step id w w'.
Proof. intros H1 H2. split; left; assumption. Qed.

Lemma mem_get_step id (w : World) :
  record_step id w (snd (MemoryStore.get id w)).
Proof.
  unfold MemoryStore.get, bind, get_mem, put_mem, Date_now, ret. simpl.
  destruct (store (w_mem w) !! id) as [r|] eqn:Hr; [|by apply record_step_refl].
  destruct (Status.eqb (status r) Status.pending) eqn:Hs; simpl;
    [|by apply record_step_refl].
  apply Status_eqb_eq in Hs.
  destruct (_ <=? _); simpl; [|by apply record_step_refl].
  split; [right|left; reflexivity]. exists r, (with_status r Status.expired).
  repeat split; try assumption. constructor.
Qed.

Lemma mem_setDecision_step id d by_ msg (w : World) :
  record_step id w (snd (MemoryStore.setDecision id d by_ msg w)).
Proof.
  unfold MemoryStore.setDecision, bind, get_mem, put_mem, Date_now, ret. simpl.
  destruct (store (w_mem w) !! id) as [r|] eqn:Hr; [|by apply record_step_refl].
  destruct (Status.eqb (status r) Status.pending) eqn:Hs; simpl;
    [|by apply record_step_refl].
  apply Status_eqb_eq in Hs.
  destruct (_ <=? _); simpl; (split; [right|left; reflexivity]);
    eexists r, _; (split; [exact Hr|]); (split; [exact Hs|]);
    (split; [|reflexivity]); constructor.
Qed.

Lemma mem_setExpired_step id (w : World) :
  record_step id w (snd (MemoryStore.setExpired id w)).
Proof.
  unfold MemoryStore.setExpired, bind, get_mem, put_mem, ret. simpl.
  destruct (store (w_mem w) !! id) as [r|] eqn:Hr; [|by apply record_step_refl].
  destruct (Status.eqb (status r) Status.pending) eqn:Hs; simpl;
    [|by apply record_step_refl].
  apply Status_eqb_eq in Hs. split; [right|left; reflexivity].
  eexists r, _. split; [exact Hr|]. split; [exact Hs|].
  split; [|reflexivity]. constructor.
Qed.

Lemma mem_handleExpiration_step id (w : World) :
  record_step id w (snd (MemoryStore.handleExpiration id w)).
Proof.
  unfold MemoryStore.handleExpiration, bind, get_mem, put_mem. simpl.
  destruct (store (w_mem w) !! id) as [r|] eqn:Hr; [|by apply record_step_refl].
  destruct (Status.eqb (status r) Status.pending) eqn:Hs;
    [|by apply record_step_refl].
  apply Status_eqb_eq in Hs. split; [right|left; reflexivity].
  eexists r, _. split; [exact Hr|]. split; [exact Hs|].
  split; [|reflexivity]. constructor.
Qed.

Lemma kv_get_step id (w : World) : record_step id w (snd (KVStore.get id w)).
Proof.
  unfold KVStore.get, kv.get, bind, Date_now. simpl.
  destruct (w_kv w !! KVStore.getKey id) as [[r dl]|];
    [destruct (_ <=? _)|]; by apply record_step_refl.
Qed.

Lemma kv_setDecision_step id d by_ (w : World) :
  record_step id w (snd (KVStore.setDecision id d by_ w)).
Proof.
  unfold KVStore.setDecision, KVStore.get, kv.get, kv.set, bind, Date_now, ret.
  simpl.
  destruct (w_kv w !! KVStore.getKey id) as [[r dl]|] eqn:Hr;
    [|by apply record_step_refl].
  destruct (_ <=? _); simpl; [by apply record_step_refl|].
  destruct (Status.eqb (status r) Status.pending) eqn:Hs; simpl;
    [|by apply record_step_refl].
  apply Status_eqb_eq in Hs. split; [left; reflexivity|right].
  eexists r, dl, _, _. split; [exact Hr|]. split; [exact Hs|].
  split; [|reflexivity]. constructor.
Qed.

Lemma kv_setExpired_step id (w : World) :
  record_step id w (snd (KVStore.setExpired id w)).
Proof.
  unfold KVStore.setExpired, KVStore.get, kv.get, kv.set, bind, Date_now, ret.
  simpl.
  destruct (w_kv w !! KVStore.getKey id) as [[r dl]|] eqn:Hr;
    [|by apply record_step_refl].
  destruct (_ <=? _); simpl; [by apply record_step_refl|].
  destruct (Status.eqb (status r) Status.pending) eqn:Hs; simpl;
    [|by apply record_step_refl].
  apply Status_eqb_eq in Hs. split; [left; reflexivity|right].
  eexists r, dl, _, _. split; [exact Hr|]. split; [exact Hs|].
  split; [|reflexivity]. constructor.
Qed.

(** ** Invariants of the steps are invariants of the endpoints *)

Section EndpointInvariant.

Variable Inv : World -> Prop.
Hypothesis Hsettle : forall w w', settles w w' -> Inv w -> Inv w'.

Lemma inv_of_step {A} (m : M A) (id : jsstring) :
  (forall w, record_step id w (snd (m w))) -> keeps Inv m (fun _ => True).
Proof using Hsettle.
  intros H w Hw. specialize (H w).
  destruct (m w) as [[a|e] w']; simpl in H;
    [split; [|exact I]|]; eapply Hsettle; eauto; exists id; exact H.
Qed.

Lemma inv_same_stores {A} (m : M A) :
  (forall w, store (w_mem (snd (m w))) = store (w_mem w) /\
             w_kv (snd (m w)) = w_kv w) ->
  keeps Inv m (fun _ => True).
Proof using Hsettle.
  intros H. apply (inv_of_step m []). intros w.
  destruct (H w). by apply record_step_refl.
Qed.

Lemma inv_Date_now : keeps Inv Date_now (fun _ => True).
Proof using Hsettle. apply inv_same_stores. intros w. split; reflexivity. Qed.

Lemma inv_get_env : keeps Inv get_env (fun _ => True).
Proof using Hsettle. apply inv_same_stores. intros w. split; reflexivity. Qed.

Lemma inv_getStore : keeps Inv getStore a_backend.
Proof using Hsettle.
  intros w Hw. rewrite getStore_eq. split; [exact Hw|].
  unfold a_backend. destruct (uses_kv _); auto.
Qed.

Lemma inv_verifyApiKey auth : keeps Inv (verifyApiKey auth) (fun _ => True).
Proof using Hsettle. apply inv_same_stores. intros w. split; reflexivity. Qed.

Lemma inv_createLarkClient : keeps Inv createLarkClient (fun _ => True).
Proof using Hsettle.
  apply inv_same_stores. intros w.
  unfold createLarkClient, bind, get_env, throw, ret.
  destruct (_ || _)%bool; split; reflexivity.
Qed.

Lemma inv_lark_call (c : LarkCall) : keeps Inv (lark_call c) (fun _ => True).
Proof using Hsettle.
  apply inv_same_stores. intros w. unfold lark_call.
  destruct (w_lark w) as [|[mid|] l]; split; reflexivity.
Qed.

Lemma inv_respond c b : keeps Inv (respond c b) (fun _ => True).
Proof using Hsettle. by apply keeps_ret. Qed.

Lemma inv_api_error c e : keeps Inv (api_error c e) (fun _ => True).
Proof using Hsettle. by apply keeps_ret. Qed.

Lemma inv_store_get (s : RequestStore.t) id :
  a_backend s -> keeps Inv (RequestStore.get s id) (fun _ => True).
Proof using Hsettle.
  intros [-> | ->]; apply (inv_of_step _ id); intros w;
    [apply kv_get_step|apply mem_get_step].
Qed.

Lemma inv_store_setDecision (s : RequestStore.t) id d by_ msg :
  a_backend s -> keeps Inv (RequestStore.setDecision s id d by_ msg) (fun _ => True).
Proof using Hsettle.
  intros [-> | ->]; apply (inv_of_step _ id); intros w;
    [apply kv_setDecision_step|apply mem_setDecision_step].
Qed.

Lemma inv_store_setExpired (s : RequestStore.t) id :
  a_backend s -> keeps Inv (RequestStore.setExpired s id) (fun _ => True).
Proof using Hsettle.
  intros [-> | ->]; apply (inv_of_step _ id); intros w;
    [apply kv_setExpired_step|apply mem_setExpired_step].
Qed.

Lemma inv_handleExpiration id :
  keeps Inv (MemoryStore.handleExpiration id) (fun _ => True).
Proof using Hsettle.
  apply (inv_of_step _ id). intros w. apply mem_handleExpiration_step.
Qed.

Ltac inv_step :=
  first
    [ apply inv_respond
    | apply inv_api_error
    | apply keeps_ret; exact I
    | eapply keeps_bind;
      [ first [ apply inv_verifyApiKey | apply inv_Date_now
              | apply inv_get_env | apply inv_getStore
              | apply inv_createLarkClient ]
      | intros ? ? ] ].

Lemma inv_status_handler (req : Request QueryParam) :
  keeps Inv (StatusApi.handler req) (fun _ => True).
Proof using Hsettle.
  unfold StatusApi.handler.
  destruct (negb (streq (method req) _)); [inv_step|].
  inv_step. destruct (negb a); [inv_step|].
  apply keeps_try_catch; [|intros e; inv_step].
  destruct (body req) as [|[|c s]|l]; try inv_step.
  eapply keeps_bind; [apply inv_store_get; assumption|]. intros [r|] _; [|inv_step].
  eapply keeps_bind with (R1 := fun _ => True).
  - destruct (Status.eqb _ _); [|inv_step]. inv_step. inv_step.
  - intros due _. destruct due; [|inv_step].
    eapply keeps_bind; [apply inv_store_setExpired; assumption|].
    intros _ _. inv_step.
Qed.

Lemma inv_callback_process id d open_id msg :
  keeps Inv (Callback.process id d open_id msg) (fun _ => True).
Proof using Hsettle.
  unfold Callback.process. inv_step.
  eapply keeps_bind; [apply inv_store_get; assumption|]. intros [r|] _; [|inv_step].
  destruct (negb _); [inv_step|]. inv_step.
  destruct (_ <=? _).
  - eapply keeps_bind; [apply inv_store_setExpired; assumption|]. intros _ _.
    eapply keeps_bind with (R1 := fun _ => True); [|intros _ _; inv_step].
    destruct (truthy _); [|inv_step]. inv_step.
    unfold updateAsExpired.
    eapply keeps_bind; [apply inv_lark_call|]. intros _ _. inv_step.
  - eapply keeps_bind; [apply keeps_required|]. intros op _.
    eapply keeps_bind; [apply inv_store_setDecision; assumption|].
    intros ok _. destruct (negb ok); [inv_step|].
    eapply keeps_bind with (R1 := fun _ => True);
      [|intros _ _; destruct d; inv_step].
    destruct (truthy _); [|inv_step]. inv_step.
    unfold updateWithDecision.
    eapply keeps_bind; [apply inv_lark_call|]. intros _ _. inv_step.
Qed.

Lemma inv_callback_handler (req : Request CallbackBody) :
  keeps Inv (Callback.handler req) (fun _ => True).
Proof using Hsettle.
  unfold Callback.handler.
  destruct (negb (streq (method req) _)); [inv_step|].
  apply keeps_try_catch; [|intros e; inv_step].
  eapply keeps_bind; [apply keeps_read_body|]. intros b _.
  destruct (is_string (cb_type b) _).
  - unfold Callback.handleUrlVerification. inv_step.
    destruct (_ && _)%bool; inv_step.
  - destruct (match cb_header b with Some _ => _ | None => _ end); [|inv_step].
    unfold Callback.handleCardAction. inv_step.
    eapply keeps_bind with (R1 := fun _ => True).
    { destruct (truthy _); [|inv_step].
      eapply keeps_bind; [apply keeps_required|]. intros h _. inv_step. }
    intros refused _. destruct refused; [inv_step|].
    eapply keeps_bind; [apply keeps_required|]. intros ev _.
    eapply keeps_bind; [apply keeps_required|]. intros action _.
    eapply keeps_bind; [apply keeps_required|]. intros v _.
    destruct (_ || _)%bool; [inv_step|].
    destruct (parse_decision _) as [d|]; [|inv_step].
    destruct d.
    + apply keeps_try_catch; [apply inv_callback_process|intros e; inv_step].
    + apply keeps_try_catch; [apply inv_callback_process|intros e; inv_step].
    + destruct (user_message action) as [|s|[|]];
        [inv_step| |apply keeps_throw|inv_step].
      destruct (blank _); [inv_step|].
      apply keeps_try_catch; [apply inv_callback_process|intros e; inv_step].
Qed.

Lemma inv_invoke_settling (i : Invocation) (w : World) :
  no_create i -> Inv w -> Inv (invoke i w).
Proof using Hsettle.
  intros Hi H. destruct i; unfold invoke; [destruct Hi| | |].
  - exact (keeps_snd _ _ _ _ (inv_status_handler req) H).
  - exact (keeps_snd _ _ _ _ (inv_callback_handler req) H).
  - exact (keeps_snd _ _ _ _ (inv_handleExpiration id) H).
Qed.

Lemma inv_invoke_all_settling (l : list Invocation) (w : World) :
  Forall no_create l -> Inv w -> Inv (invoke_all l w).
Proof using Hsettle.
  revert w. induction l as [|i l IH]; intros w Hl H; [exact H|].
  inversion Hl; subst. simpl. apply IH; [assumption|].
  apply inv_invoke_settling; assumption.
Qed.

(** With creations among the steps, the create endpoint is covered too. *)
Hypothesis Hcreate : forall w w', create_step w w' -> Inv w -> Inv w'.

Lemma inv_randomUUID : keeps Inv randomUUID (fun _ => True).
Proof using Hsettle. apply inv_same_stores. intros w. split; reflexivity. Qed.

Lemma inv_store_set (s : RequestStore.t) id (data : StoredRequest) :
  a_backend s -> status data = Status.pending -> decision data = None ->
  keeps Inv (RequestStore.set s id data) (fun _ => True).
Proof using Hcreate.
  intros Hs Hp Hd w Hw.
  assert (create_step w (snd (RequestStore.set s id data w))) as Hstep.
  { exists id, data. split; [exact Hp|]. split; [exact Hd|].
    destruct Hs as [-> | ->]; [right|left]; simpl.
    - unfold KVStore.set, kv.set, bind, Date_now. simpl. eauto.
    - unfold MemoryStore.set, bind, get_mem, put_mem, Date_now. simpl. auto. }
  destruct (RequestStore.set s id data w) as [[a|e] w'] eqn:E; simpl in Hstep;
    [split; [|exact I]|]; eapply Hcreate; eauto.
Qed.

Lemma inv_notify_handler (req : Request (Payload NotifyRequest)) :
  keeps Inv (Notify.handler req) (fun _ => True).
Proof using Hsettle Hcreate.
  unfold Notify.handler.
  destruct (negb (streq (method req) _)); [inv_step|].
  inv_step. destruct (negb a); [inv_step|].
  apply keeps_try_catch; [|intros e; inv_step].
  eapply keeps_bind; [apply keeps_read_body|]. intros b _.
  destruct (_ || _)%bool; [inv_step|].
  eapply keeps_bind; [apply inv_randomUUID|]. intros uuid _.
  do 4 inv_step.
  unfold sendPermissionRequest.
  eapply keeps_bind; [apply inv_lark_call|]. intros mid _.
  eapply keeps_bind; [apply inv_store_set; [assumption|reflexivity..]|].
  intros _ _. inv_step.
Qed.

Lemma inv_invoke (i : Invocation) (w : World) : Inv w -> Inv (invoke i w).
Proof using Hsettle Hcreate.
  intros H. destruct i; [|apply inv_invoke_settling; [exact I|exact H]..].
  exact (keeps_snd _ _ _ _ (inv_notify_handler req) H).
Qed.

Lemma inv_invoke_all (l : list Invocation) (w : World) :
  Inv w -> Inv (invoke_all l w).
Proof using Hsettle Hcreate.
  revert w. induction l as [|i l IH]; intros w H; [exact H|].
  simpl. apply IH, inv_invoke, H.
Qed.

End EndpointInvariant.

(** ** What the endpoints do to the stores *)

(** X9: the endpoints change the records of the stores by lifecycle steps
    only.  A poll, a card action or a timer rewrites at most pending records,
    each into [expired] or into a decided record; a create request adds
    pending records without decision; nothing else is ever written and no
    record is removed. *)
Theorem endpoints_follow_lifecycle (history : list Invocation) (w : World) :
  rtc lifecycle_step w (invoke_all history w) /\
  (Forall no_create history -> rtc settles w (invoke_all history w)).
Proof.
  split.
  - apply (inv_invoke_all (rtc lifecycle_step w)); [| |apply rtc_refl].
    + intros w1 w2 Hs H. eapply rtc_r; [exact H|left; exact Hs].
    + intros w1 w2 Hs H. eapply rtc_r; [exact H|right; exact Hs].
  - intros Hh. apply (inv_invoke_all_settling (rtc settles w)); [|exact Hh|apply rtc_refl].
    intros w1 w2 Hs H. eapply rtc_r; [exact H|exact Hs].
Qed.

Lemma endpoints_follow_lifecycle_witness :
  Forall no_create sample_settling /\
  rtc settles mem_pending_world (invoke_all sample_settling mem_pending_world).
Proof.
  assert (Forall no_create sample_settling) as H by (repeat constructor).
  split; [exact H|].
  exact (proj2 (endpoints_follow_lifecycle sample_settling mem_pending_world) H).
Defined.

Lemma transition_metadata id (r r' : StoredRequest) :
  transition id r r' -> same_metadata r r'.
Proof. intros []; repeat split. Qed.

Lemma same_metadata_trans (a b c : StoredRequest) :
  same_metadata a b -> same_metadata b c -> same_metadata a c.
Proof. unfold same_metadata. intros (? & ? & ?) (? & ? & ?). repeat split; congruence. Qed.

Lemma settles_keeps_record id (r : StoredRequest) (w w' : World) :
  settles w w' ->
  (store (w_mem w) !! id = Some r ->
   exists r', store (w_mem w') !! id = Some r' /\ same_metadata r r') /\
  (forall dl, w_kv w !! KVStore.getKey id = Some (r, dl) ->
   exists r' dl', w_kv w' !! KVStore.getKey id = Some (r', dl') /\
                  same_metadata r r').
Proof.
  intros (i & Hm & Hk). split.
  - intros Hr. destruct Hm as [->|(x & x' & Hx & _ & Ht & ->)].
    + exists r. split; [exact Hr|]. repeat split.
    + destruct (decide (i = id)) as [->|Hne].
      * rewrite lookup_insert_eq. exists x'. split; [reflexivity|].
        assert (x = r) by congruence. subst. apply (transition_metadata _ _ _ Ht).
      * rewrite lookup_insert_ne by done. exists r. split; [exact Hr|]. repeat split.
  - intros dl Hr. destruct Hk as [->|(x & dx & x' & dx' & Hx & _ & Ht & ->)].
    + exists r, dl. split; [exact Hr|]. repeat split.
    + destruct (decide (i = id)) as [->|Hne].
      * rewrite lookup_insert_eq. exists x', dx'. split; [reflexivity|].
        assert (x = r) by congruence. subst. apply (transition_metadata _ _ _ Ht).
      * rewrite lookup_insert_ne by (intros E; apply Hne, getKey_inj, E).
        exists r, dl. split; [exact Hr|]. repeat split.
Qed.

(** X10: a stored request is immutable but for its status and decision.
    Whatever polls, card actions and timers follow, each store still holds
    the record, with the same [request] (so the same [expiresAt]), the same
    [larkMessageId] and the same [createdAt]. *)
Theorem request_metadata_is_kept (history : list Invocation) (w : World)
    (id : jsstring) (r : StoredRequest) (Hhistory : Forall no_create history) :
  (store (w_mem w) !! id = Some r ->
   exists r', store (w_mem (invoke_all history w)) !! id = Some r' /\
              same_metadata r r') /\
  (forall dl, w_kv w !! KVStore.getKey id = Some (r, dl) ->
   exists r' dl',
     w_kv (invoke_all history w) !! KVStore.getKey id = Some (r', dl') /\
     same_metadata r r').
Proof.
  pose proof (proj2 (endpoints_follow_lifecycle history w) Hhistory) as Hrtc.
  revert r. induction Hrtc as [w|w w1 w2 Hstep _ IH]; intros r.
  - split; [|intros dl]; intros Hr; eexists; [|eexists]; (split; [exact Hr|]);
      repeat split.
  - destruct (settles_keeps_record id r w w1 Hstep) as [Hm Hk]. split.
    + intros Hr. destruct (Hm Hr) as (r1 & Hr1 & Hs1).
      destruct (proj1 (IH r1) Hr1) as (r2 & Hr2 & Hs2).
      exists r2. split; [exact Hr2|]. eapply same_metadata_trans; eassumption.
    + intros dl Hr. destruct (Hk dl Hr) as (r1 & dl1 & Hr1 & Hs1).
      destruct (proj2 (IH r1) dl1 Hr1) as (r2 & dl2 & Hr2 & Hs2).
      exists r2, dl2. split; [exact Hr2|]. eapply same_metadata_trans; eassumption.
Qed.

Lemma request_metadata_is_kept_witness :
  Forall no_create sample_settling /\
  store (w_mem mem_pending_world) !! id0 = Some (sample_stored id0 300000) /\
  exists r', store (w_mem (invoke_all sample_settling mem_pending_world)) !! id0
               = Some r' /\
             same_metadata (sample_stored id0 300000) r'.
Proof.
  assert (Forall no_create sample_settling) as H by (repeat constructor).
  split; [exact H|]. split; [reflexivity|].
  exact (proj1 (request_metadata_is_kept sample_settling mem_pending_world id0
                  (sample_stored id0 300000) H) eq_refl).
Defined.

Lemma consistent_pending (r : StoredRequest) :
  consistent r -> status r = Status.pending -> decision r = None.
Proof.
  unfold consistent. destruct (decision r); [|reflexivity].
  intros [H|[H|H]] Hs; rewrite Hs in H; discriminate.
Qed.

Lemma transition_consistent id (r r' : StoredRequest) :
  consistent r -> status r = Status.pending -> transition id r r' -> consistent r'.
Proof.
  intros Hc Hs Ht. pose proof (consistent_pending r Hc Hs) as Hd.
  destruct Ht as [|d by_ msg at_|d by_ at_]; unfold consistent; simpl.
  - rewrite Hd. auto.
  - destruct d; auto.
  - destruct d; auto.
Qed.

Lemma lifecycle_step_consistent (w w' : World) :
  lifecycle_step w w' -> all_consistent w -> all_consistent w'.
Proof.
  intros Hstep [Hm Hk].
  destruct Hstep as [(i & Hsm & Hsk)|(i & data & Hp & Hd & Hc)].
  - split.
    + destruct Hsm as [->|(x & x' & Hx & Hs & Ht & ->)]; [exact Hm|].
      intros id r Hr. apply lookup_insert_Some in Hr.
      destruct Hr as [[_ <-]|[_ Hr]]; [|eauto].
      eapply transition_consistent; eauto.
    + destruct Hsk as [->|(x & dx & x' & dx' & Hx & Hs & Ht & ->)]; [exact Hk|].
      intros key r dl Hr. apply lookup_insert_Some in Hr.
      destruct Hr as [[_ E]|[_ Hr]]; [|eauto].
      injection E as <- <-. eapply transition_consistent; eauto.
  - assert (consistent data) as Hdata.
    { unfold consistent. rewrite Hd. auto. }
    unfold all_consistent.
    destruct Hc as [[-> ->]|[-> [dl ->]]]; split; try assumption.
    + intros id r Hr. apply lookup_insert_Some in Hr.
      destruct Hr as [[_ <-]|[_ Hr]]; eauto.
    + intros key r dl' Hr. apply lookup_insert_Some in Hr.
      destruct Hr as [[_ E]|[_ Hr]]; [|eauto]. injection E as <- <-. exact Hdata.
Qed.

(** X11: [decision] is populated if and only if the status is [approved],
    [denied] or [message].  This holds of every record of both stores after
    any sequence of create requests, polls, card actions and timers, when it
    held before (as in a fresh deployment). *)
Theorem decision_matches_status (history : list Invocation) (w : World)
    (Hinit : all_consistent w) :
  all_consistent (invoke_all history w).
Proof.
  pose proof (proj1 (endpoints_follow_lifecycle history w)) as Hrtc.
  induction Hrtc as [w|w w1 w2 Hstep _ IH]; [exact Hinit|].
  apply IH. eapply lifecycle_step_consistent; eassumption.
Qed.

Lemma fresh_world_consistent e t ticks lark :
  all_consistent (fresh_world e t ticks lark).
Proof.
  split; simpl.
  - intros id r H. rewrite lookup_empty in H. discriminate.
  - intros key r dl H. rewrite lookup_empty in H. discriminate.
Defined.

Lemma decision_matches_status_witness :
  let w0 := fresh_world env_memory 0 [] [Some (str "om_1")] in
  all_consistent w0 /\ all_consistent (invoke_all sample_history w0).
Proof.
  intros w0. split; [apply fresh_world_consistent|].
  exact (decision_matches_status sample_history w0 (fresh_world_consistent _ _ _ _)).
Defined.

(** * Further properties of the endpoints *)

(** ** The API key *)

Lemma startsWith_app (p s : jsstring) :
  startsWith p s = true <-> exists rest, s = p ++ rest.
Proof.
  revert s. induction p as [|a p IH]; intros s; simpl.
  - split; [eauto|reflexivity].
  - destruct s as [|b s]; [split; [discriminate|intros [? ?]; discriminate]|].
    rewrite andb_true_iff, N.eqb_eq, IH. split.
    + intros [-> [rest ->]]. eauto.
    + intros [rest [= -> ->]]. eauto.
Qed.

(** X12: the agent-facing endpoints accept a request exactly when no API key
    is configured ([LARK_API_KEY] undefined or empty), or the
    [Authorization] header is the configured key behind the prefix
    "Bearer "; the test itself changes nothing. *)
Theorem verifyApiKey_accepts (auth : option jsstring) (w : World) :
  snd (verifyApiKey auth w) = w /\
  (fst (verifyApiKey auth w) = Ok true <->
   truthy (LARK_API_KEY (w_env w)) = false \/
   exists key, LARK_API_KEY (w_env w) = Some key /\
               auth = Some (str "Bearer " ++ key)).
Proof.
  split; [reflexivity|].
  unfold verifyApiKey, bind, get_env, ret, api_key_ok. cbv beta iota.
  cbn [fst]. destruct (LARK_API_KEY (w_env w)) as [[|c k]|] eqn:Hk.
  - split; [left; reflexivity|reflexivity].
  - split.
    + intros H. right. exists (c :: k). split; [reflexivity|].
      destruct auth as [h|]; [|discriminate].
      destruct (startsWith (str "Bearer ") h) eqn:Hs; [|discriminate].
      apply startsWith_app in Hs. destruct Hs as [rest ->].
      injection H as H. unfold streq in H. apply bool_decide_eq_true_1 in H.
      change (rest = c :: k) in H. rewrite H. reflexivity.
    + intros [H|(key & [= <-] & ->)]; [discriminate|].
      assert (startsWith (str "Bearer ") (str "Bearer " ++ c :: k) = true) as ->
        by (apply startsWith_app; eauto).
      assert (drop 7 (str "Bearer " ++ c :: k) = c :: k) as -> by reflexivity.
      rewrite streq_refl. reflexivity.
  - split; [left; reflexivity|reflexivity].
Qed.

(** ** The create endpoint *)

Lemma last_segment_from_spec (acc s : jsstring) :
  (~ In 47%N s /\ last_segment_from acc s = rev acc ++ s) \/
  (exists pre seg, s = pre ++ 47%N :: seg /\ ~ In 47%N seg /\
                   last_segment_from acc s = seg).
Proof.
  revert acc. induction s as [|c s IH]; intros acc; simpl.
  - left. split; [tauto|]. rewrite app_nil_r. reflexivity.
  - destruct (N.eqb_spec c 47) as [->|Hc].
    + right. destruct (IH []) as [[Hno E]|(pre & seg & -> & Hno & E)].
      * exists [], s. split; [reflexivity|]. split; [exact Hno|exact E].
      * exists (47%N :: pre), seg. split; [reflexivity|]. split; [exact Hno|exact E].
    + destruct (IH (c :: acc)) as [[Hno E]|(pre & seg & -> & Hno & E)].
      * left. split; [intros [?|?]; [congruence|tauto]|].
        rewrite E. simpl. rewrite <- app_assoc. reflexivity.
      * right. exists (c :: pre), seg. split; [reflexivity|]. split; [exact Hno|exact E].
Qed.

(** [s.split('/').pop()] is the part of [s] after its last ['/']. *)
Lemma split_slash_pop_spec (s : jsstring) :
  ~ In 47%N (split_slash_pop s) /\
  (s = split_slash_pop s \/ exists pre, s = pre ++ 47%N :: split_slash_pop s).
Proof.
  unfold split_slash_pop.
  destruct (last_segment_from_spec [] s) as [[Hno E]|(pre & seg & Hs & Hno & E)];
    rewrite E.
  - simpl. split; [exact Hno|left; reflexivity].
  - split; [exact Hno|right; exists pre; exact Hs].
Qed.

Lemma createLarkClient_ok (w : World) :
  lark_configured (w_env w) -> createLarkClient w = (Ok tt, w).
Proof.
  intros (H1 & H2 & H3). unfold createLarkClient, bind, get_env, throw, ret.
  rewrite H1, H2, H3. reflexivity.
Qed.

(** X13: a well-formed create request whose card the chat platform accepts
    is answered 200 with the drawn id and [expiresAt = now + timeout] (five
    minutes unless [LARK_TIMEOUT] says otherwise), and leaves in the selected
    store a pending record without decision, holding the message id.  Its
    risk level is the one of the body if given, the classifier's otherwise;
    its project is never empty, and when the body names none it is the part
    of the working directory after the last slash, or "Unknown" when that
    part is empty (a trailing slash). *)
Theorem notify_creates_pending (req : Request (Payload NotifyRequest)) (w : World)
    (mid : jsstring) (answers_left : list (option jsstring))
    (Hreq : well_formed_create (w_env w) req)
    (Hlark : lark_configured (w_env w))
    (Hanswer : w_lark w = Some mid :: answers_left) :
  let id := w_uuid w (w_uuid_next w) in
  let now := next_now w in
  exists (pr : PermissionRequest) (w' : World),
    Notify.handler req w =
      (Ok {| code := 200;
             json := ApiResponse true
               (Some (NotifyResponse id (now + configured_timeout (w_env w))))
               None |}, w') /\
    stored_record id w' =
      Some {| request := pr; status := Status.pending; decision := None;
              larkMessageId := Some mid; createdAt := now |} /\
    w_cards w' = SendPermissionRequest pr :: w_cards w /\
    requestId pr = id /\ timestamp pr = now /\
    expiresAt pr = now + configured_timeout (w_env w) /\
    tool pr = unwrap (n_tool (fields req)) /\
    command pr = n_command (fields req) /\
    workingDirectory pr = unwrap (n_workingDirectory (fields req)) /\
    riskLevel pr = match n_riskLevel (fields req) with
                   | Some l => l
                   | None => determineRiskLevel (tool pr) (command pr)
                   end /\
    project pr <> [] /\
    (truthy (n_project (fields req)) = true ->
     project pr = unwrap (n_project (fields req))) /\
    (truthy (n_project (fields req)) = false ->
     ~ In 47%N (project pr) /\
     (project pr = str "Unknown" \/
      workingDirectory pr = project pr \/
      exists pre, workingDirectory pr = pre ++ 47%N :: project pr) /\
     ((exists pre, workingDirectory pr = pre ++ [47%N]) ->
      project pr = str "Unknown")).
Proof.
  intros id now. destruct Hreq as (Hm & Hkey & Htool & Hwd).
  assert (exists b, body req = body_of b) as [b Hbody].
  { unfold fields in Htool. destruct (body req); [discriminate..|eauto]. }
  assert (fields req = b) as Hfields by (unfold fields; rewrite Hbody; reflexivity).
  rewrite Hfields in *.
  set (wd := unwrap (n_workingDirectory b)).
  set (proj := unwrap (or_else (or_else (n_project b) (Some (split_slash_pop wd)))
                         (Some (str "Unknown")))).
  set (pr := {| requestId := id; tool := unwrap (n_tool b); command := n_command b;
                description := None; args := n_args b; workingDirectory := wd;
                project := proj;
                riskLevel := match n_riskLevel b with
                             | Some r => r
                             | None => determineRiskLevel (unwrap (n_tool b))
                                         (n_command b)
                             end;
                timestamp := now;
                expiresAt := now + configured_timeout (w_env w) |}).
  assert (exists w',
            Notify.handler req w =
              (Ok {| code := 200;
                     json := ApiResponse true
                       (Some (NotifyResponse id (now + configured_timeout (w_env w))))
                       None |}, w') /\
            stored_record id w' =
              Some {| request := pr; status := Status.pending; decision := None;
                      larkMessageId := Some mid; createdAt := now |} /\
            w_cards w' = SendPermissionRequest pr :: w_cards w) as (w' & Hrun & Hst & Hcards).
  { unfold Notify.handler. rewrite Hm, streq_refl. cbn [negb].
    erewrite bind_ok by reflexivity. cbv beta iota. rewrite Hkey. cbn [negb].
    unfold try_catch.
    erewrite bind_ok by (rewrite Hbody; reflexivity). cbv beta iota.
    rewrite Htool, Hwd. cbn [negb orb].
    erewrite bind_ok by reflexivity. cbv beta iota.
    erewrite bind_ok by reflexivity. cbv beta iota.
    erewrite bind_ok by reflexivity. cbv beta iota.
    erewrite bind_ok by apply getStore_eq. cbv beta iota.
    erewrite bind_ok by (apply createLarkClient_ok; exact Hlark). cbv beta iota.
    unfold sendPermissionRequest.
    erewrite bind_ok by (unfold lark_call; cbn [w_lark set_clock set_uuid_next];
                         rewrite Hanswer; reflexivity).
    cbv beta iota.
    cbn [w_env set_clock set_uuid_next set_lark].
    destruct (uses_kv (w_env w)) eqn:Hkv.
    - cbn [RequestStore.set createKVStore].
      unfold KVStore.set, kv.set, bind, Date_now, respond, ret.
      eexists. split; [reflexivity|]. split; [|reflexivity].
      unfold stored_record, kv_record.
      cbn [w_env set_kv set_lark set_clock set_uuid_next w_kv snd].
      rewrite Hkv, lookup_insert_eq. reflexivity.
    - cbn [RequestStore.set getMemoryStore].
      unfold MemoryStore.set, bind, get_mem, put_mem, Date_now, respond, ret.
      eexists. split; [reflexivity|]. split; [|reflexivity].
      unfold stored_record, mem_record.
      cbn [w_env set_mem set_lark set_clock set_uuid_next w_mem store snd].
      rewrite Hkv, lookup_insert_eq. reflexivity. }
  exists pr, w'. split; [exact Hrun|]. split; [exact Hst|]. split; [exact Hcards|].
  repeat (split; [reflexivity|]).
  destruct (split_slash_pop_spec wd) as [Hno Hwdspec].
  assert (proj <> []) as Hne.
  { unfold proj, or_else. destruct (n_project b) as [[|c p]|]; simpl;
      destruct (split_slash_pop wd); discriminate. }
  split; [exact Hne|]. split.
  - intros Hp. cbn [project pr]. unfold proj, or_else. rewrite Hp.
    destruct (n_project b) as [[|c p]|]; [discriminate|reflexivity|discriminate].
  - intros Hp. cbn [project workingDirectory pr].
    assert (proj = match split_slash_pop wd with
                   | [] => str "Unknown"
                   | seg => seg
                   end) as Hproj.
    { unfold proj, or_else. rewrite Hp. simpl.
      destruct (split_slash_pop wd); reflexivity. }
    rewrite Hproj. destruct (split_slash_pop wd) as [|c seg] eqn:Hseg.
    + split; [vm_compute; intuition discriminate|]. split; [left; reflexivity|].
      reflexivity.
    + split; [exact Hno|]. split; [right; exact Hwdspec|].
      intros [pre Hpre]. exfalso.
      destruct Hwdspec as [E|[pre' E]]; rewrite Hpre in E.
      * apply Hno. rewrite <- E. apply in_or_app. right. left. reflexivity.
      * apply (f_equal (@rev N)) in E. rewrite !rev_app_distr in E. simpl in E.
        rewrite <- app_assoc in E. simpl in E.
        destruct (rev seg) as [|x xs] eqn:Hrev.
        -- simpl in E. injection E as E _. apply Hno. left. congruence.
        -- simpl in E. injection E as E _.
           apply Hno. right. apply in_rev. rewrite Hrev. left. congruence.
Qed.

(** X14: the create endpoint never throws and never half-creates.  It either
    answers 200, having sent the card, or answers 400, 401, 405 or 500 with
    [success: false], and then neither store has been written: a request
    whose card could not be sent (configuration missing, platform failure) is
    not stored. *)
Theorem notify_stores_only_on_success (req : Request (Payload NotifyRequest)) (w : World) :
  exists (resp : Response) (w' : World),
    Notify.handler req w = (Ok resp, w') /\
    ((code resp = 200 /\
      exists pr, w_cards w' = SendPermissionRequest pr :: w_cards w) \/
     ((code resp = 400 \/ code resp = 401 \/ code resp = 405 \/ code resp = 500) /\
      (exists e, json resp = ApiResponse false None (Some e)) /\
      w_mem w' = w_mem w /\ w_kv w' = w_kv w)).
Proof.
  unfold Notify.handler, api_error, respond, ret.
  destruct (negb (streq (method req) _)).
  { eexists _, _. split; [reflexivity|]. right. simpl. eauto 10. }
  erewrite bind_ok by reflexivity. cbv beta iota.
  destruct (negb (api_key_ok _ _)).
  { eexists _, _. split; [reflexivity|]. right. simpl. eauto 10. }
  unfold try_catch.
  unfold bind at 1. unfold read_body, throw, ret.
  destruct (body req) as [| |b].
  1-2: eexists _, _; (split; [reflexivity|]); right; simpl; eauto 10.
  destruct (_ || _)%bool.
  { eexists _, _. split; [reflexivity|]. right. simpl. eauto 10. }
  erewrite bind_ok by reflexivity. cbv beta iota.
  erewrite bind_ok by reflexivity. cbv beta iota.
  erewrite bind_ok by reflexivity. cbv beta iota.
  erewrite bind_ok by apply getStore_eq. cbv beta iota.
  unfold bind at 1. unfold createLarkClient, bind, get_env, throw, ret.
  cbn [w_env set_clock set_uuid_next].
  destruct (_ || _)%bool.
  { eexists _, _. split; [reflexivity|]. right. simpl. eauto 10. }
  unfold sendPermissionRequest, lark_call.
  cbn [w_lark set_clock set_uuid_next w_cards].
  destruct (w_lark w) as [|[mid|] l].
  - eexists _, _. split; [reflexivity|]. right. simpl. eauto 10.
  - destruct (uses_kv (w_env w)).
    + cbn [RequestStore.set createKVStore].
      unfold KVStore.set, kv.set, bind, Date_now.
      eexists _, _. split; [reflexivity|]. left. simpl. eauto.
    + cbn [RequestStore.set getMemoryStore].
      unfold MemoryStore.set, bind, get_mem, put_mem, Date_now.
      eexists _, _. split; [reflexivity|]. left. simpl. eauto.
  - eexists _, _. split; [reflexivity|]. right. simpl. eauto 10.
Qed.

(** ** The poll endpoint *)

Lemma store_get_held (w : World) (id : jsstring) (r : StoredRequest) :
  holds w id r ->
  status r <> Status.pending \/ next_now w < expiresAt (request r) ->
  exists w', RequestStore.get
               (if uses_kv (w_env w) then createKVStore else getMemoryStore) id w
             = (Ok (Some r), w') /\
             w_mem w' = w_mem w /\ w_kv w' = w_kv w /\ w_env w' = w_env w /\
             (w' = w \/ w' = tick w).
Proof.
  intros [[Hkv Hr]|[Hkv (dl & Hr & Hdl)]] Hdue; rewrite Hkv.
  - cbn [RequestStore.get getMemoryStore].
    unfold MemoryStore.get, bind, get_mem, put_mem, Date_now, ret. simpl.
    rewrite Hr. destruct (Status.eqb (status r) Status.pending) eqn:Hs.
    + apply Status_eqb_eq in Hs. destruct Hdue as [?|Hlt]; [done|]. simpl.
      destruct (Z.leb_spec (expiresAt (request r)) (next_now w)); [lia|].
      eexists. split; [reflexivity|]. simpl. auto.
    + eexists. split; [reflexivity|]. auto.
  - cbn [RequestStore.get createKVStore].
    rewrite (kv_get_held _ _ _ _ Hr Hdl). eexists. split; [reflexivity|].
    simpl. auto.
Qed.

(** X15: a poll for a request the store holds and that is not due (decided,
    expired, or pending with [expiresAt] still ahead) reports the stored
    status, the kind and instant of the decision if there is one, and its
    message only when that is not empty; it writes to neither store. *)
Theorem poll_reports_record (id : jsstring) (auth : option jsstring)
    (w : World) (r : StoredRequest)
    (Hid : id <> [])
    (Hkey : api_key_ok (w_env w) auth = true)
    (Hheld : holds w id r)
    (Hnot_due : status r <> Status.pending \/
                next_now (tick w) < expiresAt (request r)) :
  exists (sr : StatusResponse) (w' : World),
    StatusApi.handler (poll_request id auth) w =
      (Ok {| code := 200; json := ApiResponse true (Some (StatusData sr)) None |},
       w') /\
    sr_status sr = known (status r) /\
    sr_decision sr = d_decision <$> decision r /\
    sr_respondedAt sr = respondedAt <$> decision r /\
    sr_message sr = decision r ≫= reported_message /\
    w_mem w' = w_mem w /\ w_kv w' = w_kv w.
Proof.
  pose proof (next_now_ge (tick w)) as Hge. simpl in Hge.
  destruct (store_get_held w id r Hheld) as (w1 & Hget & Hm1 & Hk1 & He1 & Hw1).
  { destruct Hnot_due; [left; assumption|right; lia]. }
  unfold StatusApi.handler, poll_request. cbn [method authorization body].
  rewrite streq_refl. cbn [negb].
  erewrite bind_ok by reflexivity. cbv beta iota. rewrite Hkey. cbn [negb].
  destruct id as [|ch id]; [done|]. set (i := ch :: id) in *.
  assert (exists w2,
            (if Status.eqb (status r) Status.pending
             then let* now := Date_now in ret (expiresAt (request r) <=? now)
             else ret false) w1 = (Ok false, w2) /\
            w_mem w2 = w_mem w /\ w_kv w2 = w_kv w) as (w2 & Hdue & Hm2 & Hk2).
  { destruct (Status.eqb (status r) Status.pending) eqn:Hs.
    - apply Status_eqb_eq in Hs. destruct Hnot_due as [?|Hlt]; [done|].
      unfold bind, Date_now, ret.
      assert (next_now w1 <= next_now (tick w)) as Hle.
      { destruct Hw1 as [->| ->]; [exact Hge|].
        pose proof (next_now_ge (tick w)). simpl in *. lia. }
      destruct (Z.leb_spec (expiresAt (request r)) (next_now w1)); [lia|].
      eexists. split; [reflexivity|]. simpl. auto.
    - eexists. split; [reflexivity|]. auto. }
  eexists _, w2. split.
  - apply try_catch_ok.
    erewrite bind_ok by apply getStore_eq. cbv beta iota.
    erewrite bind_ok by exact Hget. cbv beta iota.
    erewrite bind_ok by exact Hdue. cbv beta iota. reflexivity.
  - unfold reported_message.
    destruct (decision r) as [d|]; simpl; auto 10.
Qed.

(** X16: a poll without a usable id (absent, empty, or given several times)
    is answered 400 and changes nothing; a poll for an id under which the
    store holds nothing is answered 200 with status [not_found], not an
    error, and writes to neither store. *)
Theorem poll_unknown_id (q : QueryParam) (auth : option jsstring) (w : World)
    (Hkey : api_key_ok (w_env w) auth = true) :
  let req := {| method := str "GET"; authorization := auth; body := q |} in
  ((q = q_absent \/ q = q_string [] \/ exists l, q = q_array l) ->
   StatusApi.handler req w =
     (Ok {| code := 400;
            json := ApiResponse false None (Some (str "Missing request ID")) |},
      w)) /\
  (forall id, q = q_string id -> id <> [] -> holds_nothing w id ->
   exists w',
     StatusApi.handler req w =
       (Ok {| code := 200;
              json := ApiResponse true
                (Some (StatusData {| sr_status := not_found; sr_decision := None;
                                     sr_message := None;
                                     sr_respondedAt := None |})) None |}, w') /\
     w_mem w' = w_mem w /\ w_kv w' = w_kv w).
Proof.
  intros req. unfold StatusApi.handler, req. cbn [method authorization body].
  rewrite streq_refl. cbn [negb].
  erewrite bind_ok by reflexivity. cbv beta iota. rewrite Hkey. cbn [negb].
  split.
  - intros [->|[->|[l ->]]]; reflexivity.
  - intros id -> Hid Hnone. destruct id as [|ch id]; [done|].
    set (i := ch :: id) in *.
    assert (exists w', RequestStore.get
              (if uses_kv (w_env w) then createKVStore else getMemoryStore) i w
              = (Ok None, w') /\ w_mem w' = w_mem w /\ w_kv w' = w_kv w)
      as (w' & Hget & Hm & Hk).
    { destruct Hnone as [[Hkv Hr]|[Hkv Hr]]; rewrite Hkv.
      - cbn [RequestStore.get getMemoryStore].
        unfold MemoryStore.get, bind, get_mem. simpl. rewrite Hr. eauto.
      - cbn [RequestStore.get createKVStore]. rewrite (kv_get_gone _ _ Hr).
        eexists. split; [reflexivity|]. auto. }
    exists w'. split; [|auto]. apply try_catch_ok.
    erewrite bind_ok by apply getStore_eq. cbv beta iota.
    erewrite bind_ok by exact Hget. reflexivity.
Qed.

(** ** The callback endpoint *)

Lemma answers_bind {A B} (S : B -> Prop) (m : M A) (k : A -> M B) :
  (forall a, answers S (k a)) -> answers S (bind m k).
Proof.
  intros Hk w. unfold bind. destruct (m w) as [[a|e] w']; [apply Hk|exact I].
Qed.

Lemma answers_respond (S : Response -> Prop) (c : Z) (b : Body) :
  S {| code := c; json := b |} -> answers S (respond c b).
Proof. intros H w. exact H. Qed.

Lemma toast_is_toast t c : is_toast {| code := 200; json := Toast t c |}.
Proof. split; [reflexivity|eauto]. Qed.

Lemma process_answers_toast id d open_id msg :
  answers is_toast (Callback.process id d open_id msg).
Proof.
  unfold Callback.process.
  apply answers_bind. intros s. apply answers_bind. intros [r|];
    [|apply answers_respond, toast_is_toast].
  destruct (negb _); [apply answers_respond, toast_is_toast|].
  apply answers_bind. intros now. destruct (_ <=? _).
  - apply answers_bind. intros _. apply answers_bind. intros _.
    apply answers_respond, toast_is_toast.
  - apply answers_bind. intros op. apply answers_bind. intros ok.
    destruct (negb ok); [apply answers_respond, toast_is_toast|].
    apply answers_bind. intros _.
    destruct d; apply answers_respond, toast_is_toast.
Qed.

Lemma process_caught id d open_id msg (w : World) :
  exists resp w',
    try_catch (Callback.process id d open_id msg)
      (fun _ => respond 200 (Toast toast_error (str "Failed to process action"))) w
    = (Ok resp, w') /\ is_toast resp.
Proof.
  pose proof (process_answers_toast id d open_id msg w) as H.
  unfold try_catch. destruct (Callback.process id d open_id msg w) as [[resp|e] w'].
  - eauto.
  - eexists _, _. split; [reflexivity|]. apply toast_is_toast.
Qed.

(** What [handleCardAction] does with a body that has a header: it answers
    by a toast, or leaves the world alone and answers 401, 400 or the empty
    acknowledgement, or throws, the world untouched, on an incomplete
    event. *)
Lemma handleCardAction_outcome (b : CallbackObject) (h : CardHeader) (w : World) :
  cb_header b = Some h ->
  exists res w',
    Callback.handleCardAction b w = (res, w') /\
    match res with
    | Ok resp =>
        is_toast resp \/
        (w' = w /\
         ((code resp = 401 /\ truthy (LARK_VERIFICATION_TOKEN (w_env w)) = true) \/
          (code resp = 400 /\ json resp = ErrorObject (str "Invalid decision")) \/
          (code resp = 200 /\ json resp = EmptyObject)))
    | Throw _ => w' = w /\ card_incomplete b
    end.
Proof.
  intros Hh.
  assert (forall (refused : bool),
            (refused = true -> truthy (LARK_VERIFICATION_TOKEN (w_env w)) = true) ->
            exists res w',
              (if refused then respond 401 (ErrorObject (str "Invalid event token"))
               else
                 let* ev := required (cb_event b)
                              (cannot_destructure "action" "body.event") in
                 let* action := required (ev_action ev) (cannot_read false "value") in
                 let* v := required (ca_value action)
                             (cannot_destructure "requestId" "action.value") in
                 if (negb (truthy (av_requestId v))
                     || negb (truthy (av_decision v)))%bool
                 then respond 200 EmptyObject
                 else
                   match parse_decision (unwrap (av_decision v)) with
                   | None => respond 400 (ErrorObject (str "Invalid decision"))
                   | Some d =>
                       let requestId := unwrap (av_requestId v) in
                       let run (userMessage : option jsstring) : M Response :=
                         try_catch
                           (Callback.process requestId d (ev_operator ev) userMessage)
                           (fun _ => respond 200
                                       (Toast toast_error
                                          (str "Failed to process action"))) in
                       match d with
                       | Decision.message =>
                           match user_message action with
                           | text_string s =>
                               if blank (Some s) then
                                 respond 200
                                   (Toast toast_warning (str "Please enter a message"))
                               else run (Some (trim s))
                           | text_other true =>
                               throw (str "userMessage.trim is not a function")
                           | _ => respond 200
                                    (Toast toast_warning
                                       (str "Please enter a message"))
                           end
                       | _ => run None
                       end
                   end) w = (res, w') /\
              match res with
              | Ok resp =>
                  is_toast resp \/
                  (w' = w /\
                   ((code resp = 401 /\
                     truthy (LARK_VERIFICATION_TOKEN (w_env w)) = true) \/
                    (code resp = 400 /\
                     json resp = ErrorObject (str "Invalid decision")) \/
                    (code resp = 200 /\ json resp = EmptyObject)))
              | Throw _ => w' = w /\ card_incomplete b
              end) as Hrest.
  { intros refused Href. unfold card_incomplete.
    destruct refused.
    { eexists _, _. split; [reflexivity|]. right. simpl. auto. }
    unfold bind, required, throw, ret, respond.
    destruct (cb_event b) as [ev|];
      [|eexists _, _; split; [reflexivity|]; simpl; auto].
    destruct (ev_action ev) as [a|];
      [|eexists _, _; split; [reflexivity|]; simpl; auto].
    destruct (ca_value a) as [v|];
      [|eexists _, _; split; [reflexivity|]; simpl; auto].
    destruct (_ || _)%bool.
    { eexists _, _. split; [reflexivity|]. right. simpl. auto 10. }
    destruct (parse_decision _) as [d|].
    2: { eexists _, _. split; [reflexivity|]. right. simpl. auto 10. }
    assert (forall m,
              exists resp w',
                try_catch
                  (Callback.process (unwrap (av_requestId v)) d (ev_operator ev) m)
                  (fun _ (w0 : World) =>
                     (Ok {| code := 200;
                            json := Toast toast_error
                                      (str "Failed to process action") |}, w0)) w
                = (Ok resp, w') /\ is_toast resp) as Hrun.
    { intros m.
      destruct (process_caught (unwrap (av_requestId v)) d (ev_operator ev) m w)
        as (resp & w' & E & Hr).
      exists resp, w'. split; [exact E|exact Hr]. }
    destruct d; cbv beta iota zeta.
    - destruct (Hrun None) as (resp & w' & E & Hr).
      exists (Ok resp), w'. split; [exact E|]. left. exact Hr.
    - destruct (Hrun None) as (resp & w' & E & Hr).
      exists (Ok resp), w'. split; [exact E|]. left. exact Hr.
    - destruct (user_message a) as [|s|[|]] eqn:Hu.
      + eexists _, _. split; [reflexivity|]. left. apply toast_is_toast.
      + destruct (blank (Some s)).
        * eexists _, _. split; [reflexivity|]. left. apply toast_is_toast.
        * destruct (Hrun (Some (trim s))) as (resp & w' & E & Hr).
          exists (Ok resp), w'. split; [exact E|]. left. exact Hr.
      + eexists _, _. split; [reflexivity|]. simpl. auto.
      + eexists _, _. split; [reflexivity|]. left. apply toast_is_toast. }
  unfold Callback.handleCardAction.
  erewrite bind_ok by reflexivity. cbv beta iota.
  cbn [w_env].
  assert (exists refused,
            (if truthy (LARK_VERIFICATION_TOKEN (w_env w)) then
               let* h := required (cb_header b) (cannot_read false "token") in
               ret (negb (match hd_token h with
                          | Some t =>
                              Callback.verifyEventToken t
                                (unwrap (LARK_VERIFICATION_TOKEN (w_env w)))
                          | None => false
                          end))
             else ret false) w = (Ok refused, w) /\
            (refused = true ->
             truthy (LARK_VERIFICATION_TOKEN (w_env w)) = true))
    as (refused & Href & Himp).
  { destruct (truthy (LARK_VERIFICATION_TOKEN (w_env w))).
    - rewrite Hh. eexists. split; [reflexivity|]. auto.
    - exists false. split; [reflexivity|discriminate]. }
  erewrite bind_ok by exact Href. cbv beta iota. apply Hrest, Himp.
Qed.

(** The bodies the platform sends are complete. *)
Lemma platform_bodies_complete (p : CallbackBody) :
  (exists v, p = url_verification v) \/ (exists c, p = with_header c) \/
  p = other_body ->
  ~ incomplete p.
Proof.
  intros [[v ->]|[[c ->]| ->]]; unfold incomplete.
  - intros (H & _). cbn in H. rewrite streq_refl in H. discriminate.
  - intros (_ & _ & H). unfold card_incomplete in H. cbn in H.
    destruct H as [H|H]; [discriminate|].
    rewrite user_message_complete in H.
    destruct (submitted_text c); discriminate.
  - intros (_ & (h & H & _) & _). discriminate.
Qed.

(** X17: the callback endpoint never throws, and answers 500 only to a body
    it cannot read.  Every request is answered either by a toast over HTTP
    200 (whatever the store holds and whether or not the card update
    fails), or by 405 (method other than POST), 401 (token mismatch), 400
    (unknown decision kind), an empty 200 acknowledgement or the echoed
    challenge, or by 500 when there is no body or the card action event
    lacks [event], [action] or [value] or carries a message text that is not
    a string; and in all those other cases nothing in the world has
    changed.  A handshake, a complete card event or an object that is
    neither is never answered 500. *)
Theorem callback_always_answers (req : Request CallbackBody) (w : World) :
  exists (resp : Response) (w' : World),
    Callback.handler req w = (Ok resp, w') /\
    (is_toast resp \/
     (w' = w /\
      ((code resp = 405 /\ method req <> str "POST") \/
       (code resp = 401 /\ truthy (LARK_VERIFICATION_TOKEN (w_env w)) = true) \/
       (code resp = 400 /\ json resp = ErrorObject (str "Invalid decision")) \/
       (code resp = 200 /\
        (json resp = EmptyObject \/ exists c, json resp = Challenge c)) \/
       (code resp = 500 /\
        json resp = ErrorObject (str "Internal server error") /\
        incomplete (body req))))) /\
    (((exists v, body req = url_verification v) \/
      (exists c, body req = with_header c) \/ body req = other_body) ->
     code resp <> 500).
Proof.
  assert (exists (resp : Response) (w' : World),
    Callback.handler req w = (Ok resp, w') /\
    (is_toast resp \/
     (w' = w /\
      ((code resp = 405 /\ method req <> str "POST") \/
       (code resp = 401 /\ truthy (LARK_VERIFICATION_TOKEN (w_env w)) = true) \/
       (code resp = 400 /\ json resp = ErrorObject (str "Invalid decision")) \/
       (code resp = 200 /\
        (json resp = EmptyObject \/ exists c, json resp = Challenge c)) \/
       (code resp = 500 /\
        json resp = ErrorObject (str "Internal server error") /\
        incomplete (body req)))))) as (resp & w' & E & Hcases).
  2: { exists resp, w'. split; [exact E|]. split; [exact Hcases|].
       intros Hshape Hcode.
       destruct Hcases as [[H200 _]|(_ & [[H _]|[[H _]|[[H _]|[[H _]|(_ & _ & H)]]]])];
         try congruence.
       exact (platform_bodies_complete _ Hshape H). }
  unfold Callback.handler, respond, ret, streq.
  destruct (decide (method req = str "POST")) as [Hm|Hm].
  2: { rewrite bool_decide_eq_false_2 by done. simpl.
       eexists _, _. split; [reflexivity|]. right. simpl. auto. }
  rewrite bool_decide_eq_true_2 by done. cbn [negb].
  unfold try_catch at 1. unfold bind at 1. unfold read_body, throw.
  destruct (body req) as [| |b].
  1-2: eexists _, _; (split; [reflexivity|]); right; simpl; auto 10.
  unfold ret at 1. cbv beta iota.
  destruct (is_string (cb_type b) (str "url_verification")) eqn:Htype.
  - unfold Callback.handleUrlVerification, bind, get_env, respond, ret.
    destruct (truthy (LARK_VERIFICATION_TOKEN (w_env w))) eqn:Ht; simpl.
    + destruct (negb _); [eexists _, _; (split; [reflexivity|]); right; simpl; auto 10|].
      destruct (cb_challenge b);
        eexists _, _; (split; [reflexivity|]); right; simpl; eauto 10.
    + destruct (cb_challenge b);
        eexists _, _; (split; [reflexivity|]); right; simpl; eauto 10.
  - destruct (cb_header b) as [h|] eqn:Hh.
    2: { eexists _, _. split; [reflexivity|]. right. simpl. auto 10. }
    destruct (is_string (hd_event_type h) _) eqn:Hev.
    2: { eexists _, _. split; [reflexivity|]. right. simpl. auto 10. }
    destruct (handleCardAction_outcome b h w Hh) as (res & w' & E & Hres).
    rewrite E. destruct res as [resp|e].
    + exists resp, w'. split; [reflexivity|].
      destruct Hres as [Ht|(-> & [H|[H|H]])]; [left; exact Ht|right..];
        (split; [reflexivity|]); intuition auto.
    + destruct Hres as [-> Hinc]. eexists _, _. split; [reflexivity|].
      right. split; [reflexivity|]. simpl. do 4 right.
      split; [reflexivity|]. split; [reflexivity|].
      split; [exact Htype|]. split; [|exact Hinc].
      exists h. auto.
Qed.

Lemma handler_runs_process (id : jsstring) (c : LarkCardCallback)
    (d : Decision.t) (w : World) :
  decides (w_env w) id c d ->
  Callback.handler (callback_request c) w =
    try_catch
      (try_catch (Callback.process id d (operator_of c) (decision_text c d))
         (fun _ => respond 200
                     (Toast toast_error (str "Failed to process action"))))
      (fun _ => respond 500 (ErrorObject (str "Internal server error"))) w.
Proof.
  intros (Hid & Hev & Htok & Hreq & Hdec & Hmsg).
  rewrite (handler_complete (callback_request c) c w eq_refl).
  unfold callback_request.
  cbn [method]. rewrite streq_refl. cbn [negb]. rewrite Hev, streq_refl.
  unfold try_catch at 1 3. f_equal.
  unfold complete_card_action.
  erewrite bind_ok by reflexivity. cbn [w_env].
  rewrite (token_gate_open _ _ Htok), Hreq, Hdec, truthy_to_string.
  destruct id as [|ch id]; [done|]. cbn [truthy negb orb unwrap].
  rewrite parse_to_string.
  destruct d; try reflexivity.
  rewrite (Hmsg eq_refl). reflexivity.
Qed.

(** What a deciding card action does in the volatile backend. *)
Lemma callback_decides_mem (id : jsstring) (c : LarkCardCallback)
    (d : Decision.t) (w : World) (r : StoredRequest) :
  decides (w_env w) id c d ->
  uses_kv (w_env w) = false ->
  store (w_mem w) !! id = Some r -> status r = Status.pending ->
  next_now (tick (tick w)) < expiresAt (request r) ->
  exists (resp : Response) (w' : World),
    Callback.handler (callback_request c) w = (Ok resp, w') /\
    code resp = 200 /\
    store (w_mem w') !! id =
      Some (with_decision (with_status r (decided_status d))
              {| d_requestId := id; d_decision := d;
                 d_message := decision_text c d;
                 respondedAt := next_now (tick (tick (tick w)));
                 respondedBy := Some (operator_open_id c) |}) /\
    timers (w_mem w') !! id = None /\
    (json resp = success_toast d \/
     json resp = Toast toast_error (str "Failed to process action")) /\
    (truthy (larkMessageId r) = false -> json resp = success_toast d).
Proof.
  intros Hdec Hkv Hr Hs Hlive.
  pose proof (next_now_ge (tick w)) as H1. simpl in H1.
  pose proof (next_now_ge (tick (tick w))) as H2. simpl in H2.
  rewrite (handler_runs_process id c d w Hdec).
  set (stored' := with_decision (with_status r (decided_status d))
              {| d_requestId := id; d_decision := d;
                 d_message := decision_text c d;
                 respondedAt := next_now (tick (tick (tick w)));
                 respondedBy := Some (operator_open_id c) |}).
  set (w4 := set_mem
               {| store := <[id := stored']> (store (w_mem w));
                  timers := MemoryStore.clear_timer id (timers (w_mem w)) |}
               (tick (tick (tick (tick w))))).
  destruct (update_card_same (larkMessageId r)
              (fun mid => UpdateWithDecision mid (request r) d
                            (Some (operator_open_id c))) w4)
    as (res & w5 & Hup & (_ & _ & Hmem5 & _)).
  assert (Callback.process id d (operator_of c) (decision_text c d) w =
          match res with
          | Ok _ => (Ok {| code := 200; json := success_toast d |}, w5)
          | Throw e => (Throw e, w5)
          end) as Hp.
  { unfold Callback.process.
    erewrite bind_ok by apply getStore_eq. cbv beta iota. rewrite Hkv.
    cbn [RequestStore.get RequestStore.setDecision getMemoryStore].
    erewrite bind_ok.
    2: { unfold MemoryStore.get, bind, get_mem, Date_now, ret. cbv beta iota.
         rewrite Hr, Hs. cbn [Status.eqb].
         destruct (Z.leb_spec (expiresAt (request r)) (next_now w)); [lia|].
         reflexivity. }
    cbv beta iota. rewrite Hs. cbn [Status.eqb negb].
    erewrite bind_ok by reflexivity. cbv beta iota.
    change (w_now (set_clock (next_now w) (tl (w_ticks w)) w)) with (next_now w).
    destruct (Z.leb_spec (expiresAt (request r))
                (next_now (set_clock (next_now w) (tl (w_ticks w)) w)));
      [unfold tick in *; lia|].
    erewrite bind_ok by reflexivity. cbv beta iota. cbn [op_open_id].
    erewrite bind_ok by (apply mem_setDecision_live; [exact Hr|exact Hs|exact Hlive]).
    cbv beta iota. cbn [negb].
    unfold updateWithDecision. unfold bind at 1.
    match goal with
    | |- context [(if truthy _ then _ else _) ?wx] => change wx with w4
    end.
    rewrite Hup.
    destruct res; [destruct d|]; reflexivity. }
  unfold try_catch. rewrite Hp.
  assert (store (w_mem w5) !! id = Some stored' /\ timers (w_mem w5) !! id = None)
    as [Hst Htm].
  { rewrite Hmem5. unfold w4. simpl.
    split; [apply lookup_insert_eq|apply clear_timer_lookup]. }
  destruct res as [u|e]; eexists _, w5; (split; [reflexivity|]);
    (split; [reflexivity|]); (split; [exact Hst|]); (split; [exact Htm|]);
    (split; [simpl; auto|]).
  - reflexivity.
  - intros Hno. exfalso. rewrite Hno in Hup. discriminate.
Qed.

(** X18: in the volatile backend a card action with a valid decision on a
    pending request that is not yet due is answered 200 and leaves the
    request decided: the status of the decision, the decision stamped with
    the operator and the instant, the expiry timer dropped.  The update of
    the card is best effort: when it fails the answer is the error toast,
    and the decision stays. *)
Theorem callback_decision_is_kept (id : jsstring) (c : LarkCardCallback)
    (d : Decision.t) (w : World) (r : StoredRequest)
    (Haction : decides (w_env w) id c d)
    (Hbackend : uses_kv (w_env w) = false)
    (Hheld : store (w_mem w) !! id = Some r)
    (Hpending : status r = Status.pending)
    (Hlive : next_now (tick (tick w)) < expiresAt (request r)) :
  exists (resp : Response) (w' : World),
    Callback.handler (callback_request c) w = (Ok resp, w') /\
    code resp = 200 /\
    store (w_mem w') !! id =
      Some (with_decision (with_status r (decided_status d))
              {| d_requestId := id; d_decision := d;
                 d_message := decision_text c d;
                 respondedAt := next_now (tick (tick (tick w)));
                 respondedBy := Some (operator_open_id c) |}) /\
    timers (w_mem w') !! id = None /\
    (json resp = success_toast d \/
     json resp = Toast toast_error (str "Failed to process action")) /\
    (truthy (larkMessageId r) = false -> json resp = success_toast d).
Proof. apply callback_decides_mem; assumption. Qed.

Lemma trim_start_suffix (l : jsstring) :
  exists pre, l = pre ++ trim_start l /\ Forall (fun c => is_space c = true) pre.
Proof.
  induction l as [|c l (pre & E & H)]; simpl.
  - exists []. split; [reflexivity|constructor].
  - destruct (is_space c) eqn:Hc.
    + exists (c :: pre). split; [simpl; congruence|constructor; assumption].
    + exists []. split; [reflexivity|constructor].
Qed.

Lemma trim_shape (s : jsstring) :
  (exists pre post,
     s = pre ++ trim s ++ post /\
     Forall (fun c => is_space c = true) pre /\
     Forall (fun c => is_space c = true) post) /\
  (trim s <> [] ->
   (exists c t, trim s = c :: t /\ is_space c = false) /\
   (exists t c, trim s = t ++ [c] /\ is_space c = false)).
Proof.
  unfold trim.
  destruct (trim_start_suffix s) as (p1 & E1 & H1).
  destruct (trim_start_suffix (rev (trim_start s))) as (p2 & E2 & H2).
  set (Y := trim_start s) in *. set (X := trim_start (rev Y)) in *.
  assert (Y = rev X ++ rev p2) as EY.
  { rewrite <- (rev_involutive Y), E2, rev_app_distr. reflexivity. }
  split.
  - exists p1, (rev p2). split; [rewrite E1 at 1; rewrite EY; reflexivity|].
    split; [exact H1|]. apply Forall_rev. exact H2.
  - intros Hne.
    assert (X <> []) as HX by (intros E; apply Hne; rewrite E; reflexivity).
    destruct (trim_start_head (rev Y)) as [E|(x & X' & EX & Hx)]; [done|].
    fold X in EX. split.
    + destruct (trim_start_head s) as [E|(y & Y' & Ey & Hy)].
      * fold Y in E. rewrite E in E2. simpl in E2.
        symmetry in E2. apply app_eq_nil in E2. destruct E2. done.
      * fold Y in Ey. rewrite Ey in EY.
        destruct (rev X) as [|c t] eqn:Hrev.
        -- apply (f_equal (@rev N)) in Hrev. rewrite rev_involutive in Hrev. done.
        -- simpl in EY. injection EY as -> _. eauto.
    + exists (rev X'), x. rewrite EX. simpl. auto.
Qed.

(** X19: the message stored for a message decision is the submitted text
    without its surrounding white space: it is never empty, neither begins
    nor ends with white space, and the text is this message between two
    runs of white space; the status is [message]. *)
Theorem callback_message_is_trimmed (id : jsstring) (c : LarkCardCallback)
    (w : World) (r : StoredRequest) (text : jsstring)
    (Haction : decides (w_env w) id c Decision.message)
    (Htext : submitted_text c = Some text)
    (Hbackend : uses_kv (w_env w) = false)
    (Hheld : store (w_mem w) !! id = Some r)
    (Hpending : status r = Status.pending)
    (Hlive : next_now (tick (tick w)) < expiresAt (request r)) :
  exists (m : jsstring) (r' : StoredRequest),
    store (w_mem (snd (Callback.handler (callback_request c) w))) !! id = Some r' /\
    status r' = Status.message /\
    d_message <$> decision r' = Some (Some m) /\
    (exists ch rest, m = ch :: rest /\ is_space ch = false) /\
    (exists rest ch, m = rest ++ [ch] /\ is_space ch = false) /\
    exists pre post,
      text = pre ++ m ++ post /\
      Forall (fun ch => is_space ch = true) pre /\
      Forall (fun ch => is_space ch = true) post.
Proof.
  destruct (callback_decides_mem id c Decision.message w r Haction Hbackend
              Hheld Hpending Hlive) as (resp & w' & E & _ & Hst & _).
  rewrite E. cbn [snd].
  destruct Haction as (_ & _ & _ & _ & _ & Hblank).
  specialize (Hblank eq_refl). rewrite Htext in Hblank.
  assert (trim text <> []) as Hne.
  { intros Hnil. unfold blank, streq in Hblank. simpl in Hblank.
    rewrite Hnil in Hblank. rewrite bool_decide_eq_true_2 in Hblank by done.
    rewrite orb_true_r in Hblank. discriminate. }
  destruct (trim_shape text) as [Hshape Hends].
  destruct (Hends Hne) as [Hhead Hlast].
  eexists (trim text), _. split; [exact Hst|].
  split; [reflexivity|]. split.
  - simpl. unfold decision_text. rewrite Htext. reflexivity.
  - auto.
Qed.

(** X20: the handshake echoes the challenge verbatim exactly when no
    verification token is configured (undefined or empty) or the event
    carries the configured token; otherwise it is refused with 401.  Either
    way nothing in the world changes. *)
Theorem url_verification_echoes (v : LarkUrlVerification) (w : World) :
  let accepted := truthy (LARK_VERIFICATION_TOKEN (w_env w)) = false \/
                  LARK_VERIFICATION_TOKEN (w_env w) = Some (uv_token v) in
  snd (Callback.handler (url_verification_request v) w) = w /\
  (accepted ->
   fst (Callback.handler (url_verification_request v) w) =
     Ok {| code := 200; json := Challenge (uv_challenge v) |}) /\
  (~ accepted ->
   fst (Callback.handler (url_verification_request v) w) =
     Ok {| code := 401; json := ErrorObject (str "Invalid verification token") |}).
Proof.
  intros accepted. unfold accepted, Callback.handler, url_verification_request.
  cbn [method body]. rewrite streq_refl. cbn [negb].
  unfold try_catch, url_verification.
  cbv beta iota delta [bind read_body ret cb_type is_string].
  rewrite streq_refl.
  unfold Callback.handleUrlVerification, bind, get_env, respond, ret.
  cbn [cb_token cb_challenge is_string].
  destruct (LARK_VERIFICATION_TOKEN (w_env w)) as [[|ch tok]|] eqn:Ht;
    cbn [truthy andb unwrap].
  - split; [reflexivity|]. split; [reflexivity|]. intros H. destruct H. auto.
  - unfold streq. destruct (decide (uv_token v = ch :: tok)) as [E|E].
    + rewrite bool_decide_eq_true_2 by done. cbn [negb].
      split; [reflexivity|]. split; [reflexivity|].
      intros H. destruct H. right. congruence.
    + rewrite bool_decide_eq_false_2 by done. cbn [negb].
      split; [reflexivity|]. split; [|reflexivity].
      intros [H|H]; [discriminate|]. congruence.
  - split; [reflexivity|]. split; [reflexivity|]. intros H. destruct H. auto.
Qed.

(** ** More on the classifier *)

Lemma cmdStr_of_Some (s : jsstring) : cmdStr_of (Some s) = s.
Proof. destruct s; reflexivity. Qed.

Lemma test_embedded (r : regex) (pre s post : jsstring) :
  test r s = true -> test r (pre ++ s ++ post) = true.
Proof.
  rewrite !test_lang. intros (a & m & b & -> & H).
  exists (pre ++ a), m, (b ++ post). split; [|exact H].
  rewrite <- !app_assoc. reflexivity.
Qed.

Lemma any_match_embedded (ps : list regex) (pre s post : jsstring) :
  any_match ps s = true -> any_match ps (pre ++ s ++ post) = true.
Proof.
  induction ps as [|p ps IH]; simpl; [discriminate|].
  pose proof (test_embedded p pre s post) as Hp.
  destruct (test p s).
  - intros _. rewrite Hp by reflexivity. reflexivity.
  - intros H. destruct (test p (pre ++ s ++ post)); [reflexivity|]. apply IH, H.
Qed.

(** X21: more text around a command never lowers its risk: the level of a
    command that contains another one is at least the level of that one
    (for the same tool); and the shell tool is never [low]. *)
Theorem risk_is_monotone (tool : jsstring) (pre s post : jsstring) :
  (risk_rank (determineRiskLevel tool (Some s))
   <= risk_rank (determineRiskLevel tool (Some (pre ++ s ++ post))))%nat /\
  (tool = str "Bash" ->
   forall command, determineRiskLevel tool command <> low).
Proof.
  split.
  - unfold determineRiskLevel. rewrite !cmdStr_of_Some.
    pose proof (any_match_embedded dangerousPatterns pre s post) as Hc.
    pose proof (any_match_embedded highRiskPatterns pre s post) as Hh.
    pose proof (any_match_embedded mediumRiskPatterns pre s post) as Hm.
    destruct (any_match dangerousPatterns s);
      [rewrite Hc by reflexivity; simpl; lia|].
    destruct (any_match dangerousPatterns (pre ++ s ++ post));
      [destruct (any_match highRiskPatterns s), (any_match mediumRiskPatterns s),
         (streq tool (str "Bash")); simpl; lia|].
    destruct (any_match highRiskPatterns s);
      [rewrite Hh by reflexivity; simpl; lia|].
    destruct (any_match highRiskPatterns (pre ++ s ++ post));
      [destruct (any_match mediumRiskPatterns s), (streq tool (str "Bash"));
       simpl; lia|].
    destruct (any_match mediumRiskPatterns s);
      [rewrite Hm by reflexivity; simpl; lia|].
    destruct (any_match mediumRiskPatterns (pre ++ s ++ post));
      destruct (streq tool (str "Bash")); simpl; lia.
  - intros -> command. unfold determineRiskLevel. rewrite streq_refl.
    destruct (any_match dangerousPatterns _); [discriminate|].
    destruct (any_match highRiskPatterns _); [discriminate|].
    destruct (any_match mediumRiskPatterns _); discriminate.
Qed.

Lemma letter_not_space (c : N) : (65 <= c <= 122)%N -> is_space c = false.
Proof.
  intros H. unfold is_space, is_white_space, is_line_terminator.
  repeat match goal with
         | |- context [N.eqb ?a ?b] => destruct (N.eqb_spec a b); [lia|]
         | |- context [N.leb ?a ?b] => destruct (N.leb_spec a b); [|]
         end; try lia; reflexivity.
Qed.

Lemma letter_not_terminator (c : N) :
  (65 <= c <= 122)%N -> is_line_terminator c = false.
Proof.
  intros H. unfold is_line_terminator.
  repeat match goal with
         | |- context [N.eqb ?a ?b] => destruct (N.eqb_spec a b); [lia|]
         end; reflexivity.
Qed.

Lemma canonicalize_eq (a b : N) :
  canonicalize a = canonicalize b ->
  a = b \/ ((65 <= a <= 122)%N /\ (65 <= b <= 122)%N).
Proof.
  unfold canonicalize.
  destruct (N.leb_spec 97 a), (N.leb_spec a 122), (N.leb_spec 97 b),
    (N.leb_spec b 122); simpl; lia.
Qed.

Lemma cls_match_case (k : cls) (a b : N) :
  canonicalize a = canonicalize b -> cls_match k a = cls_match k b.
Proof.
  intros H. destruct k; simpl.
  - rewrite H. reflexivity.
  - destruct (canonicalize_eq a b H) as [->|[Ha Hb]]; [reflexivity|].
    rewrite !letter_not_space by assumption. reflexivity.
  - destruct (canonicalize_eq a b H) as [->|[Ha Hb]]; [reflexivity|].
    rewrite !letter_not_terminator by assumption. reflexivity.
Qed.

Lemma deriv_case (r : regex) (a b : N) :
  canonicalize a = canonicalize b -> deriv a r = deriv b r.
Proof.
  intros H. induction r; simpl; try congruence.
  - rewrite (cls_match_case k a b H). reflexivity.
  - destruct (nullable r1); congruence.
Qed.

Lemma match_here_case (s s' : jsstring) :
  same_up_to_case s s' -> forall r, match_here r s = match_here r s'.
Proof.
  induction 1 as [|a b s s' Hab _ IH]; intros r; simpl; [reflexivity|].
  rewrite (deriv_case r a b Hab), IH. reflexivity.
Qed.

Lemma test_case (r : regex) (s s' : jsstring) :
  same_up_to_case s s' -> test r s = test r s'.
Proof.
  intros H. induction H as [|a b s s' Hab Hs IH]; [reflexivity|].
  change (test r (a :: s)) with (match_here r (a :: s) || test r s)%bool.
  change (test r (b :: s')) with (match_here r (b :: s') || test r s')%bool.
  rewrite IH.
  rewrite (match_here_case (a :: s) (b :: s')) by (constructor; assumption).
  reflexivity.
Qed.

Lemma any_match_case (ps : list regex) (s s' : jsstring) :
  same_up_to_case s s' -> any_match ps s = any_match ps s'.
Proof.
  intros H. induction ps as [|p ps IH]; simpl; [reflexivity|].
  rewrite (test_case p s s' H), IH. reflexivity.
Qed.

(** X22: the classifier ignores the case of ASCII letters in the command:
    two commands that differ only there get the same level. *)
Theorem risk_ignores_case (tool : jsstring) (s s' : jsstring)
    (Hcase : same_up_to_case s s') :
  determineRiskLevel tool (Some s) = determineRiskLevel tool (Some s').
Proof.
  unfold determineRiskLevel. rewrite !cmdStr_of_Some.
  rewrite (any_match_case dangerousPatterns s s' Hcase),
    (any_match_case highRiskPatterns s s' Hcase),
    (any_match_case mediumRiskPatterns s s' Hcase).
  reflexivity.
Qed.

Lemma notify_creates_pending_witness :
  let w := fresh_world env_memory 1000 [5%N] [Some (str "om_1")] in
  well_formed_create (w_env w) sample_create_trailing_slash /\
  lark_configured (w_env w) /\
  exists (pr : PermissionRequest) (w' : World),
    Notify.handler sample_create_trailing_slash w =
      (Ok {| code := 200;
             json := ApiResponse true
               (Some (NotifyResponse (w_uuid w 0%nat) 301005)) None |}, w') /\
    stored_record (w_uuid w 0%nat) w' =
      Some {| request := pr; status := Status.pending; decision := None;
              larkMessageId := Some (str "om_1"); createdAt := 1005 |} /\
    project pr = str "Unknown".
Proof.
  intros w.
  assert (well_formed_create (w_env w) sample_create_trailing_slash) as Hreq.
  { repeat split; reflexivity. }
  assert (lark_configured (w_env w)) as Hlark.
  { repeat split; reflexivity. }
  split; [exact Hreq|]. split; [exact Hlark|].
  destruct (notify_creates_pending sample_create_trailing_slash w (str "om_1") []
              Hreq Hlark eq_refl)
    as (pr & w' & Hrun & Hst & _ & _ & _ & _ & _ & _ & Hwd & _ & _ & _ & Hproj).
  exists pr, w'. split; [exact Hrun|]. split; [exact Hst|].
  apply Hproj; [reflexivity|].
  exists (str "/home/dev/app"). rewrite Hwd. reflexivity.
Defined.

Lemma poll_reports_record_witness :
  id0 <> [] /\
  api_key_ok (w_env mem_decided_world) None = true /\
  holds mem_decided_world id0 sample_decided /\
  exists (sr : StatusResponse) (w' : World),
    StatusApi.handler (poll_request id0 None) mem_decided_world =
      (Ok {| code := 200; json := ApiResponse true (Some (StatusData sr)) None |},
       w') /\
    sr_status sr = known Status.approved /\
    sr_decision sr = Some Decision.approve.
Proof.
  assert (holds mem_decided_world id0 sample_decided) as Hheld.
  { left. split; reflexivity. }
  split; [discriminate|]. split; [reflexivity|]. split; [exact Hheld|].
  destruct (poll_reports_record id0 None mem_decided_world sample_decided)
    as (sr & w' & Hrun & Hs & Hd & _).
  - discriminate.
  - reflexivity.
  - exact Hheld.
  - left. discriminate.
  - exists sr, w'. split; [exact Hrun|]. split; [exact Hs|exact Hd].
Defined.

Lemma poll_unknown_id_witness :
  let w := fresh_world env_memory 0 [] [] in
  api_key_ok (w_env w) None = true /\
  holds_nothing w id0 /\
  fst (StatusApi.handler
         {| method := str "GET"; authorization := None; body := q_absent |} w) =
    Ok {| code := 400;
          json := ApiResponse false None (Some (str "Missing request ID")) |} /\
  fst (StatusApi.handler (poll_request id0 None) w) =
    Ok {| code := 200;
          json := ApiResponse true
            (Some (StatusData {| sr_status := not_found; sr_decision := None;
                                 sr_message := None;
                                 sr_respondedAt := None |})) None |}.
Proof.
  intros w.
  assert (holds_nothing w id0) as Hnone.
  { left. split; reflexivity. }
  split; [reflexivity|]. split; [exact Hnone|]. split.
  - destruct (poll_unknown_id q_absent None w eq_refl) as [H _].
    rewrite H by (left; reflexivity). reflexivity.
  - destruct (poll_unknown_id (q_string id0) None w eq_refl) as [_ H].
    destruct (H id0 eq_refl) as (w' & Hrun & _); [discriminate|exact Hnone|].
    unfold poll_request. rewrite Hrun. reflexivity.
Defined.

Lemma callback_decision_is_kept_witness :
  let c := button_action Decision.approve in
  let w := mem_pending_with_card in
  decides (w_env w) id0 c Decision.approve /\
  uses_kv (w_env w) = false /\
  exists (resp : Response) (w' : World),
    Callback.handler (callback_request c) w = (Ok resp, w') /\
    code resp = 200 /\
    status <$> store (w_mem w') !! id0 = Some Status.approved /\
    timers (w_mem w') !! id0 = None.
Proof.
  intros c w.
  assert (decides (w_env w) id0 c Decision.approve) as Haction.
  { split; [discriminate|]. split; [reflexivity|]. split; [left; reflexivity|].
    split; [reflexivity|]. split; [reflexivity|]. discriminate. }
  split; [exact Haction|]. split; [reflexivity|].
  destruct (callback_decision_is_kept id0 c Decision.approve w
              {| request := sample_request id0 300000; status := Status.pending;
                 decision := None; larkMessageId := Some (str "om_1");
                 createdAt := 0 |} Haction)
    as (resp & w' & Hrun & Hcode & Hst & Htm & _).
  - reflexivity.
  - vm_compute. reflexivity.
  - reflexivity.
  - vm_compute. reflexivity.
  - exists resp, w'. split; [exact Hrun|]. split; [exact Hcode|].
    split; [rewrite Hst; reflexivity|exact Htm].
Defined.

Lemma callback_message_is_trimmed_witness :
  let c := message_action (Some (str "  retry with sudo  ")) in
  let w := mem_pending_world in
  decides (w_env w) id0 c Decision.message /\
  submitted_text c = Some (str "  retry with sudo  ") /\
  exists (m : jsstring) (r' : StoredRequest),
    store (w_mem (snd (Callback.handler (callback_request c) w))) !! id0 = Some r' /\
    status r' = Status.message /\
    d_message <$> decision r' = Some (Some m) /\
    exists pre post,
      str "  retry with sudo  " = pre ++ m ++ post /\
      Forall (fun ch => is_space ch = true) pre /\
      Forall (fun ch => is_space ch = true) post.
Proof.
  intros c w.
  assert (decides (w_env w) id0 c Decision.message) as Haction.
  { split; [discriminate|]. split; [reflexivity|]. split; [left; reflexivity|].
    split; [reflexivity|]. split; [reflexivity|]. intros _. vm_compute. reflexivity. }
  split; [exact Haction|]. split; [reflexivity|].
  destruct (callback_message_is_trimmed id0 c w (sample_stored id0 300000)
              (str "  retry with sudo  ") Haction)
    as (m & r' & Hst & Hs & Hm & _ & _ & Hshape).
  - reflexivity.
  - reflexivity.
  - vm_compute. reflexivity.
  - reflexivity.
  - vm_compute. reflexivity.
  - exists m, r'. split; [exact Hst|]. split; [exact Hs|]. split; [exact Hm|].
    exact Hshape.
Defined.

Lemma risk_ignores_case_witness :
  same_up_to_case (str "RM -RF /") (str "rm -rf /") /\
  determineRiskLevel (str "Bash") (Some (str "RM -RF /")) =
    determineRiskLevel (str "Bash") (Some (str "rm -rf /")).
Proof.
  assert (same_up_to_case (str "RM -RF /") (str "rm -rf /")) as Hcase.
  { repeat constructor. }
  split; [exact Hcase|].
  apply (risk_ignores_case (str "Bash") _ _ Hcase).
Defined.

(** ** Signatures and timestamps *)

(** X23: a signature computed by [calculateCardSignature] is accepted by
    [verifyLarkSignature] for the same timestamp, nonce, secret and body;
    and since the four parts are concatenated without separators, it is
    accepted as well for any other four parts with the same concatenation. *)
Theorem signature_round_trip (hmac : jsstring -> jsstring -> jsstring)
    (t n key body : jsstring) :
  verifyLarkSignature hmac t n body (calculateCardSignature hmac t n key body) key
    = true /\
  forall t' n' key' body',
    t' ++ n' ++ key' ++ body' = t ++ n ++ key ++ body ->
    verifyLarkSignature hmac t' n' body'
      (calculateCardSignature hmac t n key body) key' = true.
Proof.
  assert (forall t' n' key' body',
             t' ++ n' ++ key' ++ body' = t ++ n ++ key ++ body ->
             verifyLarkSignature hmac t' n' body'
               (calculateCardSignature hmac t n key body) key' = true) as H.
  { intros t' n' key' body' E.
    unfold verifyLarkSignature, calculateCardSignature, streq.
    apply bool_decide_eq_true_2. f_equal.
    rewrite <- !app_assoc. symmetry. exact E. }
  split; [apply H; reflexivity|exact H].
Qed.

(** X24: [verifyTimestamp] accepts exactly the timestamps (in seconds) whose
    distance to the current second is at most [maxAge] (300 when omitted),
    in the past as well as in the future: in milliseconds, exactly when the
    clock reads within [(timestamp - maxAge) * 1000] and
    [(timestamp + maxAge) * 1000 + 999]. *)
Theorem verifyTimestamp_window (timestamp : Z) (maxAge : option Z) (w : World) :
  let age := match maxAge with
             | Some a => a
             | None => 300
             end in
  exists b,
    verifyTimestamp timestamp maxAge w = (Ok b, tick w) /\
    (b = true <->
     (timestamp - age) * 1000 <= next_now w < (timestamp + age + 1) * 1000).
Proof.
  intros age. unfold verifyTimestamp, bind, Date_now, ret. fold age.
  eexists. split; [reflexivity|].
  rewrite Z.leb_le.
  pose proof (Z.div_mod (next_now w) 1000 ltac:(lia)) as Hdm.
  pose proof (Z.mod_pos_bound (next_now w) 1000 ltac:(lia)) as Hb.
  split; intros H; lia.
Qed.

(** ** The access token *)

(** X25: a token fetched by a client that holds none, or a stale one, is
    kept and reused: until 60 seconds before its expiry (the instant of the
    answer plus the announced lifetime, two hours when the answer names none
    or zero) every further call returns the same token, reads the clock
    once and does not ask the token endpoint, whatever that would answer. *)
Theorem fetched_token_is_reused (fetch_token : M LarkTokenResponse)
    (c : LarkClient) (w w0 w1 : World) (data : LarkTokenResponse)
    (tok : jsstring)
    (Hstale : token_cached c w = (Ok false, w0))
    (Hfetch : fetch_token w0 = (Ok data, w1))
    (Hcode : t_code data = 0)
    (Htoken : tenant_access_token data = Some tok)
    (Hne : tok <> []) :
  exists c',
    getAccessToken fetch_token c w = (Ok tok, c', tick w1) /\
    tokenExpiresAt c' = next_now w1 + token_lifetime data * 1000 /\
    forall (fetch_token' : M LarkTokenResponse) (w2 : World),
      next_now w2 < tokenExpiresAt c' - 60000 ->
      getAccessToken fetch_token' c' w2 = (Ok tok, c', tick w2).
Proof.
  destruct tok as [|ch tok]; [done|].
  eexists. split; [|split].
  - unfold getAccessToken. rewrite Hstale, Hfetch, Hcode.
    rewrite Htoken.
    cbn [Z.eqb negb truthy orb]. unfold Date_now. cbn [unwrap]. reflexivity.
  - reflexivity.
  - intros fetch' w2 Hlt. unfold getAccessToken, token_cached.
    cbn [accessToken tokenExpiresAt] in *. cbn [truthy].
    unfold bind, Date_now, ret.
    destruct (Z.ltb_spec (next_now w2)
                (next_now w1 + token_lifetime data * 1000 - 60000)); [|lia].
    reflexivity.
Qed.

Lemma fetched_token_is_reused_witness :
  let w := fresh_world env_memory 1000 [] [] in
  exists c',
    getAccessToken (fetch_answers sample_token) new_LarkClient w =
      (Ok (str "t-abc"), c', w) /\
    tokenExpiresAt c' = 7201000 /\
    getAccessToken (throw (str "offline")) c' (set_clock 7000000 [] w) =
      (Ok (str "t-abc"), c', set_clock 7000000 [] w).
Proof.
  intros w.
  destruct (fetched_token_is_reused (fetch_answers sample_token) new_LarkClient
              w w w sample_token (str "t-abc") eq_refl eq_refl eq_refl eq_refl)
    as (c' & Hget & Hexp & Hreuse); [discriminate|].
  exists c'. split; [exact Hget|]. split; [exact Hexp|].
  apply (Hreuse (throw (str "offline")) (set_clock 7000000 [] w)).
  rewrite Hexp. vm_compute. reflexivity.
Defined.

(** ** The two backends beside each other *)

(** X26: on a pending request that both hold and that is not yet due, the
    two backends treat an approval or a denial alike at the same clock: both
    accept it, stamp it with the same instant, and then hold the same
    record. *)
Theorem backends_agree_on_buttons (id : jsstring) (d : Decision.t)
    (by_ : option jsstring) (wm wk : World) (r : StoredRequest) (dl : Z)
    (Hbutton : d <> Decision.message)
    (Hmem : store (w_mem wm) !! id = Some r)
    (Hkv : w_kv wk !! KVStore.getKey id = Some (r, dl))
    (Hkept : next_now wk < dl)
    (Hpending : status r = Status.pending)
    (Hlive : next_now wm < expiresAt (request r))
    (Hnow : w_now wm = w_now wk)
    (Hticks : w_ticks wm = w_ticks wk) :
  fst (MemoryStore.setDecision id d by_ None wm) = Ok true /\
  fst (KVStore.setDecision id d by_ wk) = Ok true /\
  exists r',
    mem_record id (snd (MemoryStore.setDecision id d by_ None wm)) = Some r' /\
    kv_record id (snd (KVStore.setDecision id d by_ wk)) = Some r' /\
    status r' = decided_status d /\
    (respondedAt <$> decision r') = Some (next_now (tick wm)).
Proof.
  rewrite (mem_setDecision_live id d by_ None wm r Hmem Hpending Hlive).
  rewrite (kv_setDecision_pending id d by_ wk r dl Hkv Hpending Hkept).
  cbn [fst snd]. split; [reflexivity|]. split; [reflexivity|].
  eexists. split.
  - unfold mem_record. cbn [w_mem set_mem store]. apply lookup_insert_eq.
  - unfold kv_record.
    cbn [w_kv set_kv tick set_clock]. rewrite lookup_insert_eq. cbn [fmap option_fmap option_map fst].
    assert (next_now (tick wm) = next_now (tick wk)) as ->.
    { unfold next_now, tick, set_clock. cbn [w_ticks w_now].
      unfold next_now. rewrite Hnow, Hticks. reflexivity. }
    split; [|split; [|reflexivity]].
    + unfold KVStore.updated. destruct d; [reflexivity|reflexivity|done].
    + destruct d; reflexivity.
Qed.

Lemma backends_agree_on_buttons_witness :
  exists r',
    mem_record id0
      (snd (MemoryStore.setDecision id0 Decision.deny (Some (str "ou_1")) None
              mem_pending_world)) = Some r' /\
    kv_record id0
      (snd (KVStore.setDecision id0 Decision.deny (Some (str "ou_1"))
              kv_pending_world)) = Some r' /\
    status r' = Status.denied.
Proof.
  destruct (backends_agree_on_buttons id0 Decision.deny (Some (str "ou_1"))
              mem_pending_world kv_pending_world (sample_stored id0 300000) 300000)
    as (_ & _ & r' & Hm & Hk & Hs & _).
  - discriminate.
  - reflexivity.
  - reflexivity.
  - vm_compute. reflexivity.
  - reflexivity.
  - vm_compute. reflexivity.
  - reflexivity.
  - reflexivity.
  - exists r'. split; [exact Hm|]. split; [exact Hk|exact Hs].
Defined.

(** ** Card actions that come too late *)

(** X27: a card action with a valid decision on a request that is already
    settled (approved, denied, message or expired) is answered 200 with the
    toast "Request already <status>", and one on an id the selected store
    does not hold with the toast "Request not found or already processed";
    in both cases neither store is written and the chat platform is not
    called. *)
Theorem callback_refuses_settled (id : jsstring) (c : LarkCardCallback)
    (d : Decision.t) (w : World)
    (Haction : decides (w_env w) id c d) :
  (forall r, holds w id r -> status r <> Status.pending ->
   exists w',
     Callback.handler (callback_request c) w =
       (Ok {| code := 200;
              json := Toast toast_info
                        (str "Request already " ++ Status.to_string (status r)) |},
        w') /\
     w_mem w' = w_mem w /\ w_kv w' = w_kv w /\ w_cards w' = w_cards w) /\
  (holds_nothing w id ->
   exists w',
     Callback.handler (callback_request c) w =
       (Ok {| code := 200;
              json := Toast toast_error
                        (str "Request not found or already processed") |}, w') /\
     w_mem w' = w_mem w /\ w_kv w' = w_kv w /\ w_cards w' = w_cards w).
Proof.
  rewrite (handler_runs_process id c d w Haction). split.
  - intros r Hheld Hs.
    destruct (store_get_held w id r Hheld (or_introl Hs))
      as (w' & Hget & Hm & Hk & _ & Hw).
    exists w'. split.
    + apply try_catch_ok, try_catch_ok. unfold Callback.process.
      erewrite bind_ok by apply getStore_eq. cbv beta iota.
      erewrite bind_ok by exact Hget. cbv beta iota.
      rewrite (Status_eqb_pending _ Hs). reflexivity.
    + split; [exact Hm|]. split; [exact Hk|].
      destruct Hw as [->| ->]; reflexivity.
  - intros Hnone.
    assert (exists w', RequestStore.get
              (if uses_kv (w_env w) then createKVStore else getMemoryStore) id w
              = (Ok None, w') /\ w_mem w' = w_mem w /\ w_kv w' = w_kv w /\
              w_cards w' = w_cards w)
      as (w' & Hget & Hm & Hk & Hc).
    { destruct Hnone as [[Hkv Hr]|[Hkv Hr]]; rewrite Hkv.
      - cbn [RequestStore.get getMemoryStore].
        unfold MemoryStore.get, bind, get_mem. simpl. rewrite Hr. eauto.
      - cbn [RequestStore.get createKVStore]. rewrite (kv_get_gone _ _ Hr).
        eexists. split; [reflexivity|]. auto. }
    exists w'. split; [|auto].
    apply try_catch_ok, try_catch_ok. unfold Callback.process.
    erewrite bind_ok by apply getStore_eq. cbv beta iota.
    erewrite bind_ok by exact Hget. reflexivity.
Qed.

Lemma callback_refuses_settled_witness :
  let c := button_action Decision.deny in
  decides (w_env mem_decided_world) id0 c Decision.deny /\
  holds mem_decided_world id0 sample_decided /\
  exists w',
    Callback.handler (callback_request c) mem_decided_world =
      (Ok {| code := 200;
             json := Toast toast_info (str "Request already approved") |}, w') /\
    w_mem w' = w_mem mem_decided_world.
Proof.
  intros c.
  assert (decides (w_env mem_decided_world) id0 c Decision.deny) as Haction.
  { split; [discriminate|]. split; [reflexivity|]. split; [left; reflexivity|].
    split; [reflexivity|]. split; [reflexivity|]. discriminate. }
  assert (holds mem_decided_world id0 sample_decided) as Hheld.
  { left. split; reflexivity. }
  split; [exact Haction|]. split; [exact Hheld|].
  destruct (callback_refuses_settled id0 c Decision.deny mem_decided_world Haction)
    as [Hsettled _].
  destruct (Hsettled sample_decided Hheld) as (w' & Hrun & Hm & _); [discriminate|].
  exists w'. split; [exact Hrun|exact Hm].
Defined.
